(** * CRM-python: the typed field model, the record and the address book

    A shallow embedding of the core of [src/crm.py] (the JSON API service)
    and [src/answer.py] (the HTML service): field classes with their
    validators, the registry and [field_decoder], [Record] / [Developer],
    [AddressBook] and [get_rate_stat].  The Flask routes are not modelled.

    Conventions.
    - A Python [str] is a Rocq [string]: a sequence of code points below 256.
      On that range the regular-expression class [\d] is exactly [0-9].
    - A Python value that can travel through JSON is a [pyval].
    - A method that mutates [self] is a function from the object to the
      mutated object paired with its outcome ([Ok] or [Raise]): what was
      assigned before an exception propagates stays assigned.
    - A record is the list of the states of its fields ([Rec.t]); its fields
      are distinct objects, as they are in the two services, where every
      field that is added has just been constructed.  [Obj] keeps the
      objects apart where the same object may sit twice in a record.
    - A C [Py_ssize_t] has 64 bits.
    - [int] reads and writes decimal texts of any length: the cap that an
      interpreter may put on their digits (4300 by default from CPython 3.11
      on) is left out, and a statement that depends on it carries the
      bound.
    - A JSON text is identified with the document it denotes ([json_text]):
      [json.dumps] is injective on documents, so two dumps are the same
      bytes exactly when the documents are equal. *)

From Stdlib Require Import ZArith List String Ascii Bool Lia SpecFloat.
From Stdlib Require Import DecimalString DecimalZ FinFun.
Import ListNotations.
Local Open Scope string_scope.
Local Open Scope Z_scope.

Set Implicit Arguments.
Set Warnings "-register-all".

(** ** Exceptions and outcomes *)

Inductive exn : Type :=
| IncorrectInput
| FieldDecodeError
| KeyError
| IndexError
| ValueError
| TypeError
| AttributeError
| OverflowError.

Inductive res (A : Type) : Type :=
| Ok (a : A)
| Raise (e : exn).

Arguments Ok {A} a.
Arguments Raise {A} e.

Definition bind {A B : Type} (m : res A) (k : A -> res B) : res B :=
  match m with
  | Ok a => k a
  | Raise e => Raise e
  end.

Declare Scope res_scope.
Delimit Scope res_scope with res.
Notation "'let*' x ':=' m 'in' k" := (bind m (fun x => k))
  (at level 10, x name, m at level 100, k at level 200) : res_scope.
Local Open Scope res_scope.

(** [try: ... except E: raise E'] *)
Definition reraise {A : Type} (from to : exn) (m : res A) : res A :=
  match m with
  | Raise e => if match e, from with
                  | KeyError, KeyError | ValueError, ValueError
                  | AttributeError, AttributeError => true
                  | _, _ => false
                  end then Raise to else Raise e
  | r => r
  end.

(** ** Python values *)

Definition float := spec_float.

Inductive pyval : Type :=
| PNone
| PBool (b : bool)
| PInt (z : Z)
| PFloat (f : float)
| PStr (s : string)
| PList (l : list pyval)
| PDict (d : list (string * pyval)).

(** ** Strings *)

Definition is_digit (c : ascii) : bool :=
  let n := nat_of_ascii c in ((48 <=? n) && (n <=? 57))%nat.

Definition digit_val (c : ascii) : Z := Z.of_nat (nat_of_ascii c) - 48.

(** [str.isspace] on the code points below 256 *)
Definition is_space (c : ascii) : bool :=
  let n := nat_of_ascii c in
  (((9 <=? n) && (n <=? 13)) || ((28 <=? n) && (n <=? 32))
   || (n =? 133) || (n =? 160))%nat.

(** The white space that [int(...)] and [float(...)] drop around the text
    of a number: tab to carriage return and the blank, and U+0085 and
    U+00A0, which the conversion turns into blanks first.  U+001C to U+001F
    are white space for [str.isspace], not for the conversions. *)
Definition is_number_space (c : ascii) : bool :=
  let n := nat_of_ascii c in
  (((9 <=? n) && (n <=? 13)) || (n =? 32) || (n =? 133) || (n =? 160))%nat.

Fixpoint number_lstrip (s : string) : string :=
  match s with
  | String c s' => if is_number_space c then number_lstrip s' else s
  | EmptyString => EmptyString
  end.

Fixpoint rev_string (s acc : string) : string :=
  match s with
  | String c s' => rev_string s' (String c acc)
  | EmptyString => acc
  end.

(** The text of a number without the white space around it. *)
Definition number_strip (s : string) : string :=
  rev_string (number_lstrip (rev_string (number_lstrip s) "")) "".

(** [s.replace(c, "")] for a one-character [c] *)
Fixpoint remove_char (c : ascii) (s : string) : string :=
  match s with
  | String a s' => if Ascii.eqb a c then remove_char c s' else String a (remove_char c s')
  | EmptyString => EmptyString
  end.

(** [needle in hay] on two strings *)
Fixpoint str_contains (needle hay : string) : bool :=
  prefix needle hay ||
  match hay with
  | String _ hay' => str_contains needle hay'
  | EmptyString => false
  end.

Fixpoint all_chars (p : ascii -> bool) (s : string) : bool :=
  match s with
  | String c s' => p c && all_chars p s'
  | EmptyString => true
  end.

Definition lower (c : ascii) : ascii :=
  let n := nat_of_ascii c in
  if ((65 <=? n) && (n <=? 90))%nat then ascii_of_nat (n + 32) else c.

Fixpoint lower_str (s : string) : string :=
  match s with
  | String c s' => String (lower c) (lower_str s')
  | EmptyString => EmptyString
  end.

(** Underscores in a numeric literal: each one sits between two digits; they
    are dropped before the literal is read. *)
Fixpoint strip_underscores (prev_digit : bool) (s : string) : option string :=
  match s with
  | EmptyString => Some EmptyString
  | String c s' =>
      if Ascii.eqb c "_" then
        match s' with
        | String d _ =>
            if prev_digit && is_digit d then strip_underscores false s' else None
        | EmptyString => None
        end
      else option_map (String c) (strip_underscores (is_digit c) s')
  end.

(** Value of a run of decimal digits, most significant first. *)
Fixpoint digits_value (acc : Z) (s : string) : Z :=
  match s with
  | String c s' => digits_value (10 * acc + digit_val c) s'
  | EmptyString => acc
  end.

(** ** [int(...)] and [str(int)] *)

Definition split_sign (s : string) : bool * string :=
  match s with
  | String "-" s' => (true, s')
  | String "+" s' => (false, s')
  | _ => (false, s)
  end.

(** [int(s)] for a string: the white space around the text is dropped, then
    [[sign] digits], where single underscores may sit between digits.  The
    conversion is exact at any length: the cap that an interpreter may put
    on the number of digits ([sys.set_int_max_str_digits], 4300 digits by
    default from CPython 3.11 on) is not part of it. *)
Definition int_of_str (s : string) : res Z :=
  match strip_underscores false (number_strip s) with
  | None => Raise ValueError
  | Some t =>
      let '(neg, ds) := split_sign t in
      match ds with
      | EmptyString => Raise ValueError
      | _ => match NilEmpty.uint_of_string ds with
             | Some u => Ok (if neg then - Z.of_uint u else Z.of_uint u)
             | None => Raise ValueError
             end
      end
  end.

Definition str_of_int (z : Z) : string := NilZero.string_of_int (Z.to_int z).

(** ** Floats: IEEE 754 binary64 *)

Definition prec : Z := 53.
Definition emax : Z := 1024.

Definition fzero : float := S754_zero false.
Definition feqb : float -> float -> bool := SFeqb.
Definition fltb : float -> float -> bool := SFltb.
Definition fadd : float -> float -> float := SFadd prec emax.

(** The double nearest to [num / den] (ties to even), [num > 0] and
    [den > 0]: the quotient is taken with more than [prec + 2] bits and a
    sticky last bit, then rounded once. *)
Definition round_ratio (neg : bool) (num den : Z) : float :=
  let s := 64 + Z.log2_up den in
  let q := Z.shiftl num s / den in
  let sticky := if Z.shiftl num s mod den =? 0 then 0 else 1 in
  binary_normalize prec emax (cond_Zopp neg (2 * q + sticky)) (- s - 1) neg.

(** The double nearest to [m * 10 ^ e]. *)
Definition float_of_decimal (neg : bool) (m e : Z) : float :=
  if m =? 0 then S754_zero neg
  else if 0 <=? e then binary_normalize prec emax (cond_Zopp neg (m * 10 ^ e)) 0 neg
  else round_ratio neg m (10 ^ (- e)).

(** [float(n)] for an int: [OverflowError] past the largest double. *)
Definition float_of_int (z : Z) : res float :=
  match binary_normalize prec emax z 0 false with
  | S754_infinity _ => Raise OverflowError
  | f => Ok f
  end.

(** Longest prefix of digits and the rest. *)
Fixpoint span_digits (s : string) : string * string :=
  match s with
  | String c s' =>
      if is_digit c then let '(d, r) := span_digits s' in (String c d, r)
      else (EmptyString, s)
  | EmptyString => (EmptyString, EmptyString)
  end.

(** An exponent part [e[+-]digits]: its value, or [None] when the text is not
    one. *)
Definition parse_exponent (s : string) : option Z :=
  match s with
  | EmptyString => Some 0
  | String c s' =>
      if Ascii.eqb (lower c) "e" then
        let '(neg, ds) := split_sign s' in
        match ds with
        | EmptyString => None
        | _ => if all_chars is_digit ds
               then Some (if neg then - digits_value 0 ds else digits_value 0 ds)
               else None
        end
      else None
  end.

(** [float(s)] for a string: the white space around the text is dropped
    ([number_strip]), then
    [[sign] (inf | infinity | nan | digits [. digits] [exponent])]. *)
Definition float_of_str (s : string) : res float :=
  match strip_underscores false (number_strip s) with
  | None => Raise ValueError
  | Some t =>
      let '(neg, u) := split_sign t in
      let lu := lower_str u in
      if (lu =? "inf")%string || (lu =? "infinity")%string then Ok (S754_infinity neg)
      else if (lu =? "nan")%string then Ok S754_nan
      else
        let '(ip, r1) := span_digits u in
        let '(fp, r2) := match r1 with
                         | String "." r => span_digits r
                         | _ => (EmptyString, r1)
                         end in
        match (ip ++ fp)%string with
        | EmptyString => Raise ValueError
        | ds =>
            match parse_exponent r2 with
            | None => Raise ValueError
            | Some e =>
                Ok (float_of_decimal neg (digits_value 0 ds)
                                     (e - Z.of_nat (String.length fp)))
            end
        end
  end.

(** ** [str(float)]: the shortest decimal text that reads back as the float *)

(** The exact value of a finite nonzero double as [num / den]. *)
Definition ratio_of (m : positive) (e : Z) : Z * Z :=
  if 0 <=? e then (Z.pos m * 2 ^ e, 1) else (Z.pos m, 2 ^ (- e)).

(** The decimal point position [p] with [10 ^ (p - 1) <= num / den < 10 ^ p]. *)
Fixpoint decpt_up (fuel : nat) (num den p : Z) : Z :=
  match fuel with
  | O => p
  | S fuel' => if num <? den * 10 ^ p then p else decpt_up fuel' num den (p + 1)
  end.

Fixpoint decpt_down (fuel : nat) (num den p : Z) : Z :=
  match fuel with
  | O => p
  | S fuel' =>
      if den <=? num * 10 ^ (1 - p) then p else decpt_down fuel' num den (p - 1)
  end.

Definition decpt_of (num den : Z) : Z :=
  if den <=? num then decpt_up 400 num den 1 else decpt_down 400 num den 0.

(** [n * 10 ^ x] as a double. *)
Definition float_of_scaled (n x : Z) : float := float_of_decimal false n x.

(** With [k] significant digits: the two [k]-digit decimals around the value,
    the nearer one first (the even one on a tie); the first that reads back as
    the double is the answer. *)
Definition shortest_at (m : positive) (e : Z) (p k : Z) : option (Z * Z) :=
  let '(num, den) := ratio_of m e in
  let x := k - p in
  let snum := if 0 <=? x then num * 10 ^ x else num in
  let sden := if 0 <=? x then den else den * 10 ^ (- x) in
  let lo := snum / sden in
  let hi := lo + 1 in
  let twice_rem := 2 * (snum mod sden) in
  let lo_first := (twice_rem <? sden) || ((twice_rem =? sden) && Z.even lo) in
  let ok n := SFeqb (float_of_scaled n (- x)) (S754_finite false m e) in
  let pick n := if n =? 10 ^ k then Some (1, p + 1) else Some (n, p) in
  if lo_first then
    if (0 <? lo) && ok lo then pick lo else if ok hi then pick hi else None
  else
    if ok hi then pick hi else if (0 <? lo) && ok lo then pick lo else None.

Fixpoint shortest_from (fuel : nat) (m : positive) (e p k : Z) : Z * Z :=
  match fuel with
  | O => (0, p)
  | S fuel' =>
      match shortest_at m e p k with
      | Some r => r
      | None => shortest_from fuel' m e p (k + 1)
      end
  end.

Fixpoint strip_zeros (fuel : nat) (n : Z) : Z :=
  match fuel with
  | O => n
  | S fuel' => if (n mod 10 =? 0) && negb (n =? 0) then strip_zeros fuel' (n / 10) else n
  end.

Definition nat_str (z : Z) : string := NilZero.string_of_uint (N.to_uint (Z.to_N z)).

Fixpoint zeros (n : nat) : string :=
  match n with
  | O => EmptyString
  | S n' => String "0" (zeros n')
  end.

(** The [repr] layout: fixed notation when [-4 < decpt <= 16], else scientific
    notation with an exponent of two digits at least. *)
Definition format_repr (digits : string) (decpt : Z) : string :=
  let n := Z.of_nat (String.length digits) in
  if (-4 <? decpt) && (decpt <=? 16) then
    if decpt <=? 0 then "0." ++ zeros (Z.to_nat (- decpt)) ++ digits
    else if n <=? decpt then digits ++ zeros (Z.to_nat (decpt - n)) ++ ".0"
    else substring 0 (Z.to_nat decpt) digits ++ "."
         ++ substring (Z.to_nat decpt) (Z.to_nat (n - decpt)) digits
  else
    let ex := decpt - 1 in
    let es := nat_str (Z.abs ex) in
    substring 0 1 digits
    ++ (if 1 <? n then "." ++ substring 1 (Z.to_nat (n - 1)) digits else "")
    ++ "e" ++ (if ex <? 0 then "-" else "+")
    ++ (if Z.abs ex <? 10 then "0" else "") ++ es.

Definition float_repr (f : float) : string :=
  match f with
  | S754_nan => "nan"
  | S754_infinity neg => if neg then "-inf" else "inf"
  | S754_zero neg => if neg then "-0.0" else "0.0"
  | S754_finite neg m e =>
      let '(num, den) := ratio_of m e in
      let '(n, decpt) := shortest_from 17 m e (decpt_of num den) 1 in
      (if neg then "-" else "") ++ format_repr (nat_str (strip_zeros 20 n)) decpt
  end.

(** ** Regular expressions

    The fragment of [re] the two patterns use, as a backtracking matcher: the
    matches of a pattern from a position are listed in the order [re] tries
    them (greedy first), and the first one is the match. *)

Inductive cls : Type :=
| CChar (c : ascii)      (* a literal character *)
| CDigit                 (* \d *)
| CNot (c : ascii).      (* [^c] *)

Inductive regex : Type :=
| Eps
| Cls (c : cls)
| Seq (r1 r2 : regex)
| Opt (r : regex)               (* r? *)
| Plus (c : cls)                (* c+ *)
| Group (n : nat) (r : regex)   (* (r), the n-th group *)
| Bol                           (* ^ *)
| Eol.                          (* $ *)

(** c{n} *)
Fixpoint rep (n : nat) (c : cls) : regex :=
  match n with
  | O => Eps
  | S n' => Seq (Cls c) (rep n' c)
  end.

Definition cls_match (c : cls) (a : ascii) : bool :=
  match c with
  | CChar x => Ascii.eqb a x
  | CDigit => is_digit a
  | CNot x => negb (Ascii.eqb a x)
  end.

Record mstate : Type := MState {
  pos : nat;                       (* characters consumed so far *)
  rest : string;                   (* what is left of the subject *)
  groups : list (nat * string)     (* groups closed so far, newest first *)
}.

Fixpoint run_plus (c : cls) (p : nat) (s : string) (g : list (nat * string))
  : list mstate :=
  match s with
  | String a s' =>
      if cls_match c a then run_plus c (S p) s' g ++ [MState (S p) s' g] else []
  | EmptyString => []
  end.

Fixpoint run (r : regex) (st : mstate) : list mstate :=
  match r with
  | Eps => [st]
  | Cls c =>
      match rest st with
      | String a s' =>
          if cls_match c a then [MState (S (pos st)) s' (groups st)] else []
      | EmptyString => []
      end
  | Seq r1 r2 => flat_map (run r2) (run r1 st)
  | Opt r1 => run r1 st ++ [st]
  | Plus c => run_plus c (pos st) (rest st) (groups st)
  | Group n r1 =>
      map (fun st' =>
             MState (pos st') (rest st')
                    ((n, substring 0 (pos st' - pos st) (rest st)) :: groups st'))
          (run r1 st)
  | Bol => if Nat.eqb (pos st) 0 then [st] else []
  | Eol =>
      match rest st with
      | EmptyString => [st]
      | String a EmptyString => if Ascii.eqb a "010" then [st] else []
      | _ => []
      end
  end.

(** [m.group(n)]: [None] when the group took no part in the match. *)
Fixpoint group (n : nat) (g : list (nat * string)) : option string :=
  match g with
  | (k, s) :: g' => if Nat.eqb k n then Some s else group n g'
  | [] => None
  end.

(** [pattern.match(s)]: at the start of [s] only. *)
Definition re_match (r : regex) (s : string) : option (list (nat * string)) :=
  option_map groups (hd_error (run r (MState 0 s []))).

(** [re.search(pattern, s)]: the first start position with a match. *)
Fixpoint search_from (r : regex) (p : nat) (s : string)
  : option (list (nat * string)) :=
  match hd_error (run r (MState p s [])) with
  | Some st => Some (groups st)
  | None =>
      match s with
      | String _ s' => search_from r (S p) s'
      | EmptyString => None
      end
  end.

Definition re_search (r : regex) (s : string) : option (list (nat * string)) :=
  search_from r 0 s.

(** ** Field classes *)

Inductive FieldClass : Type :=
| DataField
| FirstNameField
| LastNameField
| OrganizationField
| CityField
| SkillField
| PhoneField
| EmailField
| RateField.

Definition field_description (c : FieldClass) : string :=
  match c with
  | DataField => "General"
  | FirstNameField => "Name"
  | LastNameField => "Surname"
  | OrganizationField => "Organization"
  | CityField => "City"
  | SkillField => "Skill"
  | PhoneField => "Phone"
  | EmailField => "Email"
  | RateField => "Rate"
  end.

(** A field object: its class and its attributes.  The three phone attributes
    exist on a [PhoneField] only; on the other classes they stay empty and
    nothing reads them. *)
Record Field : Type := MkField {
  field_class : FieldClass;
  value : pyval;
  country_code : string;
  operator_code : string;
  phone_number : string
}.

Definition set_value (self : Field) (v : pyval) : Field :=
  MkField (field_class self) v
          (country_code self) (operator_code self) (phone_number self).

(** [r"^\+?(\d{2})?\(?(0\d{2})\)?(\d{7}$)"] *)
Definition PHONE_REGEX : regex :=
  Seq Bol
 (Seq (Opt (Cls (CChar "+")))
 (Seq (Opt (Group 1 (rep 2 CDigit)))
 (Seq (Opt (Cls (CChar "(")))
 (Seq (Group 2 (Seq (Cls (CChar "0")) (rep 2 CDigit)))
 (Seq (Opt (Cls (CChar ")")))
      (Group 3 (Seq (rep 7 CDigit) Eol))))))).

(** [r"[^@]+@[^@]+\.[^@]+"] *)
Definition EMAIL_REGEX : regex :=
  Seq (Plus (CNot "@"))
 (Seq (Cls (CChar "@"))
 (Seq (Plus (CNot "@"))
 (Seq (Cls (CChar "."))
      (Plus (CNot "@"))))).

(** [float(value)] *)
Definition py_float (v : pyval) : res float :=
  match v with
  | PFloat f => Ok f
  | PInt z => float_of_int z
  | PBool b => float_of_int (if b then 1 else 0)
  | PStr s => float_of_str s
  | PNone | PList _ | PDict _ => Raise TypeError
  end.

(** [validate]: the object after the call and the outcome.  An attribute is
    assigned only where the source assigns it, so the object that comes with
    a [Raise] shows what was written before the exception. *)
Definition validate (self : Field) (v : pyval) : Field * res unit :=
  match field_class self with
  | PhoneField =>
      match v with
      | PStr s =>
          let s := remove_char " " s in
          match re_search PHONE_REGEX s with
          | None => (self, Raise IncorrectInput)
          | Some g =>
              match group 2 g with
              | None => (self, Raise IncorrectInput)
              | Some operator =>
                  let country := match group 1 g with
                                 | Some c => c
                                 | None => "38"
                                 end in
                  (* group 3 is not optional: it is set on every match *)
                  let phone := match group 3 g with
                               | Some p => p
                               | None => "None"
                               end in
                  (MkField (field_class self)
                           (PStr ("+" ++ country ++ operator ++ phone))
                           country operator phone,
                   Ok tt)
              end
          end
      | _ => (self, Raise AttributeError)
      end
  | EmailField =>
      match v with
      | PStr s =>
          match re_match EMAIL_REGEX s with
          | None => (self, Raise IncorrectInput)
          | Some _ => (set_value self v, Ok tt)
          end
      | _ => (self, Raise TypeError)
      end
  | RateField =>
      match py_float v with
      | Ok f => (set_value self (PFloat f), Ok tt)
      | Raise ValueError => (self, Raise IncorrectInput)
      | Raise e => (self, Raise e)
      end
  | _ => (set_value self v, Ok tt)
  end.

(** [cls(value)]: [__init__] sets the attributes to their defaults and calls
    [validate]; the object exists only when that returns. *)
Definition construct (c : FieldClass) (v : pyval) : res Field :=
  let self := MkField c PNone "" "" "" in
  match validate self v with
  | (self', Ok _) => Ok self'
  | (_, Raise e) => Raise e
  end.

(** ** The two services *)

Inductive variant : Type :=
| Crm       (* src/crm.py *)
| Answer.   (* src/answer.py *)

(** Truth value of a Python object. *)
Definition py_truthy (v : pyval) : bool :=
  match v with
  | PNone => false
  | PBool b => b
  | PInt z => negb (z =? 0)
  | PFloat f => negb (feqb f fzero)
  | PStr s => negb (s =? "")%string
  | PList l => match l with [] => false | _ => true end
  | PDict d => match d with [] => false | _ => true end
  end.

(** A dict as the list of its items in insertion order; keys are unique. *)
Section Dict.
Variables (K A : Type) (eqb : K -> K -> bool).

Fixpoint dict_get (k : K) (d : list (K * A)) : option A :=
  match d with
  | (k', v) :: d' => if eqb k' k then Some v else dict_get k d'
  | [] => None
  end.

(** [d[k] = v]: an existing key keeps its place. *)
Fixpoint dict_set (k : K) (v : A) (d : list (K * A)) : list (K * A) :=
  match d with
  | (k', v') :: d' =>
      if eqb k' k then (k', v) :: d' else (k', v') :: dict_set k v d'
  | [] => [(k, v)]
  end.

Fixpoint dict_del (k : K) (d : list (K * A)) : list (K * A) :=
  match d with
  | (k', v') :: d' => if eqb k' k then d' else (k', v') :: dict_del k d'
  | [] => []
  end.

Definition dict_mem (k : K) (d : list (K * A)) : bool :=
  match dict_get k d with Some _ => true | None => false end.
End Dict.

(** [d[key]] for a string key *)
Definition getitem (d : pyval) (key : string) : res pyval :=
  match d with
  | PDict items =>
      match dict_get String.eqb key items with
      | Some v => Ok v
      | None => Raise KeyError
      end
  | _ => Raise TypeError
  end.

(** [str(value)] of the objects a field can hold as a scalar *)
Definition py_str (v : pyval) : string :=
  match v with
  | PNone => "None"
  | PBool b => if b then "True" else "False"
  | PInt z => str_of_int z
  | PFloat f => float_repr f
  | PStr s => s
  | PList _ | PDict _ => ""     (* not the value of a RateField *)
  end.

(** [item in field] for a string [item].  [DataField.__contains__] is
    [item in self.value]; [RateField] overrides it, differently in the two
    services.  The value of a [RateField] object is a float: its [validate]
    assigns nothing else. *)
Definition contains (V : variant) (self : Field) (item : string) : res bool :=
  match field_class self, V with
  | RateField, Crm =>
      match float_of_str item with
      | Ok f => Ok (match value self with PFloat x => feqb f x | _ => false end)
      | Raise ValueError | Raise TypeError => Ok false
      | Raise e => Raise e
      end
  | RateField, Answer => Ok (str_contains item (py_str (value self)))
  | _, _ =>
      match value self with
      | PStr s => Ok (str_contains item s)
      | PList l =>
          Ok (existsb (fun x => match x with
                                | PStr s => (s =? item)%string
                                | _ => false
                                end) l)
      | PDict d => Ok (dict_mem String.eqb item d)
      | PNone | PBool _ | PInt _ | PFloat _ => Raise TypeError
      end
  end.

(** [RateField.__eq__] of answer.py (crm.py has none): [field == other] is
    [float(other) == self.value], and False when [float] raises
    [ValueError] or [TypeError]. *)
Definition rate_eq (self : Field) (other : pyval) : res bool :=
  match py_float other with
  | Ok f => Ok (match value self with PFloat x => feqb f x | _ => false end)
  | Raise ValueError | Raise TypeError => Ok false
  | Raise e => Raise e
  end.

(** [to_dict] (crm.py) / [to_json] (answer.py) of a field *)
Definition field_to_dict (self : Field) : pyval :=
  PDict [("value", value self);
         ("field_name", PStr (field_description (field_class self)))].

Definition registry_of (l : list FieldClass) : list (string * FieldClass) :=
  map (fun c => (field_description c, c)) l.

Definition REGISTERED_FIELDS (V : variant) : list (string * FieldClass) :=
  match V with
  | Crm =>
      registry_of [DataField; FirstNameField; LastNameField; OrganizationField;
                   CityField; SkillField; PhoneField; EmailField; RateField]
  | Answer =>
      registry_of [FirstNameField; CityField; SkillField; PhoneField; RateField]
  end.

(** [REGISTERED_FIELDS[key]]: a list or a dict is not hashable. *)
Definition registry_lookup (V : variant) (key : pyval) : res FieldClass :=
  match key with
  | PStr name =>
      match dict_get String.eqb name (REGISTERED_FIELDS V) with
      | Some c => Ok c
      | None => Raise KeyError
      end
  | PList _ | PDict _ => Raise TypeError
  | _ => Raise KeyError
  end.

Definition field_decoder (V : variant) (field_dict : pyval) : res Field :=
  reraise KeyError FieldDecodeError
    (let* name := getitem field_dict "field_name" in
     let* field_class := registry_lookup V name in
     let* v := getitem field_dict "value" in
     construct field_class v).

(** [int(value)] *)
Definition py_int (v : pyval) : res Z :=
  match v with
  | PInt z => Ok z
  | PBool b => Ok (if b then 1 else 0)
  | PStr s => int_of_str s
  | PFloat f =>
      match f with
      | S754_nan => Raise ValueError
      | S754_infinity _ => Raise OverflowError
      | S754_zero _ => Ok 0
      | S754_finite neg m e =>
          let a := if 0 <=? e then Z.pos m * 2 ^ e else Z.pos m / 2 ^ (- e) in
          Ok (if neg then - a else a)
      end
  | PNone | PList _ | PDict _ => Raise TypeError
  end.

(** A list index as Python reads it: a negative one counts from the end. *)
Definition norm_index (len : nat) (i : Z) : res nat :=
  let j := if i <? 0 then i + Z.of_nat len else i in
  if (0 <=? j) && (j <? Z.of_nat len) then Ok (Z.to_nat j) else Raise IndexError.

Fixpoint list_set {A : Type} (l : list A) (n : nat) (x : A) : list A :=
  match l, n with
  | [], _ => []
  | _ :: l', O => x :: l'
  | a :: l', S n' => a :: list_set l' n' x
  end.

Fixpoint list_del {A : Type} (l : list A) (n : nat) : list A :=
  match l, n with
  | [], _ => []
  | _ :: l', O => l'
  | a :: l', S n' => a :: list_del l' n'
  end.

(** An integer that fits a C [Py_ssize_t] of 64 bits. *)
Definition fits_ssize (i : Z) : bool :=
  (- 2 ^ 63 <=? i) && (i <? 2 ^ 63).

(** A call that unpacks a dict into keywords for a method whose only named
    parameter is [self], the rest being collected as [search_items]: [self]
    is bound to the object already, so a keyword of that name is a
    [TypeError]; every other keyword goes to [search_items]. *)
Definition bind_keywords (search_items : list (string * string)) : res unit :=
  if existsb (fun kv => (fst kv =? "self")%string) search_items
  then Raise TypeError else Ok tt.

(** [index_error_decorator]: a [ValueError] leaves as [IncorrectInput]. *)
Definition index_error_decorator {S A : Type} (r : S * res A) : S * res A :=
  (fst r, reraise ValueError IncorrectInput (snd r)).

(** ** [Record] (crm.py) and [Developer] (answer.py) *)

Module Rec.

Record t : Type := Mk { fields : list Field }.

Definition init : t := Mk [].

(** [to_dict] in crm.py is the list of field dicts; [to_json] in answer.py
    wraps it under the key ["fields"]. *)
Definition to_dict (V : variant) (self : t) : pyval :=
  let l := PList (map field_to_dict (fields self)) in
  match V with
  | Crm => l
  | Answer => PDict [("fields", l)]
  end.

(** [add] of a field object that the record does not hold yet, as at every
    call of the two services (crm.py 179 and 387, answer.py 200 and 466,
    each on a field just constructed): [fields.index] finds it where it was
    appended.  [Obj.add] below keeps the objects apart and covers an object
    that is added again. *)
Definition add (self : t) (field_item : Field) : t * res Z :=
  (Mk (fields self ++ [field_item])%list, Ok (Z.of_nat (List.length (fields self)))).

Fixpoint from_json_loop (V : variant) (self : t) (field_list : list pyval)
  : t * res unit :=
  match field_list with
  | [] => (self, Ok tt)
  | field_dict :: field_list' =>
      match field_decoder V field_dict with
      | Raise e => (self, Raise e)
      | Ok field => from_json_loop V (fst (add self field)) field_list'
      end
  end.

(** [from_json]: an empty (falsy) field list adds nothing; iterating
    anything but a list hands [field_decoder] something it cannot index. *)
Definition from_json (V : variant) (self : t) (arg : pyval) : t * res unit :=
  match (match V with
         | Crm => Ok arg
         | Answer => getitem arg "fields"
         end) with
  | Raise e => (self, Raise e)
  | Ok field_list =>
      if py_truthy field_list then
        match field_list with
        | PList l => from_json_loop V self l
        | _ => (self, Raise TypeError)
        end
      else (self, Ok tt)
  end.

Fixpoint get_rate_fields (l : list Field) : pyval :=
  match l with
  | field :: l' =>
      if (field_description (field_class field) =? "Rate")%string
      then value field else get_rate_fields l'
  | [] => PNone
  end.

Definition get_rate (self : t) : pyval := get_rate_fields (fields self).

(** [self.fields[index] = field_item]: the index is not converted. *)
Definition replace (self : t) (index : pyval) (field_item : Field) : t * res unit :=
  index_error_decorator
    match index with
    | PInt _ | PBool _ =>
        match (let* i := py_int index in norm_index (List.length (fields self)) i) with
        | Ok n => (Mk (list_set (fields self) n field_item), Ok tt)
        | Raise e => (self, Raise e)
        end
    | _ => (self, Raise TypeError)
    end.

(** [delete]: [list.pop] takes its index as a C [Py_ssize_t] (64 bits), so
    an integer that does not fit is an [OverflowError], whatever the length
    of the list; the subscripts of [replace], [update] and [__getitem__] give
    [IndexError] there. *)
Definition delete (self : t) (idx : pyval) : t * res unit :=
  index_error_decorator
    match (let* i := py_int idx in
           if fits_ssize i then norm_index (List.length (fields self)) i
           else Raise OverflowError) with
    | Ok n => (Mk (list_del (fields self) n), Ok tt)
    | Raise e => (self, Raise e)
    end.

(** [update]: the field at the index validates the new value in place. *)
Definition update (self : t) (field_idx : pyval) (v : pyval) : t * res unit :=
  index_error_decorator
    match (let* i := py_int field_idx in norm_index (List.length (fields self)) i) with
    | Raise e => (self, Raise e)
    | Ok n =>
        match nth_error (fields self) n with
        | None => (self, Raise IndexError)
        | Some field =>
            let '(field', r) := validate field v in
            (Mk (list_set (fields self) n field'), r)
        end
    end.

Fixpoint field_search_fields (V : variant) (l : list Field)
         (field_name search_value : string) : res bool :=
  match l with
  | field :: l' =>
      if (field_description (field_class field) =? field_name)%string
      then contains V field search_value
      else field_search_fields V l' field_name search_value
  | [] => Ok false
  end.

Definition field_search (V : variant) (self : t)
           (field_name search_value : string) : res bool :=
  field_search_fields V (fields self) field_name search_value.

(** The loop of [multiple_search] over the items of the keyword dict, in
    order. *)
Fixpoint multiple_search_loop (V : variant) (self : t)
         (search_items : list (string * string)) : res bool :=
  match search_items with
  | (field_name, search_value) :: rest =>
      let* current_search := field_search V self field_name search_value in
      if current_search then multiple_search_loop V self rest else Ok false
  | [] => Ok true
  end.

(** [multiple_search], called with the criteria as keywords. *)
Definition multiple_search (V : variant) (self : t)
           (search_items : list (string * string)) : res bool :=
  let* _ := bind_keywords search_items in
  multiple_search_loop V self search_items.

Fixpoint contains_fields (V : variant) (l : list Field) (item : string) : res bool :=
  match l with
  | field :: l' =>
      let* b := contains V field item in
      if b then Ok true else contains_fields V l' item
  | [] => Ok false
  end.

(** [item in record] *)
Definition contains_text (V : variant) (self : t) (item : string) : res bool :=
  contains_fields V (fields self) item.

(** [len(record)] *)
Definition len (self : t) : Z := Z.of_nat (List.length (fields self)).

(** [record[key]]: the key is used as it is, so a string is a [TypeError]. *)
Definition getitem (self : t) (key : pyval) : res Field :=
  match key with
  | PInt _ | PBool _ =>
      let* i := py_int key in
      let* n := norm_index (List.length (fields self)) i in
      match nth_error (fields self) n with
      | Some field => Ok field
      | None => Raise IndexError
      end
  | _ => Raise TypeError
  end.

(** The values of the fields of one kind, in order. *)
Definition values_of (field_name : string) (self : t) : list pyval :=
  map value
      (filter (fun field => (field_description (field_class field) =? field_name)%string)
              (fields self)).

(** [sep.join(items)]: every item has to be a string. *)
Fixpoint str_join (sep : string) (items : list pyval) : res string :=
  match items with
  | [] => Ok EmptyString
  | [PStr s] => Ok s
  | PStr s :: items' =>
      let* t := str_join sep items' in Ok (s ++ sep ++ t)%string
  | _ => Raise TypeError
  end.

(** [sep.join(items) if items else ""] *)
Definition join_or_empty (sep : string) (items : list pyval) : res string :=
  match items with
  | [] => Ok EmptyString
  | _ => str_join sep items
  end.

(** [get_phone] (answer.py) *)
Definition get_phone (self : t) : res string :=
  join_or_empty "; " (values_of "Phone" self).

(** [get_skills] (answer.py) *)
Definition get_skills (self : t) : res string :=
  join_or_empty "; " (values_of "Skill" self).

(** [name] (answer.py) *)
Definition name (self : t) : res string :=
  let* name := join_or_empty " " (values_of "Name" self) in
  let* surname := join_or_empty " " (values_of "Surname" self) in
  let result := (name ++ " " ++ surname)%string in
  Ok (if (result =? " ")%string then "No name" else result).

Fixpoint get_city_fields (l : list Field) : pyval :=
  match l with
  | field :: l' =>
      if (field_description (field_class field) =? "City")%string
      then value field else get_city_fields l'
  | [] => PStr EmptyString
  end.

(** [get_city] (answer.py) *)
Definition get_city (self : t) : pyval := get_city_fields (fields self).

End Rec.

(** ** Records of field objects

    [Rec.t] lists the states of the fields of a record, which is the whole
    record as long as its fields are distinct objects.  Two methods depend
    on which object is which: [add] returns [fields.index(field_item)], and
    [update] changes an object in place.  For them the objects are kept
    apart here: a heap gives the state of the field object at each address,
    and a record lists the addresses of its fields. *)

Module Obj.

Definition heap : Type := nat -> Field.

Record t : Type := Mk { fields : list nat }.

(** The states of the fields, in order. *)
Definition states (h : heap) (self : t) : Rec.t := Rec.Mk (map h (fields self)).

(** [len(record)] *)
Definition len (self : t) : Z := Z.of_nat (List.length (fields self)).

(** [l.index(x)] on a list of field objects: the first position that holds
    the object itself.  Two distinct field objects are never equal: crm.py
    defines no [__eq__], and [RateField.__eq__] of answer.py is False on a
    field object, whose [float] is a [TypeError]. *)
Fixpoint index (x : nat) (l : list nat) : res Z :=
  match l with
  | [] => Raise ValueError
  | y :: l' =>
      if Nat.eqb y x then Ok 0
      else let* i := index x l' in Ok (i + 1)
  end.

(** [add] *)
Definition add (self : t) (field_item : nat) : t * res Z :=
  let self' := Mk (fields self ++ [field_item])%list in
  (self', index field_item (fields self')).

(** [update]: the object at the index validates the new value in place. *)
Definition update (h : heap) (self : t) (field_idx : pyval) (v : pyval)
  : heap * res unit :=
  index_error_decorator
    match (let* i := py_int field_idx in norm_index (List.length (fields self)) i) with
    | Raise e => (h, Raise e)
    | Ok n =>
        match nth_error (fields self) n with
        | None => (h, Raise IndexError)
        | Some a =>
            let '(field', r) := validate (h a) v in
            (fun b => if Nat.eqb b a then field' else h b, r)
        end
    end.

End Obj.

(** ** JSON texts *)

(** A text is the document it denotes, or not JSON at all. *)
Inductive json_text : Type :=
| JText (doc : pyval)
| NotJson.

Definition json_dumps (doc : pyval) : json_text := JText doc.

Definition json_loads (t : json_text) : res pyval :=
  match t with
  | JText doc => Ok doc
  | NotJson => Raise ValueError     (* json.JSONDecodeError *)
  end.

(** ** [AddressBook] *)

Module AddressBook.

(** [records] / [developers] and [last_record_id] / [last_developer_id] *)
Record t : Type := Mk {
  records : list (Z * Rec.t);
  last_record_id : Z
}.

Definition init : t := Mk [] 0.

Definition keys (self : t) : list Z := map fst (records self).

(** [dumps]: [json.dumps] writes an int key as its decimal text. *)
Definition dumps (V : variant) (self : t) : json_text :=
  json_dumps
    (PDict (map (fun '(rec_id, rec) => (str_of_int rec_id, Rec.to_dict V rec))
                (records self))).

Definition add (self : t) (record : Rec.t) : t * res Z :=
  (Mk (dict_set Z.eqb (last_record_id self) record (records self))
      (last_record_id self + 1),
   Ok (last_record_id self)).

Definition replace (self : t) (record_id : Z) (record : Rec.t) : t * res unit :=
  if dict_mem Z.eqb record_id (records self)
  then (Mk (dict_set Z.eqb record_id record (records self)) (last_record_id self),
        Ok tt)
  else (self, Raise KeyError).

Definition delete (self : t) (record_id : pyval) : t * res unit :=
  index_error_decorator
    match py_int record_id with
    | Raise e => (self, Raise e)
    | Ok key =>
        if dict_mem Z.eqb key (records self)
        then (Mk (dict_del Z.eqb key (records self)) (last_record_id self), Ok tt)
        else (self, Raise KeyError)
    end.

(** answer.py only *)
Definition clear (self : t) : t * res unit := (Mk [] 0, Ok tt).

(** The loop of [loads] in crm.py: the record is decoded, then its key is
    converted, then it is stored. *)
Fixpoint loads_loop_crm (items : list (string * pyval)) (recs : list (Z * Rec.t))
  : list (Z * Rec.t) * res unit :=
  match items with
  | [] => (recs, Ok tt)
  | (record_id, record_list) :: items' =>
      match Rec.from_json Crm Rec.init record_list with
      | (_, Raise e) => (recs, Raise e)
      | (record, Ok _) =>
          match int_of_str record_id with
          | Raise e => (recs, Raise e)
          | Ok key => loads_loop_crm items' (dict_set Z.eqb key record recs)
          end
      end
  end.

(** [max] of a non-empty list *)
Definition list_max (x : Z) (l : list Z) : Z := fold_left Z.max l x.

(** [loads] of crm.py: the argument is the decoded request body. *)
Definition loads_crm (self : t) (json_records : pyval) : t * res unit :=
  match json_records with
  | PDict items =>
      match loads_loop_crm items [] with
      | (recs, Raise e) => (Mk recs (last_record_id self), Raise e)
      | (recs, Ok _) =>
          match map fst recs with
          | [] => (Mk recs (last_record_id self), Raise ValueError)
          | k :: ks => (Mk recs (list_max k ks + 1), Ok tt)
          end
      end
  | _ => (Mk [] (last_record_id self), Raise AttributeError)
  end.

Fixpoint loads_loop_answer (items : list (string * pyval)) (self : t)
  : t * res unit :=
  match items with
  | [] => (self, Ok tt)
  | (_, developer_list) :: items' =>
      match Rec.from_json Answer Rec.init developer_list with
      | (_, Raise e) => (self, Raise e)
      | (developer, Ok _) => loads_loop_answer items' (fst (add self developer))
      end
  end.

(** [loads] of answer.py: the argument is the text. *)
Definition loads_answer (self : t) (bytes_developers : json_text) : t * res unit :=
  let self := Mk [] 0 in
  match json_loads bytes_developers with
  | Raise e => (self, Raise e)
  | Ok (PDict items) => loads_loop_answer items self
  | Ok _ => (self, Raise AttributeError)
  end.

(** Bulk load from a text, as each service receives it: crm.py is handed
    [request.json], answer.py decodes the text itself. *)
Definition loads (V : variant) (self : t) (text : json_text) : t * res unit :=
  match V with
  | Crm =>
      match json_loads text with
      | Ok json_records => loads_crm self json_records
      | Raise e => (self, Raise e)
      end
  | Answer => loads_answer self text
  end.

(** The loop shared by [str_search] and [multiple_search]: the records
    that pass the test, keyed as in the book. *)
Fixpoint select (test : Rec.t -> res bool) (items result : list (Z * Rec.t))
  : res (list (Z * Rec.t)) :=
  match items with
  | [] => Ok result
  | (record_id, record) :: items' =>
      let* b := test record in
      select test items' (if b then dict_set Z.eqb record_id record result
                          else result)
  end.

Definition str_search (V : variant) (self : t) (search_str : string)
  : res (list (Z * Rec.t)) :=
  select (fun record => Rec.contains_text V record search_str) (records self) [].

(** [multiple_search], called with the criteria as keywords, hands them on
    as keywords to every record. *)
Definition multiple_search (V : variant) (self : t)
           (search_items : list (string * string)) : res (list (Z * Rec.t)) :=
  let* _ := bind_keywords search_items in
  select (fun record => Rec.multiple_search V record search_items)
         (records self) [].

(** [book[key]] *)
Definition getitem (self : t) (key : Z) : res Rec.t :=
  match dict_get Z.eqb key (records self) with
  | Some record => Ok record
  | None => Raise KeyError
  end.

End AddressBook.

(** ** [get_rate_stat] *)

(** The floats of a list of rates (every rate is one). *)
Fixpoint floats_of (l : list pyval) : list float :=
  match l with
  | PFloat f :: l' => f :: floats_of l'
  | _ :: l' => floats_of l'
  | [] => []
  end.

(** [min]: a later item replaces the current one when it is smaller.  (The
    list is not empty where [get_rate_stat] asks.) *)
Definition float_min (l : list float) : float :=
  match l with
  | x :: l' => fold_left (fun cur y => if fltb y cur then y else cur) l' x
  | [] => S754_nan
  end.

Definition float_max (l : list float) : float :=
  match l with
  | x :: l' => fold_left (fun cur y => if fltb cur y then y else cur) l' x
  | [] => S754_nan
  end.

(** [sum]: left to right in double arithmetic, from 0. *)
Definition float_sum (l : list float) : float := fold_left fadd l fzero.

Definition is_finite (f : float) : bool :=
  match f with
  | S754_zero _ | S754_finite _ _ _ => true
  | _ => false
  end.

(** A finite double as [m * 2 ^ e]. *)
Definition exact_of (f : float) : Z * Z :=
  match f with
  | S754_finite neg m e => (cond_Zopp neg (Z.pos m), e)
  | _ => (0, 0)
  end.

Definition exact_add (a b : Z * Z) : Z * Z :=
  let e := Z.min (snd a) (snd b) in
  (fst a * 2 ^ (snd a - e) + fst b * 2 ^ (snd b - e), e).

(** [statistics.mean]: the exact sum divided by the count, rounded once; with
    an infinity or a NaN among the data, their float sum. *)
Definition float_mean (l : list float) : float :=
  if forallb is_finite l then
    let '(m, e) := fold_left exact_add (map exact_of l) (0, 0) in
    let n := Z.of_nat (List.length l) in
    if m =? 0 then fzero
    else if 0 <=? e then round_ratio (m <? 0) (Z.abs m * 2 ^ e) n
    else round_ratio (m <? 0) (Z.abs m) (n * 2 ^ (- e))
  else float_sum (filter (fun f => negb (is_finite f)) l).

(** [stat.update(d)] *)
Definition dict_update {A : Type} (stat d : list (string * A)) : list (string * A) :=
  fold_left (fun acc kv => dict_set String.eqb (fst kv) (snd kv) acc) d stat.

Definition empty_stat (V : variant) : list (string * pyval) :=
  [("mean", PNone); ("min", PNone); ("max", PNone); ("item_number", PInt 0)]
  ++ match V with
     | Crm => []
     | Answer => [("total", PInt 0)]
     end.

(** The rates that count: the truthy results of [get_rate]. *)
Definition collect_rates (records : list Rec.t) : list pyval :=
  filter py_truthy (map Rec.get_rate records).

Definition get_rate_stat (V : variant) (records : list Rec.t) : list (string * pyval) :=
  let rates := collect_rates records in
  let stat := empty_stat V in
  match rates with
  | [] => stat
  | _ :: _ =>
      dict_update stat
        ([("mean", PFloat (float_mean (floats_of rates)));
          ("min", PFloat (float_min (floats_of rates)));
          ("max", PFloat (float_max (floats_of rates)));
          ("item_number", PInt (Z.of_nat (List.length rates)))]
         ++ match V with
            | Crm => []
            | Answer => [("total", PFloat (float_sum (floats_of rates)))]
            end)
  end.

(** A record that [get_rate_stat] passes over: it has no Rate field, or the
    rate it reports is a zero. *)
Definition lacks_rate (r : Rec.t) : Prop :=
  Forall (fun f => field_class f <> RateField) (Rec.fields r).

Definition zero_rate (r : Rec.t) : Prop :=
  exists sign, Rec.get_rate r = PFloat (S754_zero sign).

Definition skipped (r : Rec.t) : Prop := lacks_rate r \/ zero_rate r.

(** ** Histories of an address book *)

(** The requests that change a book.  [OpClear] exists in answer.py only. *)
Inductive op : Type :=
| OpAdd (record : Rec.t)
| OpReplace (record_id : Z) (record : Rec.t)
| OpDelete (record_id : pyval)
| OpClear
| OpLoads (text : json_text).

(** One request: the book after it and the id it handed out, if any.  A
    request that raises leaves the book as the method left it. *)
Definition step (V : variant) (o : op) (book : AddressBook.t)
  : AddressBook.t * list Z :=
  match o with
  | OpAdd record =>
      match AddressBook.add book record with
      | (book', Ok record_id) => (book', [record_id])
      | (book', Raise _) => (book', [])
      end
  | OpReplace record_id record => (fst (AddressBook.replace book record_id record), [])
  | OpDelete record_id => (fst (AddressBook.delete book record_id), [])
  | OpClear =>
      match V with
      | Answer => (fst (AddressBook.clear book), [])
      | Crm => (book, [])          (* crm.py has no such request *)
      end
  | OpLoads text => (fst (AddressBook.loads V book text), [])
  end.

(** A history: the final book and the ids handed out by [add], oldest
    first. *)
Fixpoint replay (V : variant) (ops : list op) (book : AddressBook.t) (issued : list Z)
  : AddressBook.t * list Z :=
  match ops with
  | [] => (book, issued)
  | o :: ops' =>
      let '(book', ids) := step V o book in
      replay V ops' book' (issued ++ ids)%list
  end.

(** add, replace and delete: the requests that neither clear nor load *)
Definition plain (o : op) : Prop :=
  match o with
  | OpAdd _ | OpReplace _ _ | OpDelete _ => True
  | OpClear | OpLoads _ => False
  end.

(** Every id in the book is below the next id. *)
Definition below (book : AddressBook.t) : Prop :=
  forall k, In k (AddressBook.keys book) -> k < AddressBook.last_record_id book.

(** 0, 1, ..., n - 1 *)
Definition first_ids (n : nat) : list Z := map Z.of_nat (seq 0 n).

(** The ids are 0, 1, ..., n - 1 in this order and the next id is n. *)
Definition renumbered (book : AddressBook.t) : Prop :=
  AddressBook.keys book = first_ids (List.length (AddressBook.records book))
  /\ AddressBook.last_record_id book
     = Z.of_nat (List.length (AddressBook.records book)).

(** ** The phone pattern in words *)

Definition optional (present : bool) (w : string) : string :=
  if present then w else EmptyString.

Definition is_digits (n : nat) (w : string) : Prop :=
  String.length w = n /\ all_chars is_digit w = true.

(** What the pattern admits: an optional [+], an optional country code of
    two digits, the operator code ([0] and two digits) in optional
    parentheses, seven digits, and then the end of the text or one last line
    feed. *)
Definition phone_shape (s : string) (country : option string)
           (operator phone : string) : Prop :=
  match country with Some c => is_digits 2 c | None => True end
  /\ (exists d, operator = String "0" d /\ is_digits 2 d)
  /\ is_digits 7 phone
  /\ exists plus lp rp nl : bool,
      s = optional plus "+"
          ++ match country with Some c => c | None => EmptyString end
          ++ optional lp "(" ++ operator ++ optional rp ")"
          ++ phone ++ optional nl (String "010" EmptyString).

(** The first match of a pattern from a state. *)
Definition first_match (r : regex) (st : mstate) : option mstate :=
  hd_error (run r st).

(** As the specification words the first step of phone validation: every
    white-space character is dropped (the code drops the space character
    only, see [validate]). *)
Fixpoint strip_all_whitespace (s : string) : string :=
  match s with
  | String c s' =>
      if is_space c then strip_all_whitespace s' else String c (strip_all_whitespace s')
  | EmptyString => EmptyString
  end.

Fixpoint count_digits (s : string) : nat :=
  match s with
  | String c s' => ((if is_digit c then 1 else 0) + count_digits s')%nat
  | EmptyString => O
  end.

(** A text with everything the pattern asks for except the operator code. *)
Definition lacks_operator (s : string) : Prop :=
  exists (plus lp rp nl : bool) (country : option string) (phone : string),
    match country with Some c => is_digits 2 c | None => True end
    /\ is_digits 7 phone
    /\ s = optional plus "+"
           ++ match country with Some c => c | None => EmptyString end
           ++ optional lp "(" ++ optional rp ")"
           ++ phone ++ optional nl (String "010" EmptyString).

(** ** Books built from valid fields *)

(** The class is in the service's registry, under its own description. *)
Definition registered (V : variant) (c : FieldClass) : Prop :=
  dict_get String.eqb (field_description c) (REGISTERED_FIELDS V) = Some c.

(** The field object is what a successful constructor call returns. *)
Definition constructed (f : Field) : Prop :=
  exists v, construct (field_class f) v = Ok f.

Definition field_valid (V : variant) (f : Field) : Prop :=
  registered V (field_class f) /\ constructed f.

(** A book made from the empty one by [add], each record holding valid
    fields only. *)
Inductive built (V : variant) : AddressBook.t -> Prop :=
| built_init : built V AddressBook.init
| built_add (book : AddressBook.t) (record : Rec.t) :
    built V book ->
    Forall (field_valid V) (Rec.fields record) ->
    built V (fst (AddressBook.add book record)).

(** The items [dumps] writes for the records of a book. *)
Definition dump_items (V : variant) (recs : list (Z * Rec.t)) : list (string * pyval) :=
  map (fun '(rec_id, rec) => (str_of_int rec_id, Rec.to_dict V rec)) recs.

Definition records_valid (V : variant) (recs : list (Z * Rec.t)) : Prop :=
  Forall (fun kr => Forall (field_valid V) (Rec.fields (snd kr))) recs.

(** ** The e-mail pattern in words *)

Definition no_at (w : string) : Prop :=
  w <> EmptyString /\ all_chars (cls_match (CNot "@")) w = true.

(** What the pattern admits at the start of the text: a part without [@],
    an [@], a part without [@], a dot and a part without [@]; each part has
    a character at least and anything may follow. *)
Definition email_shape (s : string) : Prop :=
  exists a b c t : string,
    no_at a /\ no_at b /\ no_at c
    /\ s = (a ++ "@" ++ b ++ "." ++ c ++ t)%string.

(** [f] is the class of an always-accepting kind: General, Name, Surname,
    Organization, City, Skill. *)
Definition plain_class (c : FieldClass) : bool :=
  match c with
  | PhoneField | EmailField | RateField => false
  | _ => true
  end.

(** The test answered [True]. *)
Definition holds (r : res bool) : bool :=
  match r with
  | Ok true => true
  | _ => false
  end.

(** The test did not raise. *)
Definition answers (r : res bool) : Prop := exists b, r = Ok b.

(** The document of a record whose field dicts are [l], as each service
    writes it ([to_dict] in crm.py, [to_json] in answer.py). *)
Definition record_doc (V : variant) (l : list pyval) : pyval :=
  match V with
  | Crm => PList l
  | Answer => PDict [("fields", PList l)]
  end.

(** * Properties *)

(** ** Decoding *)

Lemma getitem_dict (d : list (string * pyval)) (k : string) (v : pyval) :
  dict_get String.eqb k d = Some v -> getitem (PDict d) k = Ok v.
Proof. intros H. unfold getitem. now rewrite H. Qed.

(** C10. In crm.py the base class is registered under its description
    "General": a field dict naming it decodes, whatever the value, to a
    [DataField] object holding that very value; no check is applied. *)
Theorem general_field_decodes_verbatim (d : list (string * pyval)) (v : pyval) :
  dict_get String.eqb "field_name" d = Some (PStr "General") ->
  dict_get String.eqb "value" d = Some v ->
  field_decoder Crm (PDict d) = Ok (MkField DataField v "" "" "")
  /\ dict_get String.eqb "General" (REGISTERED_FIELDS Crm) = Some DataField.
Proof.
  intros Hn Hv. split; [|reflexivity].
  unfold field_decoder.
  rewrite (getitem_dict _ _ Hn), (getitem_dict _ _ Hv).
  reflexivity.
Qed.

Lemma general_field_decodes_verbatim_witness :
  field_decoder Crm (PDict [("field_name", PStr "General"); ("value", PList [PInt 7; PNone])])
  = Ok (MkField DataField (PList [PInt 7; PNone]) "" "" "")
  /\ dict_get String.eqb "General" (REGISTERED_FIELDS Crm) = Some DataField.
Proof.
  apply (@general_field_decodes_verbatim
           [("field_name", PStr "General"); ("value", PList [PInt 7; PNone])]
           (PList [PInt 7; PNone])); reflexivity.
Defined.

(** answer.py does not register the base class. *)
Lemma general_field_not_in_answer (v : pyval) :
  field_decoder Answer (PDict [("field_name", PStr "General"); ("value", v)])
  = Raise FieldDecodeError.
Proof. reflexivity. Qed.

(** ** Validation is all or nothing *)

Lemma validate_atomic (self self' : Field) (v : pyval) (e : exn) :
  validate self v = (self', Raise e) -> self' = self.
Proof.
  unfold validate.
  destruct (field_class self); try discriminate.
  - destruct v; try (now inversion 1).
    destruct (re_search PHONE_REGEX _) as [g|]; [|now inversion 1].
    destruct (group 2 g); [discriminate|now inversion 1].
  - destruct v; try (now inversion 1).
    destruct (re_match EMAIL_REGEX s); [discriminate|now inversion 1].
  - destruct (py_float v) as [f|[]]; try discriminate; now inversion 1.
Qed.

Lemma list_set_nth {A : Type} (l : list A) (n : nat) (x : A) :
  nth_error l n = Some x -> list_set l n x = l.
Proof.
  revert n; induction l as [|a l IH]; intros [|n] H; simpl in *;
    try discriminate; [now inversion H|now rewrite IH].
Qed.

(** C9. [update] changes nothing when it raises: whatever the record, the
    index and the new value, if the call ends in an exception (the
    [IncorrectInput] of a failed re-validation among them) the record, and so
    the field with its value and every other attribute, is as it was before;
    each validator assigns only after its checks have passed. *)
Theorem update_is_atomic (self self' : Rec.t) (field_idx v : pyval) (e : exn) :
  Rec.update self field_idx v = (self', Raise e) -> self' = self.
Proof.
  unfold Rec.update, index_error_decorator.
  destruct (let* i := py_int field_idx in norm_index _ i) as [n|e0]; simpl.
  - destruct (nth_error (Rec.fields self) n) as [field|] eqn:Hn; simpl.
    + destruct (validate field v) as [field' r] eqn:Hv; simpl.
      destruct r as [u|e1]; simpl; [discriminate|].
      apply validate_atomic in Hv; subst field'.
      rewrite (list_set_nth _ _ Hn). destruct self; simpl.
      destruct e1; now inversion 1.
    + now inversion 1.
  - destruct e0; now inversion 1.
Qed.

Lemma update_is_atomic_witness :
  let r := Rec.Mk [MkField PhoneField (PStr "+380501234567") "38" "050" "1234567"] in
  snd (Rec.update r (PInt 0) (PStr "123")) = Raise IncorrectInput
  /\ fst (Rec.update r (PInt 0) (PStr "123")) = r.
Proof.
  intros r. split; [vm_compute; reflexivity|].
  apply (@update_is_atomic r _ (PInt 0) (PStr "123") IncorrectInput).
  vm_compute; reflexivity.
Defined.

(** ** Searching a record *)

Lemma field_search_no_field (V : variant) (self : Rec.t) (field_name item : string) :
  Forall (fun f => field_description (field_class f) <> field_name) (Rec.fields self) ->
  Rec.field_search V self field_name item = Ok false.
Proof.
  unfold Rec.field_search. induction 1 as [|f l Hf _ IH]; simpl; [reflexivity|].
  apply String.eqb_neq in Hf. now rewrite Hf.
Qed.

(** What [field_search] computes: the answer of the first field of the
    kind, whatever comes after it. *)
Lemma field_search_first_of_kind (V : variant) (before after : list Field)
      (f : Field) (field_name item : string) :
  Forall (fun f => field_description (field_class f) <> field_name) before ->
  field_description (field_class f) = field_name ->
  Rec.field_search V (Rec.Mk (before ++ f :: after)) field_name item
  = contains V f item.
Proof.
  unfold Rec.field_search; simpl.
  induction 1 as [|g l Hg _ IH]; intros Hf; simpl.
  - apply String.eqb_eq in Hf. now rewrite Hf.
  - apply String.eqb_neq in Hg. rewrite Hg. now apply IH.
Qed.

(** C3. A record with the skills "python" and "rust": searching the kind
    "Skill" for "rust" answers false in both services, although the second
    field is of that kind and contains the probe. [field_search] returns from
    inside its loop at the first field of the kind. *)
Theorem field_search_misses_later_field (V : variant) :
  let python := MkField SkillField (PStr "python") "" "" "" in
  let rust := MkField SkillField (PStr "rust") "" "" "" in
  Rec.field_search V (Rec.Mk [python; rust]) "Skill" "rust" = Ok false
  /\ field_description (field_class rust) = "Skill"
  /\ contains V rust "rust" = Ok true
  /\ Rec.contains_text V (Rec.Mk [python; rust]) "rust" = Ok true.
Proof. destruct V; repeat split. Qed.

Lemma multiple_search_loop_true_iff (V : variant) (self : Rec.t)
      (search_items : list (string * string)) :
  Rec.multiple_search_loop V self search_items = Ok true <->
  Forall (fun kv => Rec.field_search V self (fst kv) (snd kv) = Ok true) search_items.
Proof.
  induction search_items as [|[k p] items IH]; simpl.
  - split; [constructor|reflexivity].
  - destruct (Rec.field_search V self k p) as [[|]|e] eqn:Hs; simpl.
    + rewrite IH. split; [now constructor|now inversion 1].
    + split; [discriminate|]. inversion 1; subst; simpl in *; congruence.
    + split; [discriminate|]. inversion 1; subst; simpl in *; congruence.
Qed.

(** No kind is called "self". *)
Lemma field_search_self (V : variant) (self : Rec.t) (probe : string) :
  Rec.field_search V self "self" probe = Ok false.
Proof.
  apply field_search_no_field. apply Forall_forall. intros f _.
  destruct (field_class f); discriminate.
Qed.

Lemma bind_keywords_self (search_items : list (string * string)) :
  bind_keywords search_items = Raise TypeError <-> In "self" (map fst search_items).
Proof.
  unfold bind_keywords.
  destruct (existsb _ search_items) eqn:E.
  - split; [intros _|reflexivity].
    apply existsb_exists in E. destruct E as ([k p] & Hin & Hk).
    apply String.eqb_eq in Hk. simpl in Hk. subst k.
    apply in_map_iff. now exists ("self", p).
  - split; [discriminate|]. intros H. apply in_map_iff in H.
    destruct H as ([k p] & Hk & Hin). simpl in Hk. subst k.
    assert (E' : existsb (fun kv => (fst kv =? "self")%string) search_items = true).
    { apply existsb_exists. exists ("self", p). now split. }
    congruence.
Qed.

Lemma bind_keywords_ok (search_items : list (string * string)) :
  ~ In "self" (map fst search_items) -> bind_keywords search_items = Ok tt.
Proof.
  intros H. pose proof (bind_keywords_self search_items) as B.
  unfold bind_keywords in *.
  destruct (existsb _ search_items); [|reflexivity].
  elim H. now apply B.
Qed.

Lemma multiple_search_true_iff (V : variant) (self : Rec.t)
      (search_items : list (string * string)) :
  Rec.multiple_search V self search_items = Ok true <->
  Forall (fun kv => Rec.field_search V self (fst kv) (snd kv) = Ok true) search_items.
Proof.
  unfold Rec.multiple_search.
  destruct (bind_keywords search_items) as [[]|e] eqn:B; cbn [bind].
  - apply multiple_search_loop_true_iff.
  - split; [discriminate|]. intros H.
    assert (B' : bind_keywords search_items = Raise TypeError).
    { unfold bind_keywords in *. destruct (existsb _ search_items); congruence. }
    apply bind_keywords_self, in_map_iff in B'.
    destruct B' as ([k p] & Hk & Hin). simpl in Hk. subst k.
    rewrite Forall_forall in H. specialize (H _ Hin). simpl in H.
    rewrite field_search_self in H. discriminate.
Qed.

Lemma dict_set_fresh {A : Type} (k : Z) (v : A) (d : list (Z * A)) :
  ~ In k (map fst d) -> dict_set Z.eqb k v d = (d ++ [(k, v)])%list.
Proof.
  induction d as [|[k' v'] d IH]; simpl; intros H; [reflexivity|].
  destruct (Z.eqb_spec k' k) as [->|_]; [tauto|].
  rewrite IH; tauto.
Qed.

Lemma select_all (test : Rec.t -> res bool) (items result : list (Z * Rec.t)) :
  (forall r, test r = Ok true) ->
  NoDup (map fst (result ++ items)%list) ->
  AddressBook.select test items result = Ok (result ++ items)%list.
Proof.
  intros Ht. revert result.
  induction items as [|[k r] items IH]; intros result Hnd; simpl.
  - now rewrite app_nil_r.
  - rewrite Ht; simpl.
    assert (Hfresh : ~ In k (map fst result)).
    { rewrite map_app in Hnd; simpl in Hnd.
      apply NoDup_remove_2 in Hnd. rewrite in_app_iff in Hnd. tauto. }
    rewrite (dict_set_fresh _ _ _ Hfresh), IH, <- app_assoc; [reflexivity|].
    now rewrite <- app_assoc.
Qed.

(** C8. [multiple_search] on a record answers true exactly when
    [field_search] answers true for every (kind, probe) item of the criteria;
    with no criteria it answers true, and the address book's
    [multiple_search] with no criteria returns every record under its id. *)
Theorem multiple_search_is_conjunction (V : variant) (book : AddressBook.t) :
  NoDup (AddressBook.keys book) ->
  (forall (self : Rec.t) (search_items : list (string * string)),
      Rec.multiple_search V self search_items = Ok true <->
      forall kind probe, In (kind, probe) search_items ->
                         Rec.field_search V self kind probe = Ok true)
  /\ (forall self : Rec.t, Rec.multiple_search V self [] = Ok true)
  /\ AddressBook.multiple_search V book [] = Ok (AddressBook.records book).
Proof.
  intros Hnd. split; [|split].
  - intros self items. rewrite multiple_search_true_iff, Forall_forall.
    split.
    + intros H kind probe Hin. exact (H (kind, probe) Hin).
    + intros H [kind probe] Hin. now apply H.
  - reflexivity.
  - unfold AddressBook.multiple_search. cbn [bind_keywords existsb bind].
    now rewrite select_all.
Qed.

Lemma multiple_search_is_conjunction_witness :
  let ada := Rec.Mk [MkField FirstNameField (PStr "Ada") "" "" ""] in
  let bob := Rec.Mk [MkField FirstNameField (PStr "Bob") "" "" ""] in
  AddressBook.multiple_search Crm (AddressBook.Mk [(0, ada); (1, bob)] 2) []
  = Ok [(0, ada); (1, bob)].
Proof.
  intros ada bob.
  refine (proj2 (proj2 (@multiple_search_is_conjunction
                          Crm (AddressBook.Mk [(0, ada); (1, bob)] 2) _))).
  repeat constructor; simpl; intuition discriminate.
Defined.

(** ** Rate statistics *)

Lemma lacks_rate_get_rate (r : Rec.t) : lacks_rate r -> Rec.get_rate r = PNone.
Proof.
  unfold lacks_rate, Rec.get_rate.
  induction 1 as [|f l Hf _ IH]; simpl; [reflexivity|].
  destruct (field_class f); simpl; try exact IH. now elim Hf.
Qed.

Lemma skipped_not_truthy (r : Rec.t) :
  skipped r -> py_truthy (Rec.get_rate r) = false.
Proof.
  intros [H|[sign H]].
  - now rewrite (lacks_rate_get_rate H).
  - rewrite H. now destruct sign.
Qed.

Lemma collect_rates_skip (rs1 rs2 : list Rec.t) (r : Rec.t) :
  skipped r -> collect_rates (rs1 ++ r :: rs2) = collect_rates (rs1 ++ rs2).
Proof.
  intros H. unfold collect_rates.
  rewrite !map_app, !filter_app. simpl.
  now rewrite (skipped_not_truthy H).
Qed.

Lemma collect_rates_none (rs : list Rec.t) :
  Forall skipped rs -> collect_rates rs = [].
Proof.
  unfold collect_rates. induction 1 as [|r l Hr _ IH]; simpl; [reflexivity|].
  now rewrite (skipped_not_truthy Hr).
Qed.

(** C2. [get_rate_stat] passes over a record without a Rate field and over a
    record whose rate is zero: leaving such a record out of the collection
    does not change the result.  When every record is passed over, the
    result is the initial one: mean, min and max are [None], [item_number]
    is 0 and, in answer.py (crm.py has no such key), [total] is 0. *)
Theorem rate_stat_skips_absent_and_zero (V : variant) :
  (forall (rs1 rs2 : list Rec.t) (r : Rec.t),
      skipped r ->
      get_rate_stat V (rs1 ++ r :: rs2) = get_rate_stat V (rs1 ++ rs2))
  /\ (forall rs : list Rec.t,
         Forall skipped rs ->
         get_rate_stat V rs = empty_stat V
         /\ dict_get String.eqb "mean" (get_rate_stat V rs) = Some PNone
         /\ dict_get String.eqb "min" (get_rate_stat V rs) = Some PNone
         /\ dict_get String.eqb "max" (get_rate_stat V rs) = Some PNone
         /\ dict_get String.eqb "item_number" (get_rate_stat V rs) = Some (PInt 0)
         /\ dict_get String.eqb "total" (get_rate_stat V rs)
            = match V with Crm => None | Answer => Some (PInt 0) end).
Proof.
  split.
  - intros rs1 rs2 r H. unfold get_rate_stat. now rewrite (collect_rates_skip _ _ H).
  - intros rs H.
    assert (E : get_rate_stat V rs = empty_stat V).
    { unfold get_rate_stat. now rewrite (collect_rates_none H). }
    rewrite E. destruct V; repeat split.
Qed.

Lemma rate_stat_skips_absent_and_zero_witness :
  let named := Rec.Mk [MkField FirstNameField (PStr "Ada") "" "" ""] in
  let free := Rec.Mk [MkField RateField (PFloat (S754_zero false)) "" "" ""] in
  get_rate_stat Answer [named; free]
  = [("mean", PNone); ("min", PNone); ("max", PNone);
     ("item_number", PInt 0); ("total", PInt 0)].
Proof.
  intros named free.
  refine (proj1 (proj2 (rate_stat_skips_absent_and_zero Answer) [named; free] _)).
  apply Forall_cons; [left|apply Forall_cons; [right|apply Forall_nil]].
  - apply Forall_cons; [discriminate|apply Forall_nil].
  - exists false. reflexivity.
Defined.

(** ** Rate fields and probes *)

Lemma construct_rate_value (v : pyval) (f : Field) :
  construct RateField v = Ok f -> exists x, f = MkField RateField (PFloat x) "" "" "".
Proof.
  unfold construct, validate; simpl.
  destruct (py_float v) as [x|[]]; try discriminate.
  inversion 1. now exists x.
Qed.

Lemma float_of_str_errors (s : string) (e : exn) :
  float_of_str s = Raise e -> e = ValueError.
Proof.
  unfold float_of_str.
  destruct (strip_underscores false (number_strip s)) as [t|]; [|now inversion 1].
  destruct (split_sign t) as [neg u].
  destruct (_ || _); [discriminate|].
  destruct (_ =? _)%string; [discriminate|].
  destruct (span_digits u) as [ip r1].
  destruct (match r1 with String "." r => span_digits r | _ => (EmptyString, r1) end)
    as [fp r2].
  destruct (ip ++ fp)%string; [now inversion 1|].
  destruct (parse_exponent r2); [discriminate|now inversion 1].
Qed.

(** C5 (as the code has it). For a Rate field holding the float [x]: in
    crm.py [contains] never raises and is true exactly when the probe reads
    as a float equal to [x] (a probe that is not a number gives false); in
    answer.py [contains] is the substring test of the probe in [str(x)], and
    the numeric comparison is the field's equality [__eq__] ([rate_eq]):
    it never raises on a string, is true exactly when the string reads as a
    float equal to [x], so it answers what [contains] answers in crm.py, and
    on a float it is the comparison of the two floats. *)
Theorem rate_contains_by_service (self : Field) (x : float) (item : string) :
  field_class self = RateField ->
  value self = PFloat x ->
  (contains Crm self item = Ok true <->
   exists y, float_of_str item = Ok y /\ feqb y x = true)
  /\ (forall e, float_of_str item = Raise e -> contains Crm self item = Ok false)
  /\ (exists b, contains Crm self item = Ok b)
  /\ contains Answer self item = Ok (str_contains item (float_repr x))
  /\ (rate_eq self (PStr item) = Ok true <->
      exists y, float_of_str item = Ok y /\ feqb y x = true)
  /\ (forall e, float_of_str item = Raise e -> rate_eq self (PStr item) = Ok false)
  /\ (exists b, rate_eq self (PStr item) = Ok b)
  /\ rate_eq self (PStr item) = contains Crm self item
  /\ (forall y, rate_eq self (PFloat y) = Ok (feqb y x)).
Proof.
  intros Hc Hv. unfold contains, rate_eq. rewrite Hc, Hv. cbn [py_float].
  destruct (float_of_str item) as [y|e] eqn:Hf.
  - split; [split|].
    + inversion 1. now exists y.
    + intros [y' [Hy Heq]]. inversion Hy; subst. now rewrite Heq.
    + split; [discriminate|]. split; [now eexists|]. split; [reflexivity|].
      split; [split|].
      * inversion 1. now exists y.
      * intros [y' [Hy Heq]]. inversion Hy; subst. now rewrite Heq.
      * split; [discriminate|]. split; [now eexists|]. split; reflexivity.
  - rewrite (float_of_str_errors _ Hf). split; [split|].
    + discriminate.
    + intros [y [Hy _]]. discriminate.
    + split; [reflexivity|]. split; [now eexists|]. split; [reflexivity|].
      split; [split|].
      * discriminate.
      * intros [y [Hy _]]. discriminate.
      * split; [reflexivity|]. split; [now eexists|]. split; reflexivity.
Qed.

Lemma rate_contains_by_service_witness :
  let fifty := MkField RateField (PFloat (S754_finite false 7036874417766400 (-47))) "" "" "" in
  contains Answer fifty "0.0"
  = Ok (str_contains "0.0" (float_repr (S754_finite false 7036874417766400 (-47)))).
Proof.
  intros fifty.
  refine (proj1 (proj2 (proj2 (proj2 (@rate_contains_by_service
    fifty (S754_finite false 7036874417766400 (-47)) "0.0" _ _))))); reflexivity.
Defined.

(** C5 fails in answer.py: the Rate field built from "50" holds 50.0, printed
    "50.0"; the probe "0" is found in that text although it reads as 0.0,
    and the probe "5e1" reads as 50.0 but is not found. *)
Lemma rate_contains_is_substring_in_answer :
  exists self : Field,
    construct RateField (PStr "50") = Ok self
    /\ contains Answer self "0" = Ok true
    /\ ~ (exists y, float_of_str "0" = Ok y
                    /\ feqb y (S754_finite false 7036874417766400 (-47)) = true)
    /\ contains Answer self "5e1" = Ok false
    /\ float_of_str "5e1" = Ok (S754_finite false 7036874417766400 (-47))
    /\ value self = PFloat (S754_finite false 7036874417766400 (-47)).
Proof.
  eexists. split; [vm_compute; reflexivity|].
  split; [vm_compute; reflexivity|].
  split.
  - intros [y [Hy Heq]]. vm_compute in Hy. inversion Hy; subst. discriminate.
  - repeat split; vm_compute; reflexivity.
Qed.

(** ** Ids of the address book *)

Lemma keys_dict_set {A : Type} (k x : Z) (v : A) (d : list (Z * A)) :
  In x (map fst (dict_set Z.eqb k v d)) <-> x = k \/ In x (map fst d).
Proof.
  induction d as [|[k' v'] d IH]; simpl.
  - intuition.
  - destruct (Z.eqb_spec k' k) as [->|Hne]; simpl; [intuition|].
    rewrite IH. intuition.
Qed.

Lemma keys_dict_del {A : Type} (k x : Z) (d : list (Z * A)) :
  In x (map fst (dict_del Z.eqb k d)) -> In x (map fst d).
Proof.
  induction d as [|[k' v'] d IH]; simpl; [tauto|].
  destruct (Z.eqb_spec k' k); simpl; intuition.
Qed.

Lemma dict_set_NoDup {A : Type} (k : Z) (v : A) (d : list (Z * A)) :
  NoDup (map fst d) -> NoDup (map fst (dict_set Z.eqb k v d)).
Proof.
  induction d as [|[k' v'] d IH]; simpl; intros H.
  - constructor; [intros []|constructor].
  - inversion H as [|x l Hx Hl]; subst.
    destruct (Z.eqb_spec k' k) as [->|Hne]; simpl; [now constructor|].
    constructor; [|now apply IH].
    rewrite keys_dict_set. intros [E|Hin]; [now elim Hne|contradiction].
Qed.

Lemma dict_del_NoDup {A : Type} (k : Z) (d : list (Z * A)) :
  NoDup (map fst d) -> NoDup (map fst (dict_del Z.eqb k d)).
Proof.
  induction d as [|[k' v'] d IH]; simpl; intros H; [constructor|].
  inversion H as [|x l Hx Hl]; subst.
  destruct (Z.eqb_spec k' k); simpl; [exact Hl|].
  constructor; [|now apply IH]. intros Hin. now apply keys_dict_del in Hin.
Qed.

(** The ids of a book stay distinct under [add], [replace] and [delete]. *)
Lemma keys_stay_distinct (book : AddressBook.t) (record : Rec.t) (record_id : Z)
      (key : pyval) :
  NoDup (AddressBook.keys book) ->
  NoDup (AddressBook.keys (fst (AddressBook.add book record)))
  /\ NoDup (AddressBook.keys (fst (AddressBook.replace book record_id record)))
  /\ NoDup (AddressBook.keys (fst (AddressBook.delete book key))).
Proof.
  intros H. unfold AddressBook.keys in *. split; [|split].
  - simpl. now apply dict_set_NoDup.
  - unfold AddressBook.replace.
    destruct (dict_mem Z.eqb record_id (AddressBook.records book)); simpl; trivial.
    now apply dict_set_NoDup.
  - unfold AddressBook.delete, index_error_decorator. simpl.
    destruct (py_int key) as [k|e]; simpl; trivial.
    destruct (dict_mem Z.eqb k (AddressBook.records book)); simpl; trivial.
    now apply dict_del_NoDup.
Qed.

Lemma below_fresh (book : AddressBook.t) :
  below book -> ~ In (AddressBook.last_record_id book) (AddressBook.keys book).
Proof. intros H Hin. apply H in Hin. lia. Qed.

Lemma add_below (book : AddressBook.t) (record : Rec.t) :
  below book ->
  below (fst (AddressBook.add book record))
  /\ snd (AddressBook.add book record) = Ok (AddressBook.last_record_id book)
  /\ AddressBook.last_record_id (fst (AddressBook.add book record))
     = AddressBook.last_record_id book + 1
  /\ AddressBook.records (fst (AddressBook.add book record))
     = (AddressBook.records book ++ [(AddressBook.last_record_id book, record)])%list.
Proof.
  intros H. split; [|split; [|split]]; simpl; trivial.
  - intros k Hk. unfold AddressBook.keys in Hk; simpl in Hk.
    apply keys_dict_set in Hk. simpl. destruct Hk as [->|Hk]; [lia|].
    apply H in Hk. lia.
  - apply dict_set_fresh. now apply below_fresh.
Qed.

Lemma replace_below (book : AddressBook.t) (record_id : Z) (record : Rec.t) :
  below book ->
  below (fst (AddressBook.replace book record_id record))
  /\ AddressBook.last_record_id (fst (AddressBook.replace book record_id record))
     = AddressBook.last_record_id book.
Proof.
  intros H. unfold AddressBook.replace.
  destruct (dict_mem Z.eqb record_id (AddressBook.records book)) eqn:Hm; simpl;
    [|now split].
  split; [|reflexivity].
  intros k Hk. unfold AddressBook.keys in Hk; simpl in Hk.
  apply keys_dict_set in Hk. destruct Hk as [->|Hk]; [|now apply H].
  apply H. unfold dict_mem in Hm. unfold AddressBook.keys.
  induction (AddressBook.records book) as [|[k' v'] d IH]; simpl in *; [discriminate|].
  destruct (Z.eqb_spec k' record_id); [now left|right; now apply IH].
Qed.

Lemma delete_below (book : AddressBook.t) (record_id : pyval) :
  below book ->
  below (fst (AddressBook.delete book record_id))
  /\ AddressBook.last_record_id (fst (AddressBook.delete book record_id))
     = AddressBook.last_record_id book.
Proof.
  intros H. unfold AddressBook.delete, index_error_decorator; simpl.
  destruct (py_int record_id) as [key|e]; simpl; [|now split].
  destruct (dict_mem Z.eqb key (AddressBook.records book)); simpl; [|now split].
  split; [|reflexivity].
  intros k Hk. apply H. unfold AddressBook.keys in *; simpl in Hk.
  now apply keys_dict_del in Hk.
Qed.

Lemma first_ids_succ (n : nat) : first_ids (S n) = (first_ids n ++ [Z.of_nat n])%list.
Proof. unfold first_ids. now rewrite seq_S, map_app. Qed.

Lemma first_ids_bound (n : nat) (k : Z) : In k (first_ids n) <-> 0 <= k < Z.of_nat n.
Proof.
  unfold first_ids. rewrite in_map_iff. split.
  - intros [i [<- Hi]]. apply in_seq in Hi. lia.
  - intros H. exists (Z.to_nat k). split; [lia|]. apply in_seq. lia.
Qed.

(** The invariant of a history of plain requests. *)
Lemma replay_plain (V : variant) (ops : list op) :
  Forall plain ops ->
  forall (book book' : AddressBook.t) (issued issued' : list Z),
    issued = first_ids (List.length issued) ->
    AddressBook.last_record_id book = Z.of_nat (List.length issued) ->
    below book ->
    replay V ops book issued = (book', issued') ->
    issued' = first_ids (List.length issued')
    /\ AddressBook.last_record_id book' = Z.of_nat (List.length issued')
    /\ below book'.
Proof.
  induction 1 as [|o ops Ho _ IH]; intros book book' issued issued' Hi Hl Hb Hr;
    simpl in Hr.
  - inversion Hr; subst. auto.
  - destruct o; simpl in Hr, Ho; try contradiction.
    + destruct (add_below record Hb) as (Hb' & _ & Hl' & _).
      simpl in Hr. eapply IH; [| | |exact Hr].
      * rewrite length_app; simpl. rewrite Nat.add_1_r, first_ids_succ.
        now rewrite <- Hi, Hl.
      * rewrite length_app; simpl. lia.
      * exact Hb'.
    + destruct (replace_below record_id record Hb) as (Hb' & Hl').
      rewrite app_nil_r in Hr.
      eapply IH; [exact Hi| |exact Hb'|exact Hr]. now rewrite Hl'.
    + destruct (delete_below record_id Hb) as (Hb' & Hl').
      rewrite app_nil_r in Hr.
      eapply IH; [exact Hi| |exact Hb'|exact Hr]. now rewrite Hl'.
Qed.

Lemma fold_max_ge_init (l : list Z) (x : Z) : x <= fold_left Z.max l x.
Proof.
  revert x. induction l as [|a l IH]; intros x; simpl; [lia|].
  specialize (IH (Z.max x a)). lia.
Qed.

Lemma list_max_ge (x : Z) (l : list Z) (y : Z) :
  In y (x :: l) -> y <= AddressBook.list_max x l.
Proof.
  unfold AddressBook.list_max. intros [->|Hin]; [apply fold_max_ge_init|].
  revert x. induction l as [|a l IH]; intros x; simpl; [destruct Hin|].
  destruct Hin as [->|Hin]; [|now apply IH].
  pose proof (fold_max_ge_init l (Z.max x y)). lia.
Qed.

Lemma list_max_in (x : Z) (l : list Z) : In (AddressBook.list_max x l) (x :: l).
Proof.
  unfold AddressBook.list_max. revert x.
  induction l as [|a l IH]; intros x; simpl; [now left|].
  destruct (IH (Z.max x a)) as [H|H]; [|now right; right].
  destruct (Z.max_spec x a) as [[_ E]|[_ E]]; rewrite E in *.
  - right; now left.
  - now left.
Qed.

Lemma loads_crm_next_id (self book' : AddressBook.t) (json_records : pyval) :
  AddressBook.loads_crm self json_records = (book', Ok tt) ->
  exists k ks,
    AddressBook.keys book' = k :: ks
    /\ AddressBook.last_record_id book' = AddressBook.list_max k ks + 1
    /\ In (AddressBook.last_record_id book' - 1) (AddressBook.keys book')
    /\ below book'.
Proof.
  unfold AddressBook.loads_crm.
  destruct json_records; try discriminate.
  destruct (AddressBook.loads_loop_crm d []) as [recs [u|e]]; [|discriminate].
  destruct (map fst recs) as [|k ks] eqn:Hk; [discriminate|].
  inversion 1; subst. exists k, ks. unfold below, AddressBook.keys; simpl.
  rewrite Hk. repeat split.
  - replace (AddressBook.list_max k ks + 1 - 1) with (AddressBook.list_max k ks) by lia.
    apply list_max_in.
  - intros x Hx. apply list_max_ge in Hx. lia.
Qed.

Lemma loads_loop_answer_renumbered (items : list (string * pyval))
      (book book' : AddressBook.t) (r : res unit) :
  renumbered book ->
  AddressBook.loads_loop_answer items book = (book', r) ->
  renumbered book'.
Proof.
  revert book. induction items as [|[key developer_list] items IH];
    intros book Hb; simpl.
  - inversion 1; subst; exact Hb.
  - destruct (Rec.from_json Answer Rec.init developer_list) as [developer [u|e]];
      [|inversion 1; subst; exact Hb].
    apply IH. destruct Hb as [Hk Hl].
    assert (Hbelow : below book).
    { intros k Hin. rewrite Hk in Hin. apply first_ids_bound in Hin. lia. }
    destruct (add_below developer Hbelow) as (_ & _ & _ & Hr'). simpl in Hr'.
    unfold renumbered, AddressBook.keys; simpl. rewrite Hr'.
    rewrite map_app, length_app; simpl.
    rewrite Nat.add_1_r, first_ids_succ. unfold AddressBook.keys in Hk.
    rewrite Hk, Hl. split; [reflexivity|lia].
Qed.

Lemma loads_answer_renumbered (self book' : AddressBook.t) (text : json_text)
      (r : res unit) :
  AddressBook.loads_answer self text = (book', r) -> renumbered book'.
Proof.
  assert (H0 : renumbered (AddressBook.Mk [] 0)) by (split; reflexivity).
  unfold AddressBook.loads_answer.
  destruct (json_loads text) as [[| | | | | |items]|e];
    try (inversion 1; subst; exact H0).
  now apply loads_loop_answer_renumbered.
Qed.

(** C6 (as the code has it). In both services every id in the book is below
    the next id, and [add], [replace] and [delete] keep it so: [add] hands
    out the next id, which is in no record, and moves it up by one, the
    other two leave it alone; so along a history of these three requests
    from the empty book the ids handed out are 0, 1, 2, ... in this order,
    none twice, deletions or not.  [clear] (answer.py) makes the next id 0
    again.  Bulk load in crm.py, when it returns, leaves the next id one
    past the largest id loaded; on an empty collection the next id stays as
    it was.  Bulk load in answer.py renumbers: whatever ids the text
    has and however the load ends, the book holds the ids 0 .. n-1 and the
    next id is n (0 for an empty collection). *)
Theorem next_id_discipline (V : variant) :
  (forall (book : AddressBook.t) (record : Rec.t) (record_id : Z) (key : pyval),
      below book ->
      (below (fst (AddressBook.add book record))
       /\ snd (AddressBook.add book record) = Ok (AddressBook.last_record_id book)
       /\ ~ In (AddressBook.last_record_id book) (AddressBook.keys book)
       /\ AddressBook.last_record_id (fst (AddressBook.add book record))
          = AddressBook.last_record_id book + 1)
      /\ (below (fst (AddressBook.replace book record_id record))
          /\ AddressBook.last_record_id (fst (AddressBook.replace book record_id record))
             = AddressBook.last_record_id book)
      /\ (below (fst (AddressBook.delete book key))
          /\ AddressBook.last_record_id (fst (AddressBook.delete book key))
             = AddressBook.last_record_id book))
  /\ (forall (ops : list op) (book : AddressBook.t) (issued : list Z),
         Forall plain ops ->
         replay V ops AddressBook.init [] = (book, issued) ->
         issued = first_ids (List.length issued)
         /\ AddressBook.last_record_id book = Z.of_nat (List.length issued)
         /\ below book)
  /\ (forall book : AddressBook.t,
         fst (AddressBook.clear book) = AddressBook.Mk [] 0)
  /\ (forall (self book' : AddressBook.t) (json_records : pyval),
         AddressBook.loads_crm self json_records = (book', Ok tt) ->
         exists k ks,
           AddressBook.keys book' = k :: ks
           /\ AddressBook.last_record_id book' = AddressBook.list_max k ks + 1
           /\ In (AddressBook.last_record_id book' - 1) (AddressBook.keys book')
           /\ below book')
  /\ (forall self : AddressBook.t,
         AddressBook.last_record_id (fst (AddressBook.loads_crm self (PDict [])))
         = AddressBook.last_record_id self)
  /\ (forall (self book' : AddressBook.t) (text : json_text) (r : res unit),
         AddressBook.loads_answer self text = (book', r) ->
         renumbered book' /\ below book')
  /\ (forall self : AddressBook.t,
         AddressBook.loads_answer self (json_dumps (PDict []))
         = (AddressBook.Mk [] 0, Ok tt)).
Proof.
  split; [|split; [|split; [|split; [|split; [|split]]]]].
  - intros book record record_id key Hb.
    destruct (add_below record Hb) as (H1 & H2 & H3 & _).
    pose proof (below_fresh Hb) as Hf.
    pose proof (replace_below record_id record Hb).
    pose proof (delete_below key Hb). tauto.
  - intros ops book issued Hp Hr.
    eapply (@replay_plain V ops Hp AddressBook.init book [] issued);
      [reflexivity|reflexivity|intros k []|exact Hr].
  - reflexivity.
  - exact loads_crm_next_id.
  - reflexivity.
  - intros self book' text r H. apply loads_answer_renumbered in H.
    split; [exact H|]. destruct H as [Hk Hl].
    intros k Hin. rewrite Hk in Hin. apply first_ids_bound in Hin. lia.
  - reflexivity.
Qed.

Lemma next_id_discipline_witness :
  let ada := Rec.Mk [MkField FirstNameField (PStr "Ada") "" "" ""] in
  let ops := [OpAdd ada; OpAdd ada; OpDelete (PInt 0); OpAdd ada] in
  snd (replay Crm ops AddressBook.init []) = [0; 1; 2]
  /\ AddressBook.last_record_id (fst (replay Crm ops AddressBook.init [])) = 3.
Proof.
  intros ada ops.
  destruct (proj1 (proj2 (next_id_discipline Crm)) ops
                  (fst (replay Crm ops AddressBook.init []))
                  (snd (replay Crm ops AddressBook.init [])))
    as (Hi & Hl & _).
  - repeat constructor.
  - reflexivity.
  - split; [exact Hi|exact Hl].
Defined.

(** C6 fails as stated. In answer.py, after [add] has handed out id 0,
    [clear] puts the next id back to 0, which is not above the id handed
    out, and the next [add] hands out 0 again.  In crm.py a bulk load does
    the same: after two [add]s, loading a text whose only id is 0 leaves the
    next id 1, an id already handed out.  And in answer.py a bulk load of a
    text whose only id is 5 leaves the next id 1, not 6. *)
Lemma next_id_falls_back :
  let ada := Rec.Mk [MkField FirstNameField (PStr "Ada") "" "" ""] in
  replay Answer [OpAdd ada; OpClear; OpAdd ada] AddressBook.init []
  = (AddressBook.Mk [(0, ada)] 1, [0; 0])
  /\ (let '(book, issued) := replay Answer [OpAdd ada; OpClear] AddressBook.init [] in
      In 0 issued /\ ~ 0 < AddressBook.last_record_id book)
  /\ (let '(book, issued) :=
        replay Crm [OpAdd ada; OpAdd ada; OpLoads (json_dumps (PDict [("0", PList [])]))]
               AddressBook.init [] in
      In 1 issued /\ ~ 1 < AddressBook.last_record_id book)
  /\ AddressBook.loads_answer AddressBook.init
       (json_dumps (PDict [("5", PDict [("fields", PList [])])]))
     = (AddressBook.Mk [(0, Rec.init)] 1, Ok tt).
Proof.
  intros ada. split; [reflexivity|]. split; [|split].
  - simpl. split; [now left|lia].
  - vm_compute. split; [tauto|discriminate].
  - reflexivity.
Qed.

(** ** The matcher *)

Lemma append_assoc (a b c : string) : ((a ++ b) ++ c = a ++ (b ++ c))%string.
Proof. induction a as [|x a IH]; simpl; [reflexivity|now rewrite IH]. Qed.

Lemma append_nil_r (a : string) : (a ++ "")%string = a.
Proof. induction a as [|x a IH]; simpl; [reflexivity|now rewrite IH]. Qed.

Lemma length_append (a b : string) :
  String.length (a ++ b) = (String.length a + String.length b)%nat.
Proof. induction a as [|x a IH]; simpl; [reflexivity|now rewrite IH]. Qed.

Lemma substring_prefix (w t : string) : substring 0 (String.length w) (w ++ t) = w.
Proof.
  induction w as [|x w IH]; simpl; [now destruct t|now rewrite IH].
Qed.

Lemma in_run_plus (c : cls) (p : nat) (s : string) (g : list (nat * string))
      (st' : mstate) :
  In st' (run_plus c p s g) ->
  exists w, s = (w ++ rest st')%string
            /\ pos st' = (p + String.length w)%nat
            /\ groups st' = g
            /\ w <> EmptyString
            /\ all_chars (cls_match c) w = true.
Proof.
  revert p. induction s as [|a s IH]; intros p; simpl; [tauto|].
  destruct (cls_match c a) eqn:Ha; [|intros []].
  rewrite in_app_iff. intros [H|[<-|[]]].
  - destruct (IH _ H) as (w & -> & Hp & Hg & _ & Hw).
    exists (String a w). simpl. rewrite Ha, Hw, Hp.
    repeat split; try discriminate; auto; lia.
  - exists (String a ""). simpl. rewrite Ha.
    repeat split; try discriminate; auto; lia.
Qed.

(** A match consumes a prefix of what is left and counts its length. *)
Lemma run_consumes (r : regex) (st st' : mstate) :
  In st' (run r st) ->
  exists w, rest st = (w ++ rest st')%string
            /\ pos st' = (pos st + String.length w)%nat.
Proof.
  revert st st'. induction r as [|c|r1 IH1 r2 IH2|r IH|c|n r IH| |];
    intros st st'; simpl.
  - intros [<-|[]]. exists ""; simpl; split; [reflexivity|lia].
  - destruct (rest st) as [|a s'] eqn:Hr; [intros []|].
    destruct (cls_match c a); [|intros []].
    intros [<-|[]]. exists (String a ""). simpl. split; [reflexivity|lia].
  - rewrite in_flat_map. intros (m & Hm & Hst).
    destruct (IH1 _ _ Hm) as (w1 & E1 & P1).
    destruct (IH2 _ _ Hst) as (w2 & E2 & P2).
    exists (w1 ++ w2)%string. rewrite append_assoc, <- E2, <- E1, length_append.
    split; [reflexivity|lia].
  - rewrite in_app_iff. intros [H|[<-|[]]]; [now apply IH|].
    exists ""; simpl; split; [reflexivity|lia].
  - intros H. apply in_run_plus in H. destruct H as (w & E & P & _).
    now exists w.
  - rewrite in_map_iff. intros (m & <- & Hm). simpl. now apply IH.
  - destruct (Nat.eqb (pos st) 0); [|intros []].
    intros [<-|[]]. exists ""; simpl; split; [reflexivity|lia].
  - destruct (rest st) as [|a [|b s']] eqn:Hr.
    + intros [<-|[]]. exists ""; rewrite Hr; simpl; split; [reflexivity|lia].
    + destruct (Ascii.eqb a "010"); [|intros []].
      intros [<-|[]]. exists ""; rewrite Hr; simpl; split; [reflexivity|lia].
    + intros [].
Qed.

Lemma in_run_cls (c : cls) (st st' : mstate) :
  In st' (run (Cls c) st) <->
  exists a, rest st = String a (rest st') /\ cls_match c a = true
            /\ pos st' = S (pos st) /\ groups st' = groups st.
Proof.
  simpl. destruct (rest st) as [|a s'] eqn:Hr.
  - split; [intros []|]. intros (a & H & _). discriminate.
  - destruct (cls_match c a) eqn:Ha.
    + split.
      * intros [<-|[]]. exists a. simpl. auto.
      * intros (b & E & Hb & Hp & Hg). inversion E; subst.
        left. destruct st'; simpl in *. now subst.
    + split; [intros []|]. intros (b & E & Hb & _). inversion E; subst. congruence.
Qed.

Lemma in_run_rep (c : cls) (n : nat) (st st' : mstate) :
  In st' (run (rep n c) st) <->
  exists w, rest st = (w ++ rest st')%string
            /\ String.length w = n /\ all_chars (cls_match c) w = true
            /\ pos st' = (pos st + n)%nat /\ groups st' = groups st.
Proof.
  revert st. induction n as [|n IH]; intros st.
  - simpl. split.
    + intros [<-|[]]. exists "". simpl. repeat split. lia.
    + intros (w & E & Hl & _ & Hp & Hg). destruct w; [|discriminate].
      left. destruct st, st'; simpl in *. subst. f_equal. lia.
  - change (run (rep (S n) c) st) with (flat_map (run (rep n c)) (run (Cls c) st)).
    rewrite in_flat_map. split.
    + intros (m & Hm & Hst). apply in_run_cls in Hm.
      destruct Hm as (a & E & Ha & Hp & Hg).
      apply IH in Hst. destruct Hst as (w & E' & Hl & Hw & Hp' & Hg').
      exists (String a w). simpl. rewrite E, E', Ha, Hw, Hl, Hp', Hp, Hg', Hg.
      repeat split. lia.
    + intros (w & E & Hl & Hw & Hp & Hg). destruct w as [|a w]; [discriminate|].
      simpl in *. apply andb_prop in Hw. destruct Hw as [Ha Hw].
      exists (MState (S (pos st)) (w ++ rest st') (groups st)). split.
      * apply in_run_cls. exists a. simpl. auto.
      * apply IH. exists w. simpl. repeat split; auto; lia.
Qed.

Lemma in_run_group (n : nat) (r : regex) (st st' : mstate) :
  In st' (run (Group n r) st) <->
  exists m w, In m (run r st) /\ rest st = (w ++ rest m)%string
              /\ st' = MState (pos m) (rest m) ((n, w) :: groups m).
Proof.
  simpl. rewrite in_map_iff. split.
  - intros (m & <- & Hm). destruct (run_consumes _ _ _ Hm) as (w & E & P).
    exists m, w. rewrite E at 2. rewrite P.
    replace (pos st + String.length w - pos st)%nat with (String.length w) by lia.
    now rewrite substring_prefix.
  - intros (m & w & Hm & E & ->). exists m. split; [|exact Hm].
    destruct (run_consumes _ _ _ Hm) as (w' & E' & P).
    rewrite E' at 1. rewrite P.
    replace (pos st + String.length w' - pos st)%nat with (String.length w') by lia.
    rewrite substring_prefix. f_equal. f_equal. f_equal.
    rewrite E' in E. clear - E. revert w E.
    induction w' as [|a w' IH]; intros [|b w] E; simpl in *; trivial.
    + exfalso. apply (f_equal String.length) in E. simpl in E.
      rewrite length_append in E. lia.
    + exfalso. apply (f_equal String.length) in E. simpl in E.
      rewrite length_append in E. lia.
    + inversion E. f_equal. now apply IH.
Qed.

Lemma in_run_opt (r : regex) (st st' : mstate) :
  In st' (run (Opt r) st) <-> In st' (run r st) \/ st' = st.
Proof. simpl. rewrite in_app_iff. simpl. intuition. Qed.

Lemma in_run_seq (r1 r2 : regex) (st st' : mstate) :
  In st' (run (Seq r1 r2) st) <-> exists m, In m (run r1 st) /\ In st' (run r2 m).
Proof. simpl. apply in_flat_map. Qed.

Lemma in_run_eol (st st' : mstate) :
  In st' (run Eol st) <->
  st' = st /\ (rest st = EmptyString \/ rest st = String "010" EmptyString).
Proof.
  simpl. destruct (rest st) as [|a [|b s']] eqn:Hr.
  - split; [intros [<-|[]]; auto|]. intros [-> _]. now left.
  - destruct (Ascii.eqb_spec a "010") as [->|Hne].
    + split; [intros [<-|[]]; auto|]. intros [-> _]. now left.
    + split; [intros []|]. intros [_ [H|H]]; [discriminate|]. inversion H. contradiction.
  - split; [intros []|]. intros [_ [H|H]]; discriminate.
Qed.

Lemma in_run_bol (st st' : mstate) :
  In st' (run Bol st) <-> st' = st /\ pos st = O.
Proof.
  simpl. destruct (Nat.eqb_spec (pos st) 0) as [E|E].
  - split; [intros [<-|[]]; auto|]. intros [-> _]. now left.
  - split; [intros []|]. intros [_ H]. contradiction.
Qed.

Lemma append_same_tail (w w' t : string) : (w ++ t = w' ++ t)%string -> w = w'.
Proof.
  revert w'. induction w as [|a w IH]; intros [|b w'] E; simpl in *; trivial.
  - exfalso. apply (f_equal String.length) in E. simpl in E.
    rewrite length_append in E. lia.
  - exfalso. apply (f_equal String.length) in E. simpl in E.
    rewrite length_append in E. lia.
  - inversion E. f_equal. now apply IH.
Qed.

Lemma mstate_eq (a b : mstate) :
  pos a = pos b -> rest a = rest b -> groups a = groups b -> a = b.
Proof. destruct a, b; simpl; intros; now subst. Qed.

(** An optional literal character. *)
Lemma in_run_opt_char (c : ascii) (st st' : mstate) :
  In st' (run (Opt (Cls (CChar c))) st) <->
  exists b : bool,
    rest st = (optional b (String c "") ++ rest st')%string
    /\ pos st' = (pos st + String.length (optional b (String c "")))%nat
    /\ groups st' = groups st.
Proof.
  rewrite in_run_opt, in_run_cls. split.
  - intros [(a & E & Ha & Hp & Hg)| ->].
    + simpl in Ha. apply Ascii.eqb_eq in Ha. subst a.
      exists true. simpl. repeat split; auto; lia.
    + exists false. simpl. repeat split; auto; lia.
  - intros ([|] & E & Hp & Hg); simpl in *.
    + left. exists c. simpl. rewrite Ascii.eqb_refl. repeat split; auto; lia.
    + right. apply mstate_eq; auto; lia.
Qed.

(** A group around a run of digits. *)
Lemma in_run_group_digits (n k : nat) (st st' : mstate) :
  In st' (run (Group n (rep k CDigit)) st) <->
  exists w, is_digits k w
            /\ rest st = (w ++ rest st')%string
            /\ pos st' = (pos st + k)%nat
            /\ groups st' = (n, w) :: groups st.
Proof.
  rewrite in_run_group. split.
  - intros (m & w & Hm & E & ->). apply in_run_rep in Hm.
    destruct Hm as (w' & E' & Hl & Hw & Hp & Hg).
    rewrite E' in E. apply append_same_tail in E. subst w'.
    exists w. simpl. rewrite Hg. repeat split; auto.
  - intros (w & [Hl Hw] & E & Hp & Hg).
    exists (MState (pos st') (rest st') (groups st)), w. simpl.
    split; [|split; [exact E|apply mstate_eq; simpl; auto]].
    apply in_run_rep. exists w. simpl. repeat split; auto.
Qed.

(** The operator group: [(0\d{2})]. *)
Lemma in_run_operator (st st' : mstate) :
  In st' (run (Group 2 (Seq (Cls (CChar "0")) (rep 2 CDigit))) st) <->
  exists d, is_digits 2 d
            /\ rest st = (String "0" d ++ rest st')%string
            /\ pos st' = (pos st + 3)%nat
            /\ groups st' = (2%nat, String "0" d) :: groups st.
Proof.
  rewrite in_run_group. split.
  - intros (m & w & Hm & E & ->). apply in_run_seq in Hm.
    destruct Hm as (mid & Hc & Hr). apply in_run_cls in Hc.
    destruct Hc as (a & Ea & Ha & Hpa & Hga).
    simpl in Ha. apply Ascii.eqb_eq in Ha. subst a.
    apply in_run_rep in Hr. destruct Hr as (d & Ed & Hl & Hd & Hp & Hg).
    rewrite Ea, Ed in E. change (String "0" (d ++ rest m)) with (String "0" d ++ rest m)%string in E.
    apply append_same_tail in E. subst w.
    exists d. simpl. rewrite Hg, Hga, Hp, Hpa, Ea, Ed.
    repeat split; auto; lia.
  - intros (d & [Hl Hd] & E & Hp & Hg).
    exists (MState (pos st') (rest st') (groups st)), (String "0" d).
    split; [|split; [exact E|apply mstate_eq; simpl; auto]].
    apply in_run_seq. exists (MState (S (pos st)) (d ++ rest st') (groups st)). split.
    + apply in_run_cls. exists "0"%char. simpl. auto.
    + apply in_run_rep. exists d. simpl. repeat split; auto; lia.
Qed.

(** The subscriber group: [(\d{7}$)]. *)
Lemma in_run_subscriber (st st' : mstate) :
  In st' (run (Group 3 (Seq (rep 7 CDigit) Eol)) st) <->
  exists w (nl : bool),
    is_digits 7 w
    /\ rest st = (w ++ rest st')%string
    /\ rest st' = optional nl (String "010" "")
    /\ pos st' = (pos st + 7)%nat
    /\ groups st' = (3%nat, w) :: groups st.
Proof.
  rewrite in_run_group. split.
  - intros (m & w & Hm & E & ->). apply in_run_seq in Hm.
    destruct Hm as (mid & Hr & He). apply in_run_eol in He. destruct He as [-> Hend].
    apply in_run_rep in Hr. destruct Hr as (w' & E' & Hl & Hw & Hp & Hg).
    rewrite E' in E. apply append_same_tail in E. subst w'.
    exists w, (match rest mid with EmptyString => false | _ => true end).
    simpl. rewrite Hg. repeat split; auto.
    destruct Hend as [->| ->]; reflexivity.
  - intros (w & nl & [Hl Hw] & E & Hnl & Hp & Hg).
    exists (MState (pos st') (rest st') (groups st)), w.
    split; [|split; [exact E|apply mstate_eq; simpl; auto]].
    apply in_run_seq. exists (MState (pos st') (rest st') (groups st)). split.
    + apply in_run_rep. exists w. simpl. repeat split; auto.
    + apply in_run_eol. simpl. split; [reflexivity|].
      rewrite Hnl. destruct nl; auto.
Qed.

(** Every match of the phone pattern has the shape the words describe, with
    the operator group and the subscriber group set. *)
Lemma phone_regex_sound (s : string) (st' : mstate) :
  In st' (run PHONE_REGEX (MState 0 s [])) ->
  exists operator phone,
    group 2 (groups st') = Some operator
    /\ group 3 (groups st') = Some phone
    /\ phone_shape s (group 1 (groups st')) operator phone.
Proof.
  unfold PHONE_REGEX. intros H.
  apply in_run_seq in H. destruct H as (m0 & H0 & H).
  apply in_run_bol in H0. destruct H0 as [-> _].
  apply in_run_seq in H. destruct H as (m1 & H1 & H).
  apply in_run_opt_char in H1. destruct H1 as (plus & E1 & _ & G1).
  apply in_run_seq in H. destruct H as (m2 & H2 & H).
  apply in_run_seq in H. destruct H as (m3 & H3 & H).
  apply in_run_opt_char in H3. destruct H3 as (lp & E3 & _ & G3).
  apply in_run_seq in H. destruct H as (m4 & H4 & H).
  apply in_run_operator in H4. destruct H4 as (d & Hd & E4 & _ & G4).
  apply in_run_seq in H. destruct H as (m5 & H5 & H).
  apply in_run_opt_char in H5. destruct H5 as (rp & E5 & _ & G5).
  apply in_run_subscriber in H. destruct H as (w & nl & Hw & E6 & E7 & _ & G6).
  simpl in E1, G1. rewrite E7 in E6. rewrite E6 in E5. rewrite E5 in E4. rewrite E4 in E3.
  exists (String "0" d), w. rewrite G6, G5, G4, G3.
  apply in_run_opt in H2. destruct H2 as [H2| ->].
  - apply in_run_group_digits in H2. destruct H2 as (c & Hc & E2 & _ & G2).
    rewrite G2, G1. simpl. repeat split; auto; try (now destruct Hc); try (now destruct Hw).
    + exists d. now split.
    + exists plus, lp, rp, nl. rewrite E1, E2, E3. reflexivity.
  - rewrite G1. simpl. repeat split; auto; try (now destruct Hw).
    + exists d. now split.
    + exists plus, lp, rp, nl. rewrite E1, E3. reflexivity.
Qed.

(** Every text of that shape is matched. *)
Lemma phone_regex_complete (s : string) (country : option string)
      (operator phone : string) :
  phone_shape s country operator phone ->
  run PHONE_REGEX (MState 0 s []) <> [].
Proof.
  intros (Hc & (d & -> & Hd) & Hp & plus & lp & rp & nl & ->).
  set (t6 := optional nl (String "010" "")).
  set (t5 := (phone ++ t6)%string).
  set (t4 := (optional rp ")" ++ t5)%string).
  set (t3 := (String "0" d ++ t4)%string).
  set (t2 := (optional lp "(" ++ t3)%string).
  set (cs := match country with Some c => c | None => EmptyString end).
  set (t1 := (cs ++ t2)%string).
  set (p1 := String.length (optional plus "+")).
  set (p2 := (p1 + String.length cs)%nat).
  set (p3 := (p2 + String.length (optional lp "("))%nat).
  set (p5 := (p3 + 3 + String.length (optional rp ")"))%nat).
  set (g2 := match country with Some c => [(1%nat, c)] | None => [] end).
  set (g4 := (2%nat, String "0" d) :: g2).
  assert (Hin : In (MState (p5 + 7) t6 ((3%nat, phone) :: g4))
                   (run PHONE_REGEX (MState 0 (optional plus "+" ++ t1) []))).
  { unfold PHONE_REGEX.
    apply in_run_seq. exists (MState 0 (optional plus "+" ++ t1) []).
    split; [apply in_run_bol; now split|].
    apply in_run_seq. exists (MState p1 t1 []).
    split; [apply in_run_opt_char; exists plus; repeat split; simpl; auto; lia|].
    apply in_run_seq. exists (MState p2 t2 g2). split.
    { apply in_run_opt. subst g2 p2 t1 cs. destruct country as [c|].
      - left. apply in_run_group_digits. exists c. simpl.
        repeat split; try (now destruct Hc). destruct Hc as [-> _]. reflexivity.
      - right. simpl. f_equal. lia. }
    apply in_run_seq. exists (MState p3 t3 g2).
    split; [apply in_run_opt_char; exists lp; repeat split; simpl; auto; lia|].
    apply in_run_seq. exists (MState (p3 + 3) t4 g4).
    split; [apply in_run_operator; exists d;
            repeat split; simpl; auto; try lia; now destruct Hd|].
    apply in_run_seq. exists (MState p5 t5 g4).
    split; [apply in_run_opt_char; exists rp; repeat split; simpl; auto; lia|].
    apply in_run_subscriber. exists phone, nl.
    repeat split; simpl; auto; try lia; now destruct Hp. }
  intros E. rewrite E in Hin. destruct Hin.
Qed.

(** A pattern that starts with [^] matches at the start or nowhere. *)
Lemma search_from_anchored (r : regex) (p : nat) (s : string) :
  p <> O -> search_from (Seq Bol r) p s = None.
Proof.
  revert p. induction s as [|a s IH]; intros p Hp; simpl;
    destruct (Nat.eqb_spec p 0) as [E|_]; try contradiction; simpl; trivial.
  apply IH. discriminate.
Qed.

Lemma re_search_phone (s : string) :
  re_search PHONE_REGEX s
  = option_map groups (first_match PHONE_REGEX (MState 0 s [])).
Proof.
  unfold re_search, first_match.
  destruct s as [|a s]; unfold search_from; fold search_from;
    destruct (hd_error (run PHONE_REGEX _)); trivial.
  unfold PHONE_REGEX. now rewrite search_from_anchored.
Qed.

Lemma re_search_phone_sound (s : string) (g : list (nat * string)) :
  re_search PHONE_REGEX s = Some g ->
  exists operator phone,
    group 2 g = Some operator /\ group 3 g = Some phone
    /\ phone_shape s (group 1 g) operator phone.
Proof.
  rewrite re_search_phone. unfold first_match.
  destruct (run PHONE_REGEX (MState 0 s [])) as [|st l] eqn:Hr; [discriminate|].
  simpl. inversion 1; subst. apply phone_regex_sound. rewrite Hr. now left.
Qed.

Lemma re_search_phone_complete (s : string) (country : option string)
      (operator phone : string) :
  phone_shape s country operator phone -> re_search PHONE_REGEX s <> None.
Proof.
  intros H. apply phone_regex_complete in H.
  rewrite re_search_phone. unfold first_match.
  destruct (run PHONE_REGEX (MState 0 s [])); [contradiction|discriminate].
Qed.

(** What the constructor of a phone field does with a string. *)
Lemma construct_phone (s : string) :
  construct PhoneField (PStr s)
  = match re_search PHONE_REGEX (remove_char " " s) with
    | None => Raise IncorrectInput
    | Some g =>
        match group 2 g with
        | None => Raise IncorrectInput
        | Some operator =>
            let country := match group 1 g with Some c => c | None => "38" end in
            let phone := match group 3 g with Some p => p | None => "None" end in
            Ok (MkField PhoneField (PStr ("+" ++ country ++ operator ++ phone))
                        country operator phone)
        end
    end.
Proof.
  unfold construct, validate. cbn [field_class].
  destruct (re_search PHONE_REGEX (remove_char " " s)) as [g|]; [|reflexivity].
  destruct (group 2 g); reflexivity.
Qed.

(** ** Phone numbers *)

Lemma count_digits_append (a b : string) :
  count_digits (a ++ b) = (count_digits a + count_digits b)%nat.
Proof. induction a as [|x a IH]; simpl; [reflexivity|rewrite IH; lia]. Qed.

Lemma count_digits_is_digits (n : nat) (w : string) :
  is_digits n w -> count_digits w = n.
Proof.
  intros [<- H]. induction w as [|x w IH]; simpl in *; [reflexivity|].
  apply andb_prop in H. destruct H as [-> H]. now rewrite IH.
Qed.

Lemma count_digits_optional (b : bool) (c : ascii) :
  is_digit c = false -> count_digits (optional b (String c "")) = O.
Proof. intros H. destruct b; simpl; [now rewrite H|reflexivity]. Qed.

Lemma phone_shape_digits (s : string) (country : option string)
      (operator phone : string) :
  phone_shape s country operator phone ->
  count_digits s = (match country with Some _ => 12 | None => 10 end)%nat.
Proof.
  intros (Hc & (d & -> & Hd) & Hp & plus & lp & rp & nl & ->).
  rewrite !count_digits_append, !count_digits_optional by reflexivity.
  rewrite (count_digits_is_digits Hp).
  change (count_digits (String "0" d)) with (S (count_digits d)).
  rewrite (count_digits_is_digits Hd).
  destruct country as [c|]; [now rewrite (count_digits_is_digits Hc)|reflexivity].
Qed.

Lemma lacks_operator_digits (s : string) :
  lacks_operator s -> count_digits s = 7%nat \/ count_digits s = 9%nat.
Proof.
  intros (plus & lp & rp & nl & country & phone & Hc & Hp & ->).
  rewrite !count_digits_append, !count_digits_optional by reflexivity.
  rewrite (count_digits_is_digits Hp).
  destruct country as [c|]; [right; now rewrite (count_digits_is_digits Hc)|now left].
Qed.

(** C7 (as the code has it). Phone construction drops every space character
    of the raw input (no other white space) and fails with [IncorrectInput]
    exactly when the pattern does not match what is left, that is, exactly
    when what is left has not the shape: optional [+], optional two-digit
    country code, operator code of [0] and two digits in optional
    parentheses, seven digits, end of text or one last line feed.  It fails
    in no other way.  On a match the operator group is always set; a text
    that has everything but the operator code is not matched, so
    construction fails on it. *)
Theorem phone_fails_iff_no_match (s : string) :
  (construct PhoneField (PStr s) = Raise IncorrectInput <->
   re_search PHONE_REGEX (remove_char " " s) = None)
  /\ (re_search PHONE_REGEX (remove_char " " s) = None <->
      forall country operator phone,
        ~ phone_shape (remove_char " " s) country operator phone)
  /\ (forall e, construct PhoneField (PStr s) = Raise e -> e = IncorrectInput)
  /\ (forall g, re_search PHONE_REGEX (remove_char " " s) = Some g ->
                group 2 g <> None)
  /\ (lacks_operator (remove_char " " s) ->
      construct PhoneField (PStr s) = Raise IncorrectInput).
Proof.
  assert (Hsound : forall g, re_search PHONE_REGEX (remove_char " " s) = Some g ->
                             group 2 g <> None).
  { intros g Hg. apply re_search_phone_sound in Hg.
    destruct Hg as (o & p & -> & _). discriminate. }
  assert (Hshape : re_search PHONE_REGEX (remove_char " " s) = None <->
                   forall country operator phone,
                     ~ phone_shape (remove_char " " s) country operator phone).
  { split.
    - intros Hn c o p H. now apply re_search_phone_complete in H.
    - intros H. destruct (re_search PHONE_REGEX (remove_char " " s)) as [g|] eqn:Hg;
        [|reflexivity].
      apply re_search_phone_sound in Hg. destruct Hg as (o & p & _ & _ & Hs).
      now apply H in Hs. }
  assert (Hfail : construct PhoneField (PStr s) = Raise IncorrectInput <->
                  re_search PHONE_REGEX (remove_char " " s) = None).
  { rewrite construct_phone.
    destruct (re_search PHONE_REGEX (remove_char " " s)) as [g|] eqn:Hg;
      [|split; reflexivity].
    specialize (Hsound g eq_refl). destruct (group 2 g); [|contradiction].
    split; discriminate. }
  repeat split; try apply Hfail; try apply Hshape; try exact Hsound.
  - intros e. rewrite construct_phone.
    destruct (re_search PHONE_REGEX (remove_char " " s)) as [g|]; [|now inversion 1].
    destruct (group 2 g); [discriminate|now inversion 1].
  - intros Hl. apply Hfail, Hshape. intros c o p Hs.
    apply phone_shape_digits in Hs. apply lacks_operator_digits in Hl.
    destruct c; lia.
Qed.

Lemma phone_fails_iff_no_match_witness :
  construct PhoneField (PStr "+38 123 45 67") = Raise IncorrectInput.
Proof.
  apply (proj2 (proj2 (proj2 (proj2 (phone_fails_iff_no_match "+38 123 45 67"))))).
  exists true, false, false, false, (Some "38"), "1234567".
  split; [split; reflexivity|]. split; [split; reflexivity|]. reflexivity.
Defined.

(** C7 fails as stated: a tab is white space, and the code keeps it.  With
    all white space dropped "050<tab>1234567" would be "0501234567", which
    the pattern matches; the constructor fails on it. *)
Lemma phone_keeps_other_whitespace :
  let raw := ("050" ++ String "009" "1234567")%string in
  construct PhoneField (PStr raw) = Raise IncorrectInput
  /\ strip_all_whitespace raw = "0501234567"
  /\ re_search PHONE_REGEX (strip_all_whitespace raw) <> None
  /\ ~ (construct PhoneField (PStr raw) = Raise IncorrectInput <->
        re_search PHONE_REGEX (strip_all_whitespace raw) = None).
Proof.
  intros raw. repeat split; try (vm_compute; reflexivity).
  - vm_compute. discriminate.
  - intros [H _]. specialize (H eq_refl). vm_compute in H. discriminate.
Qed.

Lemma run_rep_digits (n p : nat) (w t : string) (g : list (nat * string)) :
  is_digits n w ->
  run (rep n CDigit) (MState p (w ++ t) g) = [MState (p + n) t g].
Proof.
  revert p w. induction n as [|n IH]; intros p w [Hl Hw];
    destruct w as [|a w]; simpl in Hl, Hw; try discriminate.
  - simpl. now rewrite Nat.add_0_r.
  - apply andb_prop in Hw. destruct Hw as [Ha Hw]. injection Hl as Hl.
    cbn [rep run rest pos groups append cls_match flat_map app]. rewrite Ha.
    cbn [flat_map]. rewrite (IH (S p) w (conj Hl Hw)), app_nil_r.
    now rewrite Nat.add_succ_r.
Qed.

Lemma substring_consumed (p : nat) (w t : string) :
  substring 0 (p + String.length w - p) (w ++ t) = w.
Proof.
  replace (p + String.length w - p)%nat with (String.length w) by lia.
  apply substring_prefix.
Qed.

Lemma run_group_digits (n k p : nat) (w t : string) (g : list (nat * string)) :
  is_digits k w ->
  run (Group n (rep k CDigit)) (MState p (w ++ t) g)
  = [MState (p + k) t ((n, w) :: g)].
Proof.
  intros H. cbn [run]. rewrite (run_rep_digits _ _ _ H).
  cbn [map pos rest groups]. destruct H as [<- _].
  now rewrite substring_consumed.
Qed.

Lemma run_operator (p : nat) (d t : string) (g : list (nat * string)) :
  is_digits 2 d ->
  run (Group 2 (Seq (Cls (CChar "0")) (rep 2 CDigit)))
      (MState p (String "0" (d ++ t)) g)
  = [MState (p + 3) t ((2%nat, String "0" d) :: g)].
Proof.
  intros H. cbn [run rest pos groups cls_match]. rewrite Ascii.eqb_refl.
  cbn [flat_map]. rewrite (run_rep_digits _ _ _ H), app_nil_r.
  cbn [map pos rest groups]. destruct H as [Hl _].
  change (String "0" (d ++ t)) with (String "0" d ++ t)%string.
  replace (S p + 2 - p)%nat with (String.length (String "0" d))
    by (change (String.length (String "0" d)) with (S (String.length d)); lia).
  rewrite substring_prefix. do 2 f_equal. lia.
Qed.

Lemma run_subscriber (p : nat) (w : string) (g : list (nat * string)) :
  is_digits 7 w ->
  run (Group 3 (Seq (rep 7 CDigit) Eol)) (MState p w g)
  = [MState (p + 7) "" ((3%nat, w) :: g)].
Proof.
  intros H. cbn [run]. rewrite <- (append_nil_r w) at 1.
  rewrite (run_rep_digits _ _ _ H). cbn [flat_map run rest app map pos groups].
  destruct H as [Hl _]. rewrite <- Hl at 2.
  rewrite <- (append_nil_r w) at 2. now rewrite substring_consumed.
Qed.

Lemma first_seq (r1 r2 : regex) (st m st' : mstate) :
  first_match r1 st = Some m -> first_match r2 m = Some st' ->
  first_match (Seq r1 r2) st = Some st'.
Proof.
  unfold first_match. cbn [run].
  destruct (run r1 st) as [|x l]; [discriminate|]. inversion 1; subst.
  cbn [flat_map]. destruct (run r2 m); [discriminate|]. trivial.
Qed.

Lemma first_opt_take (r : regex) (st m : mstate) :
  first_match r st = Some m -> first_match (Opt r) st = Some m.
Proof.
  unfold first_match. cbn [run]. destruct (run r st); [discriminate|trivial].
Qed.

Lemma digit_is_not (a c : ascii) :
  is_digit a = true -> is_digit c = false -> Ascii.eqb a c = false.
Proof.
  intros Ha Hc. destruct (Ascii.eqb_spec a c) as [->|]; [congruence|reflexivity].
Qed.

(** An optional literal that is not there is skipped. *)
Lemma first_opt_absent (c a : ascii) (p : nat) (t : string) (g : list (nat * string)) :
  Ascii.eqb a c = false ->
  first_match (Opt (Cls (CChar c))) (MState p (String a t) g)
  = Some (MState p (String a t) g).
Proof. intros H. unfold first_match. cbn. now rewrite H. Qed.

(** The pattern on a normalized number: the three groups are its three
    parts. *)
Lemma re_search_normalized (country d phone : string) :
  is_digits 2 country -> is_digits 2 d -> is_digits 7 phone ->
  re_search PHONE_REGEX ("+" ++ country ++ String "0" d ++ phone)
  = Some [(3%nat, phone); (2%nat, String "0" d); (1%nat, country)].
Proof.
  intros Hc Hd Hp. rewrite re_search_phone.
  assert (H : first_match PHONE_REGEX
                (MState 0 ("+" ++ country ++ String "0" d ++ phone) [])
              = Some (MState 13 ""
                        [(3%nat, phone); (2%nat, String "0" d); (1%nat, country)])).
  { unfold PHONE_REGEX.
    set (g1 := [(1%nat, country)]).
    set (g2 := (2%nat, String "0" d) :: g1).
    apply first_seq
      with (m := MState 0 ("+" ++ country ++ String "0" d ++ phone) []);
      [reflexivity|].
    apply first_seq with (m := MState 1 (country ++ String "0" d ++ phone) []);
      [reflexivity|].
    apply first_seq with (m := MState 3 (String "0" d ++ phone) g1).
    { apply first_opt_take. unfold first_match.
      now rewrite (run_group_digits 1 1 (String "0" d ++ phone) [] Hc). }
    apply first_seq with (m := MState 3 (String "0" d ++ phone) g1);
      [apply first_opt_absent; reflexivity|].
    apply first_seq with (m := MState 6 phone g2).
    { unfold first_match. cbn [append].
      now rewrite (run_operator 3 phone g1 Hd). }
    apply first_seq with (m := MState 6 phone g2).
    { destruct phone as [|a phone']; [destruct Hp; discriminate|].
      apply first_opt_absent. apply digit_is_not; [|reflexivity].
      destruct Hp as [_ Hp]. simpl in Hp. now apply andb_prop in Hp. }
    unfold first_match. now rewrite (run_subscriber 6 g2 Hp). }
  now rewrite H.
Qed.

Lemma is_digits_append (n m : nat) (a b : string) :
  is_digits n a -> is_digits m b -> is_digits (n + m) (a ++ b).
Proof.
  intros [<- Ha] [<- Hb]. split; [apply length_append|].
  induction a as [|x a IH]; simpl in *; [exact Hb|].
  apply andb_prop in Ha. destruct Ha as [-> Ha]. now apply IH.
Qed.

Lemma remove_space_digits (n : nat) (w t : string) :
  is_digits n w -> remove_char " " (w ++ t) = (w ++ remove_char " " t)%string.
Proof.
  intros [_ H]. induction w as [|x w IH]; simpl in *; [reflexivity|].
  apply andb_prop in H. destruct H as [Hx H].
  rewrite (digit_is_not x " " Hx eq_refl). now rewrite IH.
Qed.

(** What a successful phone construction returns. *)
Lemma construct_phone_ok (x : string) (f : Field) :
  construct PhoneField (PStr x) = Ok f ->
  exists g country d phone,
    re_search PHONE_REGEX (remove_char " " x) = Some g
    /\ country = match group 1 g with Some c => c | None => "38" end
    /\ is_digits 2 country /\ is_digits 2 d /\ is_digits 7 phone
    /\ f = MkField PhoneField (PStr ("+" ++ country ++ String "0" d ++ phone))
                   country (String "0" d) phone.
Proof.
  rewrite construct_phone.
  destruct (re_search PHONE_REGEX (remove_char " " x)) as [g|] eqn:Hg; [|discriminate].
  destruct (re_search_phone_sound _ Hg) as (o & p & H2 & H3 & Hc & (d & -> & Hd) & Hp & _).
  rewrite H2, H3. inversion 1; subst.
  exists g, (match group 1 g with Some c => c | None => "38" end), d, p.
  repeat split; trivial; try apply Hd; try apply Hp;
    destruct (group 1 g); try apply Hc; reflexivity.
Qed.

(** A phone field built from its own value is the same object. *)
Lemma construct_phone_again (x : string) (f : Field) :
  construct PhoneField (PStr x) = Ok f -> construct PhoneField (value f) = Ok f.
Proof.
  intros H. destruct (construct_phone_ok _ H) as (g & c & d & p & _ & _ & Hc & Hd & Hp & ->).
  assert (Hop : is_digits 3 (String "0" d)).
  { destruct Hd as [Hl Hd]. split; simpl; [now rewrite Hl|exact Hd]. }
  cbn [value]. rewrite construct_phone.
  change ("+" ++ c ++ String "0" d ++ p)%string
    with (String "+" (c ++ String "0" d ++ p)%string).
  cbn [remove_char]. change (Ascii.eqb "+" " ") with false. cbv iota.
  rewrite (remove_space_digits _ Hc), (remove_space_digits _ Hop).
  assert (E : remove_char " " p = p).
  { rewrite <- (append_nil_r p) at 1. rewrite (remove_space_digits _ Hp).
    apply append_nil_r. }
  rewrite E.
  change (String "+" (c ++ String "0" d ++ p))
    with ("+" ++ c ++ String "0" d ++ p)%string.
  rewrite (re_search_normalized Hc Hd Hp). reflexivity.
Qed.

(** C4. When a phone field is built from a raw string, its value is "+" and
    then digits only (twelve of them); building a phone field from that
    value succeeds and gives the same object, value and parts alike; and when
    the country group took no part in the match the country code is "38". *)
Theorem phone_normalization_idempotent (x : string) (f : Field) :
  construct PhoneField (PStr x) = Ok f ->
  (exists ds, value f = PStr (String "+" ds) /\ is_digits 12 ds)
  /\ construct PhoneField (value f) = Ok f
  /\ (forall g, re_search PHONE_REGEX (remove_char " " x) = Some g ->
                group 1 g = None ->
                country_code f = "38"
                /\ exists rest, value f = PStr ("+38" ++ rest)).
Proof.
  intros H. split; [|split; [now apply construct_phone_again with (x := x)|]];
    destruct (construct_phone_ok _ H)
      as (g & c & d & p & Hg & Ec & Hc & Hd & Hp & ->).
  - assert (Hop : is_digits 3 (String "0" d)).
    { destruct Hd as [Hl Hd]. split; simpl; [now rewrite Hl|exact Hd]. }
    exists (c ++ String "0" d ++ p)%string. split; [reflexivity|].
    apply (is_digits_append Hc (is_digits_append Hop Hp)).
  - intros g' Hg' Hnone. rewrite Hg in Hg'. inversion Hg'; subst g'.
    rewrite Hnone in Ec. subst c. simpl. split; [reflexivity|].
    now exists (String "0" d ++ p)%string.
Qed.

Lemma phone_normalization_idempotent_witness :
  let f := MkField PhoneField (PStr "+380501234567") "38" "050" "1234567" in
  construct PhoneField (PStr "(050) 123 45 67") = Ok f
  /\ construct PhoneField (value f) = Ok f.
Proof.
  intros f.
  assert (H : construct PhoneField (PStr "(050) 123 45 67") = Ok f)
    by (vm_compute; reflexivity).
  split; [exact H|].
  exact (proj1 (proj2 (@phone_normalization_idempotent "(050) 123 45 67" f H))).
Defined.

(** ** Ids as text *)

Lemma all_chars_impl (p q : ascii -> bool) (s : string) :
  (forall c, p c = true -> q c = true) ->
  all_chars p s = true -> all_chars q s = true.
Proof.
  intros Hpq. induction s as [|a s IH]; simpl; [reflexivity|].
  intros H. apply andb_prop in H. destruct H as [Ha H].
  now rewrite (Hpq _ Ha), IH.
Qed.

Lemma all_chars_rev (p : ascii -> bool) (s acc : string) :
  all_chars p (rev_string s acc) = all_chars p s && all_chars p acc.
Proof.
  revert acc. induction s as [|a s IH]; intros acc; simpl; [reflexivity|].
  rewrite IH. simpl. now rewrite andb_assoc, (andb_comm (all_chars p s)).
Qed.

Lemma rev_string_rev (s a b : string) :
  rev_string (rev_string s a) b = rev_string a (s ++ b).
Proof.
  revert a b. induction s as [|c s IH]; intros a b; simpl; [reflexivity|].
  now rewrite IH.
Qed.

Lemma lstrip_none (s : string) :
  all_chars (fun c => negb (is_number_space c)) s = true -> number_lstrip s = s.
Proof.
  destruct s as [|a s]; simpl; [reflexivity|].
  intros H. apply andb_prop in H. destruct H as [Ha _].
  apply negb_true_iff in Ha. now rewrite Ha.
Qed.

Lemma strip_none (s : string) :
  all_chars (fun c => negb (is_number_space c)) s = true -> number_strip s = s.
Proof.
  intros H. unfold number_strip. rewrite (lstrip_none _ H), lstrip_none.
  - rewrite rev_string_rev. simpl. apply append_nil_r.
  - now rewrite all_chars_rev, H.
Qed.

Lemma strip_underscores_none (b : bool) (s : string) :
  all_chars (fun c => negb (Ascii.eqb c "_")) s = true ->
  strip_underscores b s = Some s.
Proof.
  revert b. induction s as [|a s IH]; intros b; simpl; [reflexivity|].
  intros H. apply andb_prop in H. destruct H as [Ha H].
  apply negb_true_iff in Ha. now rewrite Ha, IH.
Qed.

Lemma digit_not_space (c : ascii) : is_digit c = true -> negb (is_number_space c) = true.
Proof. destruct c as [[] [] [] [] [] [] [] []]; intros H; try discriminate; reflexivity. Qed.

Lemma digit_not_underscore (c : ascii) :
  is_digit c = true -> negb (Ascii.eqb c "_") = true.
Proof. destruct c as [[] [] [] [] [] [] [] []]; intros H; try discriminate; reflexivity. Qed.

Lemma split_sign_digit (c : ascii) (s : string) :
  is_digit c = true -> split_sign (String c s) = (false, String c s).
Proof. destruct c as [[] [] [] [] [] [] [] []]; intros H; try discriminate; reflexivity. Qed.

Lemma string_of_uint_digits (u : Decimal.uint) :
  all_chars is_digit (NilEmpty.string_of_uint u) = true.
Proof. induction u; simpl; trivial. Qed.

(** The decimal text of a natural number: digits only, not empty, and it
    reads back as the number. *)
Lemma uint_text (u : Decimal.uint) :
  exists c s u',
    NilZero.string_of_uint u = String c s
    /\ all_chars is_digit (String c s) = true
    /\ NilEmpty.uint_of_string (String c s) = Some u'
    /\ Z.of_uint u' = Z.of_uint u.
Proof.
  assert (H : u = Decimal.Nil
              \/ (NilZero.string_of_uint u = NilEmpty.string_of_uint u
                  /\ NilEmpty.string_of_uint u <> EmptyString)).
  { destruct u; [now left|right; split; [reflexivity|discriminate]..]. }
  destruct H as [->|[E Hne]].
  - exists "0"%char, "", (Decimal.D0 Decimal.Nil). repeat split.
  - pose proof (string_of_uint_digits u) as Hd.
    pose proof (NilEmpty.usu u) as Hu. rewrite E.
    destruct (NilEmpty.string_of_uint u) as [|c s]; [contradiction|].
    now exists c, s, u.
Qed.

(** [int(str(n))] is [n]. *)
Lemma int_of_str_of_int (z : Z) : int_of_str (str_of_int z) = Ok z.
Proof.
  unfold str_of_int. pose proof (DecimalZ.of_to z) as Hz.
  destruct (Z.to_int z) as [u|u]; simpl in Hz; unfold NilZero.string_of_int;
    destruct (uint_text u) as (c & s & u' & -> & Hd & Hu & Hv).
  - unfold int_of_str.
    rewrite strip_none by (apply all_chars_impl with (p := is_digit); [exact digit_not_space|exact Hd]).
    rewrite strip_underscores_none by (apply all_chars_impl with (p := is_digit); [exact digit_not_underscore|exact Hd]).
    simpl in Hd. apply andb_prop in Hd. destruct Hd as [Hc _].
    rewrite (@split_sign_digit c s Hc), Hu. now rewrite Hv, Hz.
  - unfold int_of_str.
    assert (Hs : all_chars (fun c => negb (is_number_space c)) (String "-" (String c s)) = true).
    { change (all_chars (fun c => negb (is_number_space c)) (String c s) = true).
      apply all_chars_impl with (p := is_digit); [exact digit_not_space|exact Hd]. }
    assert (Hu' : all_chars (fun c => negb (Ascii.eqb c "_")) (String "-" (String c s)) = true).
    { change (all_chars (fun c => negb (Ascii.eqb c "_")) (String c s) = true).
      apply all_chars_impl with (p := is_digit); [exact digit_not_underscore|exact Hd]. }
    rewrite (strip_none _ Hs), (strip_underscores_none _ _ Hu').
    cbn [split_sign]. rewrite Hu. now rewrite Hv, Hz.
Qed.

(** ** Serialization round trip *)

Lemma construct_class (c : FieldClass) (v : pyval) (f : Field) :
  construct c v = Ok f -> field_class f = c.
Proof.
  unfold construct. destruct (validate _ v) as [self' [u|e]] eqn:Hv; [|discriminate].
  inversion 1; subst. unfold validate in Hv. cbn [field_class] in Hv.
  destruct c; try (now inversion Hv).
  - destruct v; try discriminate.
    destruct (re_search PHONE_REGEX _) as [g|]; [|discriminate].
    destruct (group 2 g); [now inversion Hv|discriminate].
  - destruct v; try discriminate.
    destruct (re_match EMAIL_REGEX s); [now inversion Hv|discriminate].
  - destruct (py_float v) as [x|[]]; try discriminate; now inversion Hv.
Qed.

(** Building a field of the same class from the value of a field gives the
    field back. *)
Lemma construct_again (c : FieldClass) (v : pyval) (f : Field) :
  construct c v = Ok f -> construct c (value f) = Ok f.
Proof.
  destruct c; try (unfold construct, validate; cbn; now inversion 1).
  - destruct v; try discriminate. apply construct_phone_again.
  - unfold construct, validate; cbn [field_class].
    destruct v; try discriminate.
    destruct (re_match EMAIL_REGEX s) eqn:Hm; [|discriminate].
    inversion 1; subst. cbn. now rewrite Hm.
  - intros H. apply construct_rate_value in H. destruct H as [x ->]. reflexivity.
Qed.

Lemma decode_field_to_dict (V : variant) (f : Field) :
  field_valid V f -> field_decoder V (field_to_dict f) = Ok f.
Proof.
  intros [Hr [v Hc]]. unfold field_decoder, field_to_dict.
  cbn [getitem dict_get String.eqb Ascii.eqb Bool.eqb bind].
  unfold registry_lookup. unfold registered in Hr. rewrite Hr.
  cbn [bind]. now rewrite (construct_again _ _ Hc).
Qed.

Lemma from_json_loop_valid (V : variant) (self : Rec.t) (l : list Field) :
  Forall (field_valid V) l ->
  Rec.from_json_loop V self (map field_to_dict l)
  = (Rec.Mk (Rec.fields self ++ l), Ok tt).
Proof.
  intros H. revert self. induction H as [|f l Hf _ IH]; intros self; simpl.
  - rewrite app_nil_r. now destruct self.
  - rewrite (decode_field_to_dict Hf). rewrite IH. simpl.
    now rewrite <- app_assoc.
Qed.

Lemma from_json_to_dict (V : variant) (r : Rec.t) :
  Forall (field_valid V) (Rec.fields r) ->
  Rec.from_json V Rec.init (Rec.to_dict V r) = (r, Ok tt).
Proof.
  intros H. unfold Rec.from_json, Rec.to_dict.
  assert (E : (if py_truthy (PList (map field_to_dict (Rec.fields r)))
               then Rec.from_json_loop V Rec.init (map field_to_dict (Rec.fields r))
               else (Rec.init, Ok tt)) = (r, Ok tt)).
  { destruct r as [l]. simpl in *. destruct l as [|f l]; [reflexivity|].
    change (py_truthy (PList (map field_to_dict (f :: l)))) with true. cbv iota.
    now rewrite (from_json_loop_valid Rec.init H). }
  destruct V; exact E.
Qed.

Lemma loads_loop_crm_valid (recs acc : list (Z * Rec.t)) :
  records_valid Crm recs ->
  NoDup (map fst (acc ++ recs)) ->
  AddressBook.loads_loop_crm (dump_items Crm recs) acc = ((acc ++ recs)%list, Ok tt).
Proof.
  intros H. revert acc. induction H as [|[k r] recs Hr _ IH]; intros acc Hnd.
  - now rewrite app_nil_r.
  - cbn [dump_items map AddressBook.loads_loop_crm]. simpl in Hr.
    rewrite (@from_json_to_dict Crm r Hr), int_of_str_of_int.
    assert (Hfresh : ~ In k (map fst acc)).
    { rewrite map_app in Hnd. simpl in Hnd. apply NoDup_remove_2 in Hnd.
      rewrite in_app_iff in Hnd. tauto. }
    rewrite (dict_set_fresh _ _ _ Hfresh).
    fold (dump_items Crm recs). rewrite IH; rewrite <- app_assoc; trivial.
Qed.

Lemma renumbered_below (book : AddressBook.t) : renumbered book -> below book.
Proof.
  intros [Hk Hl] k Hin. rewrite Hk in Hin. apply first_ids_bound in Hin. lia.
Qed.

Lemma loads_loop_answer_valid (recs : list (Z * Rec.t)) (acc : AddressBook.t) :
  records_valid Answer recs ->
  renumbered acc ->
  map fst recs
  = map Z.of_nat (seq (List.length (AddressBook.records acc)) (List.length recs)) ->
  AddressBook.loads_loop_answer (dump_items Answer recs) acc
  = (AddressBook.Mk (AddressBook.records acc ++ recs)
                    (AddressBook.last_record_id acc + Z.of_nat (List.length recs)),
     Ok tt).
Proof.
  intros H. revert acc. induction H as [|[k r] recs Hr _ IH]; intros acc Hacc Hk.
  - simpl. rewrite app_nil_r, Z.add_0_r. now destruct acc.
  - cbn [dump_items map AddressBook.loads_loop_answer]. simpl in Hr.
    rewrite (@from_json_to_dict Answer r Hr). fold (dump_items Answer recs).
    simpl in Hk. injection Hk as Hk0 Hk.
    destruct (add_below r (renumbered_below Hacc)) as (_ & _ & Hl' & Hr').
    destruct Hacc as [Hkeys Hlast].
    rewrite IH.
    + rewrite Hl', Hr', <- app_assoc. cbn [app List.length].
      rewrite Hk0, Hlast. f_equal. f_equal. lia.
    + unfold renumbered, AddressBook.keys. rewrite Hl', Hr'.
      rewrite map_app, length_app. simpl.
      rewrite Nat.add_1_r, first_ids_succ.
      unfold AddressBook.keys in Hkeys. rewrite Hkeys, Hlast. split; [reflexivity|lia].
    + rewrite Hr', length_app. simpl. now rewrite Nat.add_1_r.
Qed.

Lemma built_renumbered (V : variant) (book : AddressBook.t) :
  built V book -> renumbered book.
Proof.
  induction 1 as [|book r _ IH _]; [split; reflexivity|].
  destruct (add_below r (renumbered_below IH)) as (_ & _ & Hl' & Hr').
  destruct IH as [Hk Hl]. unfold renumbered, AddressBook.keys.
  rewrite Hl', Hr', map_app, length_app. simpl.
  rewrite Nat.add_1_r, first_ids_succ.
  unfold AddressBook.keys in Hk. rewrite Hk, Hl. split; [reflexivity|lia].
Qed.

Lemma built_valid (V : variant) (book : AddressBook.t) :
  built V book -> records_valid V (AddressBook.records book).
Proof.
  induction 1 as [|book r Hb IH Hr]; [constructor|].
  destruct (add_below r (renumbered_below (built_renumbered Hb))) as (_ & _ & _ & E).
  rewrite E. apply Forall_app. split; [exact IH|]. now constructor.
Qed.

Lemma first_ids_NoDup (n : nat) : NoDup (first_ids n).
Proof.
  unfold first_ids. apply Injective_map_NoDup; [|apply seq_NoDup].
  intros a b. apply Nat2Z.inj.
Qed.

(** C1 (as the code has it). Take a book made from the empty one by [add],
    each record holding fields that successful constructor calls of classes
    in the service's registry returned, and in crm.py let the book hold a
    record at least.  Dumping it, loading the text (into any book) and
    dumping again gives the same text, and the load raises nothing. *)
Theorem dump_load_dump (V : variant) (book other : AddressBook.t) :
  built V book ->
  (V = Crm -> AddressBook.records book <> []) ->
  exists book',
    AddressBook.loads V other (AddressBook.dumps V book) = (book', Ok tt)
    /\ AddressBook.records book' = AddressBook.records book
    /\ AddressBook.dumps V book' = AddressBook.dumps V book.
Proof.
  intros Hb Hne. pose proof (built_valid Hb) as Hv.
  pose proof (built_renumbered Hb) as [Hk Hl].
  fold (dump_items V (AddressBook.records book)) in |- *.
  destruct V.
  - unfold AddressBook.loads, AddressBook.dumps, json_dumps, json_loads,
      AddressBook.loads_crm.
    fold (dump_items Crm (AddressBook.records book)).
    rewrite (loads_loop_crm_valid [] Hv).
    + simpl app. destruct (AddressBook.records book) as [|[k r] recs] eqn:E;
        [now elim (Hne eq_refl)|].
      cbn [map fst]. eexists. split; [reflexivity|]. split; reflexivity.
    + simpl. unfold AddressBook.keys in Hk. rewrite Hk. apply first_ids_NoDup.
  - unfold AddressBook.loads, AddressBook.loads_answer, AddressBook.dumps,
      json_dumps, json_loads.
    fold (dump_items Answer (AddressBook.records book)).
    rewrite (loads_loop_answer_valid Hv).
    + eexists. split; [reflexivity|]. split; reflexivity.
    + split; reflexivity.
    + simpl. unfold AddressBook.keys, first_ids in Hk. exact Hk.
Qed.

Lemma dump_load_dump_witness :
  let ada := Rec.Mk [MkField FirstNameField (PStr "Ada") "" "" "";
                     MkField PhoneField (PStr "+380501234567") "38" "050" "1234567"] in
  let book := fst (AddressBook.add AddressBook.init ada) in
  exists book',
    AddressBook.loads Crm AddressBook.init (AddressBook.dumps Crm book) = (book', Ok tt)
    /\ AddressBook.records book' = AddressBook.records book
    /\ AddressBook.dumps Crm book' = AddressBook.dumps Crm book.
Proof.
  intros ada book.
  apply (@dump_load_dump Crm book AddressBook.init).
  - apply built_add; [apply built_init|].
    apply Forall_cons; [|apply Forall_cons; [|apply Forall_nil]].
    + split; [reflexivity|]. exists (PStr "Ada"). reflexivity.
    + split; [reflexivity|]. exists (PStr "050 123 45 67"). vm_compute. reflexivity.
  - discriminate.
Defined.

(** C1 fails as stated. answer.py defines [EmailField] and builds such a
    field from "ada@example.org", but does not register the class: the dump
    of a book holding that field does not load, [field_decoder] raises
    [FieldDecodeError], and the book is left empty. *)
Lemma unregistered_field_does_not_load :
  exists email : Field,
    construct EmailField (PStr "ada@example.org") = Ok email
    /\ let book := fst (AddressBook.add AddressBook.init (Rec.Mk [email])) in
       AddressBook.loads Answer AddressBook.init (AddressBook.dumps Answer book)
       = (AddressBook.init, Raise FieldDecodeError)
       /\ AddressBook.dumps Answer AddressBook.init <> AddressBook.dumps Answer book.
Proof.
  eexists. split; [vm_compute; reflexivity|].
  split; [vm_compute; reflexivity|]. vm_compute. discriminate.
Qed.

(** In crm.py the dump of the empty book does not load either: [max] of no
    ids raises [ValueError]. *)
Lemma empty_book_does_not_load_in_crm (other : AddressBook.t) :
  AddressBook.loads Crm other (AddressBook.dumps Crm AddressBook.init)
  = (AddressBook.Mk [] (AddressBook.last_record_id other), Raise ValueError).
Proof. reflexivity. Qed.

(** * Further properties *)

(** ** E-mail addresses *)

Lemma run_plus_complete (c : cls) (p : nat) (w t : string) (g : list (nat * string)) :
  w <> EmptyString -> all_chars (cls_match c) w = true ->
  In (MState (p + String.length w) t g) (run_plus c p (w ++ t) g).
Proof.
  revert p. induction w as [|a w IH]; intros p Hne Hw; [now elim Hne|].
  simpl in Hw. apply andb_prop in Hw. destruct Hw as [Ha Hw].
  cbn [append run_plus]. rewrite Ha. apply in_or_app.
  destruct w as [|b w].
  - right. left. simpl. f_equal. lia.
  - left. replace (p + String.length (String a (String b w)))%nat
      with (S p + String.length (String b w))%nat by (simpl; lia).
    apply IH; [discriminate|exact Hw].
Qed.

Lemma in_run_plus_iff (c : cls) (st st' : mstate) :
  In st' (run (Plus c) st) <->
  exists w, rest st = (w ++ rest st')%string
            /\ pos st' = (pos st + String.length w)%nat
            /\ groups st' = groups st
            /\ w <> EmptyString
            /\ all_chars (cls_match c) w = true.
Proof.
  split.
  - intros H. now apply in_run_plus in H.
  - intros (w & E & Hp & Hg & Hne & Hw). cbn [run]. rewrite E.
    replace st' with (MState (pos st + String.length w) (rest st') (groups st))
      by (apply mstate_eq; simpl; auto).
    now apply run_plus_complete.
Qed.

Lemma email_regex_matches (s : string) :
  run EMAIL_REGEX (MState 0 s []) <> [] <-> email_shape s.
Proof.
  split.
  - intros H. destruct (run EMAIL_REGEX (MState 0 s [])) as [|st' l] eqn:Hr;
      [now elim H|].
    assert (Hin : In st' (run EMAIL_REGEX (MState 0 s []))) by (rewrite Hr; now left).
    clear Hr H. unfold EMAIL_REGEX in Hin.
    apply in_run_seq in Hin. destruct Hin as (m1 & H1 & Hin).
    apply in_run_plus_iff in H1. destruct H1 as (a & E1 & _ & _ & Na & Ha).
    apply in_run_seq in Hin. destruct Hin as (m2 & H2 & Hin).
    apply in_run_cls in H2. destruct H2 as (x & E2 & Hx & _ & _).
    simpl in Hx. apply Ascii.eqb_eq in Hx. subst x.
    apply in_run_seq in Hin. destruct Hin as (m3 & H3 & Hin).
    apply in_run_plus_iff in H3. destruct H3 as (b & E3 & _ & _ & Nb & Hb).
    apply in_run_seq in Hin. destruct Hin as (m4 & H4 & Hin).
    apply in_run_cls in H4. destruct H4 as (y & E4 & Hy & _ & _).
    simpl in Hy. apply Ascii.eqb_eq in Hy. subst y.
    apply in_run_plus_iff in Hin. destruct Hin as (c & E5 & _ & _ & Nc & Hc).
    exists a, b, c, (rest st'). repeat split; trivial.
    simpl in E1. rewrite E1, E2, E3, E4, E5. reflexivity.
  - intros (a & b & c & t & [Na Ha] & [Nb Hb] & [Nc Hc] & ->).
    set (pa := String.length a). set (pb := (S pa + String.length b)%nat).
    assert (Hin : In (MState (S pb + String.length c) t [])
                     (run EMAIL_REGEX (MState 0 (a ++ "@" ++ b ++ "." ++ c ++ t) []))).
    { unfold EMAIL_REGEX.
      apply in_run_seq. exists (MState pa ("@" ++ b ++ "." ++ c ++ t) []). split.
      { apply in_run_plus_iff. exists a. now repeat split. }
      apply in_run_seq. exists (MState (S pa) (b ++ "." ++ c ++ t) []). split.
      { apply in_run_cls. exists "@"%char. now repeat split. }
      apply in_run_seq. exists (MState pb ("." ++ c ++ t) []). split.
      { apply in_run_plus_iff. exists b. now repeat split. }
      apply in_run_seq. exists (MState (S pb) (c ++ t) []). split.
      { apply in_run_cls. exists "."%char. now repeat split. }
      apply in_run_plus_iff. exists c. now repeat split. }
    intros E. rewrite E in Hin. destruct Hin.
Qed.

(** X1. An e-mail field is built from a string exactly when the string
    starts with: characters other than [@], an [@], characters other than
    [@], a dot, characters other than [@] (one at least each time).  The
    value is then the string itself; otherwise the constructor raises
    [IncorrectInput].  In particular a string without [@] is refused. *)
Theorem email_construction (s : string) :
  (email_shape s ->
   construct EmailField (PStr s) = Ok (MkField EmailField (PStr s) "" "" ""))
  /\ (~ email_shape s -> construct EmailField (PStr s) = Raise IncorrectInput)
  /\ (forall f, construct EmailField (PStr s) = Ok f ->
                email_shape s /\ value f = PStr s)
  /\ (all_chars (cls_match (CNot "@")) s = true ->
      construct EmailField (PStr s) = Raise IncorrectInput).
Proof.
  assert (Hm : re_match EMAIL_REGEX s <> None <-> email_shape s).
  { rewrite <- email_regex_matches. unfold re_match.
    destruct (run EMAIL_REGEX (MState 0 s [])); simpl; split; congruence. }
  assert (Hc : construct EmailField (PStr s)
               = match re_match EMAIL_REGEX s with
                 | Some _ => Ok (MkField EmailField (PStr s) "" "" "")
                 | None => Raise IncorrectInput
                 end).
  { unfold construct, validate. cbn [field_class].
    destruct (re_match EMAIL_REGEX s); reflexivity. }
  assert (H2 : ~ email_shape s -> construct EmailField (PStr s) = Raise IncorrectInput).
  { intros H. rewrite Hc. destruct (re_match EMAIL_REGEX s) eqn:E; [|reflexivity].
    elim H. apply Hm. discriminate. }
  split; [|split; [exact H2|split]].
  - intros H. apply Hm in H. rewrite Hc.
    destruct (re_match EMAIL_REGEX s); [reflexivity|now elim H].
  - intros f. rewrite Hc. destruct (re_match EMAIL_REGEX s) eqn:E; [|discriminate].
    inversion 1; subst. split; [|reflexivity]. apply Hm. discriminate.
  - intros Hno. apply H2. intros (a & b & c & t & _ & _ & _ & ->).
    clear - Hno. induction a as [|x a IH]; simpl in Hno.
    + discriminate.
    + apply andb_prop in Hno. destruct Hno as [_ Hno]. now apply IH.
Qed.

Lemma email_construction_witness :
  construct EmailField (PStr "ada@example.org")
  = Ok (MkField EmailField (PStr "ada@example.org") "" "" "").
Proof.
  apply (proj1 (email_construction "ada@example.org")).
  exists "ada", "example", "org", "". repeat split; discriminate.
Defined.

(** ** Constructors *)

Lemma validate_class (self self' : Field) (v : pyval) (r : res unit) :
  validate self v = (self', r) -> field_class self' = field_class self.
Proof.
  unfold validate. destruct (field_class self) eqn:Hc;
    try (inversion 1; subst; simpl; now rewrite Hc).
  - destruct v; try (inversion 1; subst; now rewrite Hc).
    destruct (re_search PHONE_REGEX _) as [g|];
      [|inversion 1; subst; now rewrite Hc].
    destruct (group 2 g); inversion 1; subst; simpl; now rewrite ?Hc.
  - destruct v; try (inversion 1; subst; now rewrite Hc).
    destruct (re_match EMAIL_REGEX s); inversion 1; subst; simpl; now rewrite ?Hc.
  - destruct (py_float v) as [x|[]]; inversion 1; subst; simpl; now rewrite ?Hc.
Qed.

(** X2. The kinds General, Name, Surname, Organization, City and Skill
    accept any value and keep it as it is.  A constructor given a string
    either returns a field or raises [IncorrectInput], nothing else; given
    anything but a string, [PhoneField] raises [AttributeError] and
    [EmailField] raises [TypeError].  The field returned is of the class
    asked for. *)
Theorem construction_outcomes :
  (forall c v, plain_class c = true -> construct c v = Ok (MkField c v "" "" ""))
  /\ (forall c s e, construct c (PStr s) = Raise e -> e = IncorrectInput)
  /\ (forall v, (forall s, v <> PStr s) ->
                construct PhoneField v = Raise AttributeError
                /\ construct EmailField v = Raise TypeError)
  /\ (forall c v f, construct c v = Ok f -> field_class f = c).
Proof.
  split; [|split; [|split]].
  - intros c v H. destruct c; try discriminate; reflexivity.
  - intros c s e. destruct c; try discriminate.
    + rewrite construct_phone.
      destruct (re_search PHONE_REGEX _) as [g|]; [|now inversion 1].
      destruct (group 2 g); [discriminate|now inversion 1].
    + unfold construct, validate. cbn [field_class].
      destruct (re_match EMAIL_REGEX s); [discriminate|now inversion 1].
    + unfold construct, validate. cbn [field_class py_float].
      destruct (float_of_str s) as [x|e0] eqn:Hf; [discriminate|].
      rewrite (float_of_str_errors _ Hf). now inversion 1.
  - intros v Hv. destruct v; try (split; reflexivity). now elim (Hv s).
  - exact construct_class.
Qed.

Lemma construction_outcomes_witness :
  construct SkillField (PList [PStr "rust"; PInt 3])
  = Ok (MkField SkillField (PList [PStr "rust"; PInt 3]) "" "" "").
Proof. apply (proj1 construction_outcomes). reflexivity. Defined.

(** ** Fields of a record by index *)

Lemma norm_index_ok (len : nat) (i : Z) (n : nat) :
  norm_index len i = Ok n ->
  (n < len)%nat /\ Z.of_nat n = (if i <? 0 then i + Z.of_nat len else i).
Proof.
  unfold norm_index.
  destruct ((0 <=? (if i <? 0 then i + Z.of_nat len else i))
            && ((if i <? 0 then i + Z.of_nat len else i) <? Z.of_nat len)) eqn:H;
    [|discriminate].
  inversion 1; subst. apply andb_prop in H. destruct H as [H1 H2].
  apply Z.leb_le in H1. apply Z.ltb_lt in H2. lia.
Qed.

Lemma norm_index_in_range (len : nat) (i : Z) :
  - Z.of_nat len <= i < Z.of_nat len ->
  norm_index len i
  = Ok (Z.to_nat (if i <? 0 then i + Z.of_nat len else i)).
Proof.
  intros H. unfold norm_index.
  set (j := if i <? 0 then i + Z.of_nat len else i).
  assert (Hj : 0 <= j < Z.of_nat len) by (subst j; destruct (Z.ltb_spec i 0); lia).
  destruct Hj as [H1 H2]. apply Z.leb_le in H1. apply Z.ltb_lt in H2.
  now rewrite H1, H2.
Qed.

Lemma norm_index_out_of_range (len : nat) (i : Z) :
  i < - Z.of_nat len \/ Z.of_nat len <= i ->
  norm_index len i = Raise IndexError.
Proof.
  intros H. unfold norm_index.
  set (j := if i <? 0 then i + Z.of_nat len else i).
  assert (Hj : j < 0 \/ Z.of_nat len <= j) by (subst j; destruct (Z.ltb_spec i 0); lia).
  destruct Hj as [Hj|Hj].
  - apply Z.leb_gt in Hj. now rewrite Hj.
  - apply Z.ltb_ge in Hj. rewrite Hj. now rewrite andb_false_r.
Qed.

Lemma list_del_length {A : Type} (l : list A) (n : nat) :
  (n < List.length l)%nat -> List.length (list_del l n) = pred (List.length l).
Proof.
  revert n. induction l as [|a l IH]; intros [|n] H; simpl in *; try lia.
  rewrite IH by lia. destruct l; simpl in *; lia.
Qed.

Lemma list_del_nth {A : Type} (l : list A) (n k : nat) :
  nth_error (list_del l n) k
  = if (k <? n)%nat then nth_error l k else nth_error l (S k).
Proof.
  revert n k. induction l as [|a l IH]; intros n k.
  - destruct n, k; simpl; try reflexivity;
      destruct (Nat.ltb _ _); reflexivity.
  - destruct n as [|n]; [reflexivity|]. destruct k as [|k]; [reflexivity|].
    simpl. rewrite IH. change (S k <? S n)%nat with (k <? n)%nat. reflexivity.
Qed.

Lemma list_set_length {A : Type} (l : list A) (n : nat) (x : A) :
  List.length (list_set l n x) = List.length l.
Proof.
  revert n. induction l as [|a l IH]; intros [|n]; simpl; trivial. now rewrite IH.
Qed.

Lemma list_set_nth_same {A : Type} (l : list A) (n : nat) (x : A) :
  (n < List.length l)%nat -> nth_error (list_set l n x) n = Some x.
Proof.
  revert n. induction l as [|a l IH]; intros [|n] H; simpl in *; try lia; trivial.
  apply IH. lia.
Qed.

Lemma list_set_nth_other {A : Type} (l : list A) (n k : nat) (x : A) :
  k <> n -> nth_error (list_set l n x) k = nth_error l k.
Proof.
  revert n k. induction l as [|a l IH]; intros [|n] [|k] H; simpl; trivial;
    try congruence. apply IH. congruence.
Qed.

Lemma fits_ssize_spec (i : Z) : fits_ssize i = true <-> - 2 ^ 63 <= i < 2 ^ 63.
Proof. unfold fits_ssize. now rewrite andb_true_iff, Z.leb_le, Z.ltb_lt. Qed.

Lemma fits_ssize_not (i : Z) : fits_ssize i = false <-> i < - 2 ^ 63 \/ 2 ^ 63 <= i.
Proof.
  unfold fits_ssize. rewrite andb_false_iff, Z.leb_gt, Z.ltb_ge. reflexivity.
Qed.

(** X3. [delete] with an integer index in range (a negative index counts
    from the end) succeeds and removes that field: the record is one field
    shorter, the fields before the index keep their index and each field
    after it moves down by one; and [delete] succeeds in no other way,
    whatever it is given as index.  With an integer out of range it raises
    [IndexError], with an integer that does not fit 64 bits
    [OverflowError]; whenever it raises, the record is unchanged. *)
Theorem delete_shifts_down (self : Rec.t) :
  (forall i, - Rec.len self <= i < Rec.len self -> - 2 ^ 63 <= i < 2 ^ 63 ->
     exists n self',
       Z.of_nat n = (if i <? 0 then i + Rec.len self else i)
       /\ Rec.delete self (PInt i) = (self', Ok tt)
       /\ Rec.len self' = Rec.len self - 1
       /\ forall k, nth_error (Rec.fields self') k
                    = if (k <? n)%nat then nth_error (Rec.fields self) k
                      else nth_error (Rec.fields self) (S k))
  /\ (forall idx self', Rec.delete self idx = (self', Ok tt) ->
       exists (i : Z) (n : nat),
         py_int idx = Ok i
         /\ - Rec.len self <= i < Rec.len self
         /\ - 2 ^ 63 <= i < 2 ^ 63
         /\ Z.of_nat n = (if i <? 0 then i + Rec.len self else i)
         /\ Rec.len self' = Rec.len self - 1
         /\ forall k, nth_error (Rec.fields self') k
                      = if (k <? n)%nat then nth_error (Rec.fields self) k
                        else nth_error (Rec.fields self) (S k))
  /\ (forall idx self' e, Rec.delete self idx = (self', Raise e) -> self' = self)
  /\ (forall i, - 2 ^ 63 <= i < 2 ^ 63 ->
                i < - Rec.len self \/ Rec.len self <= i ->
                Rec.delete self (PInt i) = (self, Raise IndexError))
  /\ (forall i, i < - 2 ^ 63 \/ 2 ^ 63 <= i ->
                Rec.delete self (PInt i) = (self, Raise OverflowError)).
Proof.
  unfold Rec.delete, index_error_decorator, Rec.len.
  split; [|split; [|split; [|split]]].
  - intros i Hi Hs. apply fits_ssize_spec in Hs. cbn [py_int bind]. rewrite Hs.
    rewrite (norm_index_in_range _ Hi).
    set (n := Z.to_nat (if i <? 0 then i + Z.of_nat (List.length (Rec.fields self)) else i)).
    assert (Hn : (n < List.length (Rec.fields self))%nat)
      by (subst n; destruct (Z.ltb_spec i 0); lia).
    exists n, (Rec.Mk (list_del (Rec.fields self) n)).
    cbn [fst snd reraise Rec.fields]. rewrite (list_del_length _ Hn).
    split; [subst n; destruct (Z.ltb_spec i 0); lia|].
    split; [reflexivity|]. split; [lia|]. intros k. apply list_del_nth.
  - intros idx self'. destruct (py_int idx) as [i|e]; cbn [bind fst snd];
      [|destruct e; discriminate].
    destruct (fits_ssize i) eqn:Hs; [|discriminate].
    destruct (norm_index (List.length (Rec.fields self)) i) as [n|e] eqn:Hn;
      cbn [fst snd reraise]; [|destruct e; discriminate].
    inversion 1; subst. apply norm_index_ok in Hn. destruct Hn as [Hlt Hn].
    apply fits_ssize_spec in Hs.
    exists i, n. cbn [Rec.fields]. rewrite (list_del_length _ Hlt).
    split; [reflexivity|]. split; [destruct (Z.ltb_spec i 0); lia|].
    split; [exact Hs|]. split; [exact Hn|]. split; [lia|].
    intros k. apply list_del_nth.
  - intros idx self' e. destruct (py_int idx) as [i|e0]; cbn [bind fst snd];
      [|now inversion 1].
    destruct (fits_ssize i); [|now inversion 1].
    destruct (norm_index (List.length (Rec.fields self)) i) as [n|e1];
      cbn [fst snd reraise]; [discriminate|now inversion 1].
  - intros i Hs H. apply fits_ssize_spec in Hs. cbn [py_int bind]. rewrite Hs.
    now rewrite norm_index_out_of_range.
  - intros i Hs. apply fits_ssize_not in Hs. cbn [py_int bind]. now rewrite Hs.
Qed.

Lemma delete_shifts_down_witness :
  let a := MkField FirstNameField (PStr "Ada") "" "" "" in
  let b := MkField CityField (PStr "Kyiv") "" "" "" in
  let c := MkField SkillField (PStr "rust") "" "" "" in
  exists n self',
    Z.of_nat n = 0
    /\ Rec.delete (Rec.Mk [a; b; c]) (PInt 0) = (self', Ok tt)
    /\ Rec.len self' = 2
    /\ forall k, nth_error (Rec.fields self') k
                 = if (k <? n)%nat then nth_error [a; b; c] k
                   else nth_error [a; b; c] (S k).
Proof.
  intros a b c.
  apply (proj1 (delete_shifts_down (Rec.Mk [a; b; c])) 0).
  - unfold Rec.len. simpl. lia.
  - split; [discriminate|reflexivity].
Defined.

(** X4. [replace] with an integer index in range puts the new field at that
    position and touches nothing else: same length, every other index holds
    the field it held.  The index is not converted: a string index, even a
    numeric one, raises [TypeError]; an integer out of range raises
    [IndexError]; whenever it raises the record is unchanged. *)
Theorem replace_in_place (self : Rec.t) (field_item : Field) :
  (forall i, - Rec.len self <= i < Rec.len self ->
     exists n self',
       Z.of_nat n = (if i <? 0 then i + Rec.len self else i)
       /\ Rec.replace self (PInt i) field_item = (self', Ok tt)
       /\ Rec.len self' = Rec.len self
       /\ nth_error (Rec.fields self') n = Some field_item
       /\ forall k, k <> n ->
                    nth_error (Rec.fields self') k = nth_error (Rec.fields self) k)
  /\ (forall s, Rec.replace self (PStr s) field_item = (self, Raise TypeError))
  /\ (forall i, i < - Rec.len self \/ Rec.len self <= i ->
                Rec.replace self (PInt i) field_item = (self, Raise IndexError))
  /\ (forall index self' e,
         Rec.replace self index field_item = (self', Raise e) -> self' = self).
Proof.
  unfold Rec.len. split; [|split; [|split]].
  - intros i Hi. unfold Rec.replace, index_error_decorator. cbn [py_int bind].
    rewrite (norm_index_in_range _ Hi).
    set (n := Z.to_nat (if i <? 0 then i + Z.of_nat (List.length (Rec.fields self)) else i)).
    assert (Hn : (n < List.length (Rec.fields self))%nat)
      by (subst n; destruct (Z.ltb_spec i 0); lia).
    exists n, (Rec.Mk (list_set (Rec.fields self) n field_item)).
    cbn [fst snd reraise Rec.fields]. rewrite list_set_length.
    repeat split; trivial.
    + subst n. destruct (Z.ltb_spec i 0); lia.
    + now apply list_set_nth_same.
    + intros k Hk. now apply list_set_nth_other.
  - reflexivity.
  - intros i H. unfold Rec.replace, index_error_decorator. cbn [py_int bind].
    now rewrite norm_index_out_of_range.
  - intros index self' e. unfold Rec.replace, index_error_decorator.
    destruct index; cbn [fst snd reraise]; try (now inversion 1);
      destruct (let* i := py_int _ in norm_index _ i) as [n|e0];
      cbn [fst snd reraise]; try discriminate; now inversion 1.
Qed.

Lemma replace_in_place_witness :
  let a := MkField FirstNameField (PStr "Ada") "" "" "" in
  let b := MkField CityField (PStr "Kyiv") "" "" "" in
  let c := MkField SkillField (PStr "rust") "" "" "" in
  exists n self',
    Z.of_nat n = 1
    /\ Rec.replace (Rec.Mk [a; b]) (PInt (-1)) c = (self', Ok tt)
    /\ Rec.len self' = 2
    /\ nth_error (Rec.fields self') n = Some c
    /\ forall k, k <> n -> nth_error (Rec.fields self') k = nth_error [a; b] k.
Proof.
  intros a b c.
  apply (proj1 (replace_in_place (Rec.Mk [a; b]) c) (-1)).
  unfold Rec.len. simpl. lia.
Defined.

Lemma getitem_in_range (self : Rec.t) (i : Z) :
  - Rec.len self <= i < Rec.len self ->
  Rec.getitem self (PInt i)
  = match nth_error (Rec.fields self)
                    (Z.to_nat (if i <? 0 then i + Rec.len self else i)) with
    | Some field => Ok field
    | None => Raise IndexError
    end.
Proof.
  unfold Rec.len, Rec.getitem. intros H. cbn [py_int bind].
  now rewrite (norm_index_in_range _ H).
Qed.

Lemma add_read_back (self : Rec.t) (field_item : Field) :
  let self' := Rec.Mk (Rec.fields self ++ [field_item]) in
  Rec.len self' = Rec.len self + 1
  /\ Rec.getitem self' (PInt (Rec.len self)) = Ok field_item
  /\ Rec.getitem self' (PInt (-1)) = Ok field_item
  /\ forall k, 0 <= k < Rec.len self ->
               Rec.getitem self' (PInt k) = Rec.getitem self (PInt k).
Proof.
  intros self'. subst self'.
  assert (Hlen : Rec.len (Rec.Mk (Rec.fields self ++ [field_item])) = Rec.len self + 1).
  { unfold Rec.len. cbn [Rec.fields]. rewrite length_app. simpl. lia. }
  assert (Hpos : 0 <= Rec.len self) by (unfold Rec.len; lia).
  split; [exact Hlen|]. split; [|split].
  - rewrite getitem_in_range by lia.
    destruct (Z.ltb_spec (Rec.len self) 0); [lia|].
    unfold Rec.len. rewrite Nat2Z.id. cbn [Rec.fields].
    rewrite nth_error_app2 by lia. now rewrite Nat.sub_diag.
  - rewrite getitem_in_range by lia. rewrite Hlen.
    change (-1 <? 0) with true. cbv iota.
    replace (Z.to_nat (-1 + (Rec.len self + 1)))
      with (List.length (Rec.fields self)) by (unfold Rec.len; lia).
    cbn [Rec.fields]. rewrite nth_error_app2 by lia. now rewrite Nat.sub_diag.
  - intros k Hk. rewrite !getitem_in_range by lia.
    destruct (Z.ltb_spec k 0); [lia|].
    cbn [Rec.fields]. rewrite nth_error_app1; [reflexivity|].
    unfold Rec.len in Hk. lia.
Qed.

(** [index] finds the first position of an object that the list holds. *)
Lemma index_first (x : nat) (l : list nat) :
  In x l ->
  exists idx : nat,
    Obj.index x l = Ok (Z.of_nat idx)
    /\ nth_error l idx = Some x
    /\ forall k, (k < idx)%nat -> nth_error l k <> Some x.
Proof.
  induction l as [|y l IH]; [intros []|].
  intros H. cbn [Obj.index]. destruct (Nat.eqb_spec y x) as [->|Hne].
  - exists O. split; [reflexivity|]. split; [reflexivity|]. intros k Hk. lia.
  - destruct H as [H|H]; [congruence|].
    destruct (IH H) as (idx & Hi & Hn & Hf).
    exists (S idx). rewrite Hi. cbn [bind].
    split; [f_equal; lia|]. split; [exact Hn|].
    intros [|k] Hk; simpl; [congruence|]. apply Hf. lia.
Qed.

(** X5. [add] appends the object and never raises.  The index it returns
    is the first position at which the record then holds that very object:
    the old length for an object the record did not hold, an earlier
    position for an object it held already (added again, it is found where
    it was first).  For an object the record did not hold, the states of the
    fields follow [Rec.add].  Either way the record of states is one longer,
    read at the old length (and at -1) it gives the state of the added
    object, and every index that was valid reads as before. *)
Theorem add_then_getitem (h : Obj.heap) (self : Obj.t) (field_item : nat) :
  (exists idx : nat,
      Obj.add self field_item
      = (Obj.Mk (Obj.fields self ++ [field_item]), Ok (Z.of_nat idx))
      /\ nth_error (Obj.fields self ++ [field_item]) idx = Some field_item
      /\ (forall k, (k < idx)%nat ->
                    nth_error (Obj.fields self ++ [field_item]) k <> Some field_item)
      /\ (In field_item (Obj.fields self) -> Z.of_nat idx < Obj.len self)
      /\ (~ In field_item (Obj.fields self) -> Z.of_nat idx = Obj.len self))
  /\ (~ In field_item (Obj.fields self) ->
      Rec.add (Obj.states h self) (h field_item)
      = (Obj.states h (fst (Obj.add self field_item)),
         snd (Obj.add self field_item)))
  /\ Rec.len (Obj.states h (fst (Obj.add self field_item)))
     = Rec.len (Obj.states h self) + 1
  /\ Rec.getitem (Obj.states h (fst (Obj.add self field_item)))
                 (PInt (Rec.len (Obj.states h self)))
     = Ok (h field_item)
  /\ Rec.getitem (Obj.states h (fst (Obj.add self field_item))) (PInt (-1))
     = Ok (h field_item)
  /\ (forall k, 0 <= k < Rec.len (Obj.states h self) ->
                Rec.getitem (Obj.states h (fst (Obj.add self field_item))) (PInt k)
                = Rec.getitem (Obj.states h self) (PInt k)).
Proof.
  assert (Hin : In field_item (Obj.fields self ++ [field_item]))
    by (apply in_or_app; right; now left).
  destruct (index_first _ _ Hin) as (idx & Hi & Hn & Hf).
  assert (Hold : In field_item (Obj.fields self) ->
                 (idx < List.length (Obj.fields self))%nat).
  { intros H. apply In_nth_error in H. destruct H as [p Hp].
    assert (Hlt : (p < List.length (Obj.fields self))%nat)
      by (apply nth_error_Some; congruence).
    destruct (Nat.lt_ge_cases p idx) as [Hlt'|Hge]; [|lia].
    elim (Hf p Hlt'). now rewrite nth_error_app1. }
  assert (Hnew : ~ In field_item (Obj.fields self) ->
                 idx = List.length (Obj.fields self)).
  { intros H.
    assert (Hlt : (idx < List.length (Obj.fields self ++ [field_item]))%nat)
      by (apply nth_error_Some; congruence).
    rewrite length_app in Hlt. simpl in Hlt.
    destruct (Nat.lt_ge_cases idx (List.length (Obj.fields self))) as [Hlt'|Hge]; [|lia].
    elim H. apply nth_error_In with (n := idx).
    now rewrite nth_error_app1 in Hn. }
  split; [|split].
  - exists idx. unfold Obj.add, Obj.len. cbn [Obj.fields]. rewrite Hi.
    split; [reflexivity|]. split; [exact Hn|]. split; [exact Hf|].
    split; intros H; [apply Hold in H|apply Hnew in H]; lia.
  - intros H. unfold Obj.add, Rec.add, Obj.states. cbn [fst snd Obj.fields Rec.fields].
    rewrite Hi, (Hnew H), map_app, length_map. reflexivity.
  - unfold Obj.add, Obj.states. cbn [fst Obj.fields]. rewrite map_app.
    exact (add_read_back (Rec.Mk (map h (Obj.fields self))) (h field_item)).
Qed.

Lemma add_then_getitem_witness :
  let ada := MkField FirstNameField (PStr "Ada") "" "" "" in
  let kyiv := MkField CityField (PStr "Kyiv") "" "" "" in
  let h := fun a : nat => match a with O => ada | _ => kyiv end in
  Rec.add (Rec.Mk [ada]) kyiv = (Rec.Mk [ada; kyiv], Ok 1).
Proof.
  intros ada kyiv h.
  refine (proj1 (proj2 (add_then_getitem h (Obj.Mk [O]) 1%nat)) _).
  simpl. intros [H|[]]. discriminate.
Defined.

(** An object that sits twice in a record: added again, it is found where
    it was first, not where it was appended. *)
Lemma add_again_finds_first :
  Obj.add (Obj.Mk [7; 8]%nat) 7%nat = (Obj.Mk [7; 8; 7]%nat, Ok 0).
Proof. reflexivity. Qed.

Lemma map_update_distinct (h : Obj.heap) (l : list nat) (n a : nat) (x : Field) :
  NoDup l -> nth_error l n = Some a ->
  map (fun b => if Nat.eqb b a then x else h b) l = list_set (map h l) n x.
Proof.
  intros Hnd. revert n.
  induction Hnd as [|y l Hy Hnd IH]; intros [|n] H; simpl in *; try discriminate.
  - inversion H; subst. rewrite Nat.eqb_refl. f_equal.
    apply map_ext_in. intros b Hb.
    destruct (Nat.eqb_spec b a) as [->|_]; [contradiction|reflexivity].
  - destruct (Nat.eqb_spec y a) as [->|_].
    + elim Hy. now apply nth_error_In with (n := n).
    + f_equal. now apply IH.
Qed.

(** A successful [update] of a record of states: the field at the index is
    what [validate] makes of it, in place. *)
Lemma update_in_place (self self' : Rec.t) (field_idx v : pyval) :
  Rec.update self field_idx v = (self', Ok tt) ->
  exists (i : Z) (n : nat) (old new : Field),
    py_int field_idx = Ok i
    /\ - Rec.len self <= i < Rec.len self
    /\ Z.of_nat n = (if i <? 0 then i + Rec.len self else i)
    /\ nth_error (Rec.fields self) n = Some old
    /\ nth_error (Rec.fields self') n = Some new
    /\ validate old v = (new, Ok tt)
    /\ field_class new = field_class old
    /\ Rec.len self' = Rec.len self
    /\ forall k, k <> n ->
                 nth_error (Rec.fields self') k = nth_error (Rec.fields self) k.
Proof.
  unfold Rec.update, index_error_decorator, Rec.len.
  destruct (py_int field_idx) as [i|e]; cbn [bind fst snd reraise];
    [|destruct e; discriminate].
  destruct (norm_index (List.length (Rec.fields self)) i) as [n|e] eqn:Hn;
    cbn [fst snd reraise]; [|destruct e; discriminate].
  destruct (nth_error (Rec.fields self) n) as [old|] eqn:Ho;
    cbn [fst snd reraise]; [|discriminate].
  destruct (validate old v) as [new r] eqn:Hv. cbn [fst snd].
  destruct r as [[]|e]; cbn [reraise]; [|destruct e; discriminate].
  inversion 1; subst. exists i, n, old, new. cbn [Rec.fields].
  apply norm_index_ok in Hn. destruct Hn as [Hlt Hn].
  rewrite list_set_length.
  split; [reflexivity|]. split; [destruct (Z.ltb_spec i 0); lia|].
  split; [exact Hn|]. split; [exact Ho|].
  split; [now apply list_set_nth_same|]. split; [exact Hv|].
  split; [exact (validate_class _ _ Hv)|]. split; [reflexivity|].
  intros k Hk. now apply list_set_nth_other.
Qed.

(** X6. [update] with an integer index in range (a negative index counts
    from the end), when the object at that index accepts the value, succeeds
    and changes that object and no other: the object keeps its class (so its
    kind) and becomes what [validate] makes of it; and [update] succeeds in
    no other way, whatever it is given as index.  In a record of distinct
    objects the states follow [Rec.update] whatever the outcome, so that a
    successful update keeps the length, changes the field at the index and
    leaves every other field as it was. *)
Theorem update_keeps_kind (h : Obj.heap) (self : Obj.t) (v : pyval) :
  (forall (i : Z) (n a : nat) (new : Field),
      - Obj.len self <= i < Obj.len self ->
      Z.of_nat n = (if i <? 0 then i + Obj.len self else i) ->
      nth_error (Obj.fields self) n = Some a ->
      validate (h a) v = (new, Ok tt) ->
      exists h' : Obj.heap,
        Obj.update h self (PInt i) v = (h', Ok tt)
        /\ h' a = new
        /\ field_class new = field_class (h a)
        /\ forall b, b <> a -> h' b = h b)
  /\ (forall (field_idx : pyval) (h' : Obj.heap),
         Obj.update h self field_idx v = (h', Ok tt) ->
         exists (i : Z) (n a : nat),
           py_int field_idx = Ok i
           /\ - Obj.len self <= i < Obj.len self
           /\ Z.of_nat n = (if i <? 0 then i + Obj.len self else i)
           /\ nth_error (Obj.fields self) n = Some a
           /\ validate (h a) v = (h' a, Ok tt)
           /\ field_class (h' a) = field_class (h a)
           /\ forall b, b <> a -> h' b = h b)
  /\ (NoDup (Obj.fields self) ->
      forall field_idx : pyval,
        Rec.update (Obj.states h self) field_idx v
        = (Obj.states (fst (Obj.update h self field_idx v)) self,
           snd (Obj.update h self field_idx v)))
  /\ (NoDup (Obj.fields self) ->
      forall (field_idx : pyval) (h' : Obj.heap),
        Obj.update h self field_idx v = (h', Ok tt) ->
        exists (i : Z) (n : nat) (old new : Field),
          py_int field_idx = Ok i
          /\ Z.of_nat n = (if i <? 0 then i + Obj.len self else i)
          /\ nth_error (Rec.fields (Obj.states h self)) n = Some old
          /\ nth_error (Rec.fields (Obj.states h' self)) n = Some new
          /\ validate old v = (new, Ok tt)
          /\ field_class new = field_class old
          /\ Rec.len (Obj.states h' self) = Rec.len (Obj.states h self)
          /\ forall k, k <> n ->
                       nth_error (Rec.fields (Obj.states h' self)) k
                       = nth_error (Rec.fields (Obj.states h self)) k).
Proof.
  assert (Hrefine : NoDup (Obj.fields self) ->
            forall field_idx : pyval,
              Rec.update (Obj.states h self) field_idx v
              = (Obj.states (fst (Obj.update h self field_idx v)) self,
                 snd (Obj.update h self field_idx v))).
  { intros Hnd field_idx.
    unfold Rec.update, Obj.update, index_error_decorator, Obj.states.
    cbn [Rec.fields]. rewrite length_map.
    destruct (let* i := py_int field_idx in
              norm_index (List.length (Obj.fields self)) i) as [n|e];
      cbn [fst snd]; [|reflexivity].
    rewrite nth_error_map.
    destruct (nth_error (Obj.fields self) n) as [a|] eqn:Ha;
      cbn [option_map fst snd]; [|reflexivity].
    destruct (validate (h a) v) as [new r]. cbn [fst snd].
    now rewrite (@map_update_distinct h (Obj.fields self) n a new Hnd Ha). }
  split; [|split; [|split]].
  - intros i n a new Hi Hn Ha Hv. unfold Obj.len in *.
    unfold Obj.update, index_error_decorator. cbn [py_int bind].
    rewrite (norm_index_in_range _ Hi).
    replace (Z.to_nat (if i <? 0
                       then i + Z.of_nat (List.length (Obj.fields self)) else i))
      with n by lia.
    rewrite Ha, Hv. cbn [fst snd reraise].
    eexists. split; [reflexivity|]. cbv beta. rewrite Nat.eqb_refl.
    split; [reflexivity|]. split; [exact (validate_class _ _ Hv)|].
    intros b Hb. apply Nat.eqb_neq in Hb. now rewrite Hb.
  - intros field_idx h'. unfold Obj.update, index_error_decorator, Obj.len.
    destruct (py_int field_idx) as [i|e]; cbn [bind fst snd reraise];
      [|destruct e; discriminate].
    destruct (norm_index (List.length (Obj.fields self)) i) as [n|e] eqn:Hn;
      cbn [fst snd reraise]; [|destruct e; discriminate].
    destruct (nth_error (Obj.fields self) n) as [a|] eqn:Ha;
      cbn [fst snd reraise]; [|discriminate].
    destruct (validate (h a) v) as [new r] eqn:Hv. cbn [fst snd].
    destruct r as [[]|e]; cbn [reraise]; [|destruct e; discriminate].
    inversion 1; subst. exists i, n, a.
    apply norm_index_ok in Hn. destruct Hn as [Hlt Hn].
    rewrite Nat.eqb_refl.
    split; [reflexivity|]. split; [destruct (Z.ltb_spec i 0); lia|].
    split; [exact Hn|]. split; [exact Ha|]. split; [exact Hv|].
    split; [exact (validate_class _ _ Hv)|].
    intros b Hb. apply Nat.eqb_neq in Hb. now rewrite Hb.
  - exact Hrefine.
  - intros Hnd field_idx h' Hu.
    pose proof (Hrefine Hnd field_idx) as R. rewrite Hu in R. cbn [fst snd] in R.
    destruct (update_in_place R)
      as (i & n & old & new & Hi & _ & Hn & Ho & Hnew & Hv & Hc & Hl & Hk).
    exists i, n, old, new.
    assert (El : Rec.len (Obj.states h self) = Obj.len self)
      by (unfold Rec.len, Obj.len, Obj.states; cbn [Rec.fields]; now rewrite length_map).
    rewrite El in Hn. repeat (split; [assumption|]). exact Hk.
Qed.

Lemma update_keeps_kind_witness :
  let phone := MkField PhoneField (PStr "+380501234567") "38" "050" "1234567" in
  let city := MkField CityField (PStr "Kyiv") "" "" "" in
  let new := MkField PhoneField (PStr "+380677654321") "38" "067" "7654321" in
  let h := fun a : nat => match a with O => phone | _ => city end in
  exists h' : Obj.heap,
    Obj.update h (Obj.Mk [0; 1]%nat) (PInt (-2)) (PStr "067 765 43 21") = (h', Ok tt)
    /\ h' O = new
    /\ field_class new = field_class (h O)
    /\ forall b, b <> O -> h' b = h b.
Proof.
  intros phone city new h.
  apply (proj1 (update_keeps_kind h (Obj.Mk [0; 1]%nat) (PStr "067 765 43 21"))
               (-2) O O new).
  - unfold Obj.len. simpl. lia.
  - reflexivity.
  - reflexivity.
  - vm_compute. reflexivity.
Defined.

Lemma int_of_str_errors (s : string) (e : exn) :
  int_of_str s = Raise e -> e = ValueError.
Proof.
  unfold int_of_str.
  destruct (strip_underscores false (number_strip s)) as [t|]; [|now inversion 1].
  destruct (split_sign t) as [neg ds].
  destruct ds; [now inversion 1|].
  destruct (NilEmpty.uint_of_string _); [discriminate|now inversion 1].
Qed.

Lemma rev_string_acc (s acc : string) :
  rev_string s acc = (rev_string s "" ++ acc)%string.
Proof.
  revert acc. induction s as [|a s IH]; intros acc; simpl; [reflexivity|].
  rewrite (IH (String a acc)), (IH (String a "")), append_assoc. reflexivity.
Qed.

Lemma rev_string_app (u w acc : string) :
  rev_string (u ++ w) acc = rev_string w (rev_string u acc).
Proof.
  revert acc. induction u as [|a u IH]; intros acc; simpl; [reflexivity|]. apply IH.
Qed.

Lemma number_lstrip_keeps (c : ascii) (u w : string) :
  is_number_space c = false ->
  exists u', number_lstrip (u ++ String c w) = (u' ++ String c w)%string.
Proof.
  intros Hc. induction u as [|a u IH]; simpl.
  - rewrite Hc. now exists "".
  - destruct (is_number_space a); [exact IH|]. now exists (String a u).
Qed.

(** A first character that is not white space stays first. *)
Lemma number_strip_first (c : ascii) (s : string) :
  is_number_space c = false ->
  exists t, number_strip (String c s) = String c t.
Proof.
  intros Hc. unfold number_strip. cbn [number_lstrip]. rewrite Hc.
  cbn [rev_string]. rewrite (rev_string_acc s (String c "")).
  destruct (@number_lstrip_keeps c (rev_string s "") "" Hc) as [u' ->].
  rewrite rev_string_app. cbn [rev_string]. now eexists.
Qed.

Lemma control_char_facts (c : ascii) :
  (28 <= nat_of_ascii c <= 31)%nat ->
  is_number_space c = false
  /\ Ascii.eqb c "_" = false
  /\ (forall t, split_sign (String c t) = (false, String c t))
  /\ (forall t, NilEmpty.uint_of_string (String c t) = None).
Proof.
  intros Hc.
  destruct c as [[] [] [] [] [] [] [] []]; compute in Hc; try lia;
    (split; [reflexivity|]; split; [reflexivity|]; split; [reflexivity|];
     intros t; simpl; destruct (NilEmpty.uint_of_string t); reflexivity).
Qed.

(** U+001C to U+001F do not start an integer. *)
Lemma control_char_not_int (c : ascii) (s : string) :
  (28 <= nat_of_ascii c <= 31)%nat -> int_of_str (String c s) = Raise ValueError.
Proof.
  intros Hc. destruct (control_char_facts c Hc) as (Hsp & Hu & Hss & Hns).
  unfold int_of_str. destruct (@number_strip_first c s Hsp) as [t ->].
  cbn [strip_underscores]. rewrite Hu.
  destruct (strip_underscores (is_digit c) t) as [t'|]; cbn [option_map];
    [|reflexivity].
  rewrite Hss, Hns. reflexivity.
Qed.

(** X7. [delete] and [update] of a record and [delete] of the address book
    convert their index: the decimal text of an integer of at most 4300
    digits (what CPython 3.11 converts by default) does what the integer
    does, and a string that does not read as an integer raises
    [IncorrectInput] and changes nothing.  U+001C to U+001F are not white
    space for the conversion: a text that starts with one of them is not an
    integer. *)
Theorem string_index_is_converted (self : Rec.t) (book : AddressBook.t) :
  (forall (i : Z) (v : pyval),
      (String.length (str_of_int (Z.abs i)) <= 4300)%nat ->
      Rec.delete self (PStr (str_of_int i)) = Rec.delete self (PInt i)
      /\ Rec.update self (PStr (str_of_int i)) v = Rec.update self (PInt i) v
      /\ AddressBook.delete book (PStr (str_of_int i)) = AddressBook.delete book (PInt i))
  /\ (forall (s : string) (v : pyval),
         (forall i, int_of_str s <> Ok i) ->
         Rec.delete self (PStr s) = (self, Raise IncorrectInput)
         /\ Rec.update self (PStr s) v = (self, Raise IncorrectInput)
         /\ AddressBook.delete book (PStr s) = (book, Raise IncorrectInput))
  /\ (forall (c : ascii) (s : string) (v : pyval),
         (28 <= nat_of_ascii c <= 31)%nat ->
         Rec.delete self (PStr (String c s)) = (self, Raise IncorrectInput)
         /\ Rec.update self (PStr (String c s)) v = (self, Raise IncorrectInput)
         /\ AddressBook.delete book (PStr (String c s))
            = (book, Raise IncorrectInput)).
Proof.
  assert (Hbad : forall (s : string) (v : pyval),
            (forall i, int_of_str s <> Ok i) ->
            Rec.delete self (PStr s) = (self, Raise IncorrectInput)
            /\ Rec.update self (PStr s) v = (self, Raise IncorrectInput)
            /\ AddressBook.delete book (PStr s) = (book, Raise IncorrectInput)).
  { intros s v Hs. unfold Rec.delete, Rec.update, AddressBook.delete,
      index_error_decorator. cbn [py_int].
    destruct (int_of_str s) as [i|e] eqn:E; [now elim (Hs i)|].
    rewrite (int_of_str_errors _ E). repeat split. }
  split; [|split].
  - intros i v _. unfold Rec.delete, Rec.update, AddressBook.delete.
    cbn [py_int]. rewrite int_of_str_of_int. repeat split.
  - exact Hbad.
  - intros c s v Hc. apply Hbad. intros i.
    rewrite (control_char_not_int c s Hc). discriminate.
Qed.

Lemma string_index_is_converted_witness :
  let a := MkField FirstNameField (PStr "Ada") "" "" "" in
  (Rec.delete (Rec.Mk [a]) (PStr "0") = Rec.delete (Rec.Mk [a]) (PInt 0)
   /\ Rec.update (Rec.Mk [a]) (PStr "0") PNone = Rec.update (Rec.Mk [a]) (PInt 0) PNone
   /\ AddressBook.delete AddressBook.init (PStr "0")
      = AddressBook.delete AddressBook.init (PInt 0))
  /\ Rec.delete (Rec.Mk [a]) (PStr "first") = (Rec.Mk [a], Raise IncorrectInput)
  /\ Rec.delete (Rec.Mk [a]) (PStr (String (ascii_of_nat 28) "0"))
     = (Rec.Mk [a], Raise IncorrectInput).
Proof.
  intros a.
  pose proof (string_index_is_converted (Rec.Mk [a]) AddressBook.init) as (H1 & H2 & H3).
  split; [|split].
  - apply (H1 0 PNone). apply Nat.leb_le. reflexivity.
  - apply (H2 "first" PNone). intros i. vm_compute. discriminate.
  - apply (H3 (ascii_of_nat 28) "0" PNone).
    split; apply Nat.leb_le; reflexivity.
Defined.

(** ** Records of the address book by id *)

Lemma dict_get_set_same {A : Type} (k : Z) (v : A) (d : list (Z * A)) :
  dict_get Z.eqb k (dict_set Z.eqb k v d) = Some v.
Proof.
  induction d as [|[k' v'] d IH]; simpl.
  - now rewrite Z.eqb_refl.
  - destruct (Z.eqb_spec k' k) as [->|Hne]; simpl.
    + now rewrite Z.eqb_refl.
    + destruct (Z.eqb_spec k' k); [contradiction|exact IH].
Qed.

Lemma dict_get_set_other {A : Type} (k k0 : Z) (v : A) (d : list (Z * A)) :
  k0 <> k -> dict_get Z.eqb k0 (dict_set Z.eqb k v d) = dict_get Z.eqb k0 d.
Proof.
  intros Hne. induction d as [|[k' v'] d IH]; simpl.
  - destruct (Z.eqb_spec k k0); [congruence|reflexivity].
  - destruct (Z.eqb_spec k' k) as [->|Hk]; simpl.
    + destruct (Z.eqb_spec k k0); [congruence|reflexivity].
    + now rewrite IH.
Qed.

Lemma dict_get_none {A : Type} (k : Z) (d : list (Z * A)) :
  ~ In k (map fst d) -> dict_get Z.eqb k d = None.
Proof.
  induction d as [|[k' v'] d IH]; simpl; intros H; [reflexivity|].
  destruct (Z.eqb_spec k' k); [tauto|]. apply IH. tauto.
Qed.

Lemma dict_get_del_same {A : Type} (k : Z) (d : list (Z * A)) :
  NoDup (map fst d) -> dict_get Z.eqb k (dict_del Z.eqb k d) = None.
Proof.
  induction d as [|[k' v'] d IH]; simpl; intros H; [reflexivity|].
  inversion H as [|x l Hx Hl]; subst.
  destruct (Z.eqb_spec k' k) as [->|Hne]; simpl.
  - now apply dict_get_none.
  - destruct (Z.eqb_spec k' k); [contradiction|now apply IH].
Qed.

Lemma dict_get_del_other {A : Type} (k k0 : Z) (d : list (Z * A)) :
  k0 <> k -> dict_get Z.eqb k0 (dict_del Z.eqb k d) = dict_get Z.eqb k0 d.
Proof.
  intros Hne. induction d as [|[k' v'] d IH]; simpl; [reflexivity|].
  destruct (Z.eqb_spec k' k) as [->|Hk]; simpl.
  - destruct (Z.eqb_spec k k0); [congruence|reflexivity].
  - now rewrite IH.
Qed.

Lemma dict_set_keys_present {A : Type} (k : Z) (v : A) (d : list (Z * A)) :
  dict_mem Z.eqb k d = true -> map fst (dict_set Z.eqb k v d) = map fst d.
Proof.
  unfold dict_mem. induction d as [|[k' v'] d IH]; simpl; [discriminate|].
  destruct (Z.eqb_spec k' k); simpl; [reflexivity|]. intros H. now rewrite IH.
Qed.

(** X8. After [add], the book read at the id handed out gives the record
    that was added, and every other id reads as before. *)
Theorem book_add_then_lookup (book : AddressBook.t) (record : Rec.t) :
  exists book',
    AddressBook.add book record = (book', Ok (AddressBook.last_record_id book))
    /\ AddressBook.getitem book' (AddressBook.last_record_id book) = Ok record
    /\ forall k, k <> AddressBook.last_record_id book ->
                 AddressBook.getitem book' k = AddressBook.getitem book k.
Proof.
  eexists. split; [reflexivity|]. unfold AddressBook.getitem. simpl. split.
  - now rewrite dict_get_set_same.
  - intros k Hk. now rewrite dict_get_set_other.
Qed.

(** X9. [delete] of an id the book holds removes that record and no other:
    reading the id afterwards raises [KeyError], every other id reads as
    before, and the next id is not touched.  [delete] of an id the book does
    not hold raises [KeyError] and changes nothing. *)
Theorem book_delete_removes (book : AddressBook.t) (key : Z) :
  NoDup (AddressBook.keys book) ->
  (forall record, AddressBook.getitem book key = Ok record ->
     exists book',
       AddressBook.delete book (PInt key) = (book', Ok tt)
       /\ AddressBook.getitem book' key = Raise KeyError
       /\ (forall k, k <> key ->
                     AddressBook.getitem book' k = AddressBook.getitem book k)
       /\ AddressBook.last_record_id book' = AddressBook.last_record_id book)
  /\ (AddressBook.getitem book key = Raise KeyError ->
      AddressBook.delete book (PInt key) = (book, Raise KeyError)).
Proof.
  intros Hnd. unfold AddressBook.getitem, AddressBook.delete, index_error_decorator,
    dict_mem. cbn [py_int].
  destruct (dict_get Z.eqb key (AddressBook.records book)) as [r|] eqn:Hg.
  - split; [|discriminate]. intros record _. eexists. split; [reflexivity|].
    cbn [AddressBook.records AddressBook.last_record_id fst]. split; [|split].
    + now rewrite dict_get_del_same.
    + intros k Hk. now rewrite dict_get_del_other.
    + reflexivity.
  - split; [discriminate|]. reflexivity.
Qed.

Lemma book_delete_removes_witness :
  let ada := Rec.Mk [MkField FirstNameField (PStr "Ada") "" "" ""] in
  let book := AddressBook.Mk [(0, ada); (1, Rec.init)] 2 in
  exists book',
    AddressBook.delete book (PInt 0) = (book', Ok tt)
    /\ AddressBook.getitem book' 0 = Raise KeyError
    /\ (forall k, k <> 0 -> AddressBook.getitem book' k = AddressBook.getitem book k)
    /\ AddressBook.last_record_id book' = 2.
Proof.
  intros ada book.
  refine (proj1 (@book_delete_removes book 0 _) ada eq_refl).
  repeat constructor; simpl; intuition discriminate.
Defined.

(** X10. [replace] of an id the book holds stores the new record under that
    id and keeps the ids in their order, the other records and the next id;
    [replace] of an id the book does not hold raises [KeyError] and changes
    nothing (it never adds a record). *)
Theorem book_replace_in_place (book : AddressBook.t) (key : Z) (record : Rec.t) :
  (forall old, AddressBook.getitem book key = Ok old ->
     exists book',
       AddressBook.replace book key record = (book', Ok tt)
       /\ AddressBook.getitem book' key = Ok record
       /\ AddressBook.keys book' = AddressBook.keys book
       /\ (forall k, k <> key ->
                     AddressBook.getitem book' k = AddressBook.getitem book k)
       /\ AddressBook.last_record_id book' = AddressBook.last_record_id book)
  /\ (AddressBook.getitem book key = Raise KeyError ->
      AddressBook.replace book key record = (book, Raise KeyError)).
Proof.
  unfold AddressBook.getitem, AddressBook.replace, AddressBook.keys.
  destruct (dict_mem Z.eqb key (AddressBook.records book)) eqn:Hm;
    unfold dict_mem in Hm;
    destruct (dict_get Z.eqb key (AddressBook.records book)) as [r|] eqn:Hg;
    try discriminate.
  - split; [|discriminate]. intros old _. eexists. split; [reflexivity|].
    cbn [AddressBook.records AddressBook.last_record_id]. split; [|split; [|split]].
    + now rewrite dict_get_set_same.
    + apply dict_set_keys_present. unfold dict_mem. now rewrite Hg.
    + intros k Hk. now rewrite dict_get_set_other.
    + reflexivity.
  - split; [discriminate|reflexivity].
Qed.

Lemma book_replace_in_place_witness :
  let ada := Rec.Mk [MkField FirstNameField (PStr "Ada") "" "" ""] in
  let book := AddressBook.Mk [(0, Rec.init); (3, Rec.init)] 4 in
  exists book',
    AddressBook.replace book 3 ada = (book', Ok tt)
    /\ AddressBook.getitem book' 3 = Ok ada
    /\ AddressBook.keys book' = [0; 3]
    /\ (forall k, k <> 3 -> AddressBook.getitem book' k = AddressBook.getitem book k)
    /\ AddressBook.last_record_id book' = 4.
Proof.
  intros ada book.
  exact (proj1 (@book_replace_in_place book 3 ada) Rec.init eq_refl).
Defined.

(** ** Searching *)

Lemma select_filter (test : Rec.t -> res bool) (items result : list (Z * Rec.t)) :
  Forall (fun kr => answers (test (snd kr))) items ->
  NoDup (map fst (result ++ items)%list) ->
  AddressBook.select test items result
  = Ok (result ++ filter (fun kr => holds (test (snd kr))) items)%list.
Proof.
  intros Ht. revert result.
  induction Ht as [|[k r] items [b Hb] _ IH]; intros result Hnd; simpl.
  - now rewrite app_nil_r.
  - simpl in Hb. rewrite Hb. cbn [bind holds].
    assert (Hfresh : ~ In k (map fst result)).
    { rewrite map_app in Hnd; simpl in Hnd.
      apply NoDup_remove_2 in Hnd. rewrite in_app_iff in Hnd. tauto. }
    destruct b.
    + rewrite (dict_set_fresh _ _ _ Hfresh), IH, <- app_assoc; [reflexivity|].
      now rewrite <- app_assoc.
    + apply IH. rewrite map_app in *. simpl in Hnd.
      now apply NoDup_remove_1 in Hnd.
Qed.

Lemma select_raises (test : Rec.t -> res bool) (before after result : list (Z * Rec.t))
      (k : Z) (r : Rec.t) (e : exn) :
  Forall (fun kr => answers (test (snd kr))) before ->
  test r = Raise e ->
  AddressBook.select test (before ++ (k, r) :: after) result = Raise e.
Proof.
  intros Hb He. revert result.
  induction Hb as [|[k' r'] before [b Hb'] _ IH]; intros result; simpl.
  - now rewrite He.
  - simpl in Hb'. rewrite Hb'. cbn [bind]. apply IH.
Qed.

(** X11. The two searches of the address book are filters: when the test
    raises on no record, [str_search] returns, under their ids and in the
    order of the book, exactly the records that contain the text, and
    [multiple_search], given criteria without the key "self", exactly those
    that meet the criteria.  When the test raises on a record, and on none
    before it, either search raises the same exception.  Criteria with the
    key "self" cannot be passed as keywords: both [multiple_search] methods
    raise [TypeError], whatever the book and the record. *)
Theorem searches_are_filters (V : variant) (book : AddressBook.t) :
  NoDup (AddressBook.keys book) ->
  (forall search_str,
      Forall (fun kr => answers (Rec.contains_text V (snd kr) search_str))
             (AddressBook.records book) ->
      AddressBook.str_search V book search_str
      = Ok (filter (fun kr => holds (Rec.contains_text V (snd kr) search_str))
                   (AddressBook.records book)))
  /\ (forall search_items,
         ~ In "self" (map fst search_items) ->
         Forall (fun kr => answers (Rec.multiple_search V (snd kr) search_items))
                (AddressBook.records book) ->
         AddressBook.multiple_search V book search_items
         = Ok (filter (fun kr => holds (Rec.multiple_search V (snd kr) search_items))
                      (AddressBook.records book)))
  /\ (forall search_str before after k r e,
         AddressBook.records book = (before ++ (k, r) :: after)%list ->
         Forall (fun kr => answers (Rec.contains_text V (snd kr) search_str)) before ->
         Rec.contains_text V r search_str = Raise e ->
         AddressBook.str_search V book search_str = Raise e)
  /\ (forall search_items before after k r e,
         AddressBook.records book = (before ++ (k, r) :: after)%list ->
         Forall (fun kr => answers (Rec.multiple_search V (snd kr) search_items))
                before ->
         Rec.multiple_search V r search_items = Raise e ->
         AddressBook.multiple_search V book search_items = Raise e)
  /\ (forall search_items,
         In "self" (map fst search_items) ->
         AddressBook.multiple_search V book search_items = Raise TypeError
         /\ forall r, Rec.multiple_search V r search_items = Raise TypeError).
Proof.
  intros Hnd. split; [|split; [|split; [|split]]].
  - intros s H. unfold AddressBook.str_search.
    now rewrite (select_filter _ [] H).
  - intros c Hc H. unfold AddressBook.multiple_search.
    rewrite (bind_keywords_ok _ Hc). cbn [bind].
    now rewrite (select_filter _ [] H).
  - intros s before after k r e E Hb He. unfold AddressBook.str_search.
    rewrite E. now apply select_raises.
  - intros c before after k r e E Hb He. unfold AddressBook.multiple_search.
    unfold Rec.multiple_search in He.
    destruct (bind_keywords c) as [[]|e0] eqn:B; cbn [bind] in *.
    + rewrite E. apply select_raises; [|unfold Rec.multiple_search; now rewrite B].
      exact Hb.
    + now inversion He.
  - intros c Hc. apply bind_keywords_self in Hc.
    unfold AddressBook.multiple_search, Rec.multiple_search. rewrite Hc.
    split; [reflexivity|]. intros r. reflexivity.
Qed.

Lemma searches_are_filters_witness :
  let ada := Rec.Mk [MkField FirstNameField (PStr "Ada") "" "" ""] in
  let bob := Rec.Mk [MkField FirstNameField (PStr "Bob") "" "" ""] in
  AddressBook.str_search Answer (AddressBook.Mk [(0, ada); (1, bob)] 2) "ob"
  = Ok [(1, bob)]
  /\ AddressBook.multiple_search Answer (AddressBook.Mk [(0, ada); (1, bob)] 2)
                                 [("Name", "Ad")]
     = Ok [(0, ada)]
  /\ AddressBook.multiple_search Answer (AddressBook.Mk [(0, ada); (1, bob)] 2)
                                 [("self", "Ad")]
     = Raise TypeError.
Proof.
  intros ada bob.
  assert (Hnd : NoDup (AddressBook.keys (AddressBook.Mk [(0, ada); (1, bob)] 2)))
    by (repeat constructor; simpl; intuition discriminate).
  pose proof (@searches_are_filters Answer (AddressBook.Mk [(0, ada); (1, bob)] 2) Hnd)
    as (H1 & H2 & _ & _ & H5).
  split; [|split].
  - apply (H1 "ob"). repeat constructor; eexists; reflexivity.
  - apply (H2 [("Name", "Ad")]).
    + simpl. intuition discriminate.
    + repeat constructor; eexists; reflexivity.
  - apply (H5 [("self", "Ad")]). simpl. now left.
Defined.

Lemma contains_fields_true (V : variant) (l : list Field) (item : string) :
  Rec.contains_fields V l item = Ok true ->
  exists f, In f l /\ contains V f item = Ok true.
Proof.
  induction l as [|f l IH]; simpl; [discriminate|].
  destruct (contains V f item) as [[|]|e] eqn:Hc; cbn [bind]; try discriminate.
  - intros _. exists f. auto.
  - intros H. destruct (IH H) as (g & Hg & Hcg). exists g. auto.
Qed.

(** X12. [item in record] looks at every field: if it answers [True], some
    field of the record contains the item; if no field raises, it answers
    [True] as soon as one field (first, last or in between) contains the item
    and [False] otherwise; on a record without fields it answers [False]. *)
Theorem record_contains_any_field (V : variant) (self : Rec.t) (item : string) :
  (Rec.contains_text V self item = Ok true ->
   exists f, In f (Rec.fields self) /\ contains V f item = Ok true)
  /\ (Forall (fun f => answers (contains V f item)) (Rec.fields self) ->
      Rec.contains_text V self item
      = Ok (existsb (fun f => holds (contains V f item)) (Rec.fields self)))
  /\ (Rec.fields self = [] -> Rec.contains_text V self item = Ok false).
Proof.
  unfold Rec.contains_text. split; [apply contains_fields_true|split].
  - induction 1 as [|f l [b Hb] _ IH]; simpl; [reflexivity|].
    rewrite Hb. cbn [bind holds]. destruct b; [reflexivity|exact IH].
  - intros ->. reflexivity.
Qed.

Lemma record_contains_any_field_witness :
  let python := MkField SkillField (PStr "python") "" "" "" in
  let rust := MkField SkillField (PStr "rust") "" "" "" in
  Rec.contains_text Crm (Rec.Mk [python; rust]) "rust" = Ok true.
Proof.
  intros python rust.
  refine (proj1 (proj2 (record_contains_any_field Crm (Rec.Mk [python; rust]) "rust")) _).
  repeat constructor; eexists; reflexivity.
Defined.

(** ** Decoding fields and records *)

Lemma float_of_int_errors (z : Z) (e : exn) :
  float_of_int z = Raise e -> e = OverflowError.
Proof.
  unfold float_of_int.
  destruct (binary_normalize prec emax z 0 false); now inversion 1.
Qed.

Lemma py_float_errors (v : pyval) (e : exn) :
  py_float v = Raise e -> e = ValueError \/ e = TypeError \/ e = OverflowError.
Proof.
  destruct v as [|b|z|f|s|l|d]; cbn [py_float]; intros H.
  - inversion H; auto.
  - apply float_of_int_errors in H. auto.
  - apply float_of_int_errors in H. auto.
  - discriminate.
  - apply float_of_str_errors in H. auto.
  - inversion H; auto.
  - inversion H; auto.
Qed.

Lemma construct_not_key_error (c : FieldClass) (v : pyval) :
  construct c v <> Raise KeyError.
Proof.
  unfold construct, validate. cbn [field_class].
  destruct c; try discriminate.
  - destruct v; try discriminate.
    destruct (re_search PHONE_REGEX _) as [g|]; [|discriminate].
    destruct (group 2 g); discriminate.
  - destruct v; try discriminate.
    destruct (re_match EMAIL_REGEX s); discriminate.
  - destruct (py_float v) as [x|e] eqn:Hf; [discriminate|].
    apply py_float_errors in Hf.
    destruct Hf as [->|[->| ->]]; discriminate.
Qed.

(** X13. [field_decoder] on a dict: without the key "field_name", with a
    name the registry does not know, or with a known name but without the
    key "value", it raises [FieldDecodeError]; with a known name and a value
    it is the constructor of that class on the value, whose own error, if
    any, comes through unchanged.  It never raises [KeyError]. *)
Theorem decoder_rejects_malformed (V : variant) (d : list (string * pyval)) :
  (dict_get String.eqb "field_name" d = None ->
   field_decoder V (PDict d) = Raise FieldDecodeError)
  /\ (forall name,
         dict_get String.eqb "field_name" d = Some (PStr name) ->
         dict_get String.eqb name (REGISTERED_FIELDS V) = None ->
         field_decoder V (PDict d) = Raise FieldDecodeError)
  /\ (forall name c,
         dict_get String.eqb "field_name" d = Some (PStr name) ->
         dict_get String.eqb name (REGISTERED_FIELDS V) = Some c ->
         match dict_get String.eqb "value" d with
         | None => field_decoder V (PDict d) = Raise FieldDecodeError
         | Some v => field_decoder V (PDict d) = construct c v
         end)
  /\ (forall x, field_decoder V x <> Raise KeyError).
Proof.
  unfold field_decoder, getitem, registry_lookup. split; [|split; [|split]].
  - intros ->. reflexivity.
  - intros name H1 H2. rewrite H1. cbn [bind]. now rewrite H2.
  - intros name c H1 H2. rewrite H1. cbn [bind]. rewrite H2. cbn [bind].
    destruct (dict_get String.eqb "value" d) as [v|]; [|reflexivity].
    cbn [bind]. pose proof (@construct_not_key_error c v) as Hk.
    destruct (construct c v) as [f|[]]; try reflexivity. now elim Hk.
  - intros x. unfold reraise.
    destruct (let* name := _ in _) as [f|[]]; discriminate.
Qed.

Lemma decoder_rejects_malformed_witness :
  field_decoder Answer (PDict [("field_name", PStr "Email"); ("value", PStr "a@b.c")])
  = Raise FieldDecodeError.
Proof.
  apply (proj1 (proj2 (decoder_rejects_malformed Answer
          [("field_name", PStr "Email"); ("value", PStr "a@b.c")])) "Email");
    reflexivity.
Defined.

Lemma from_json_doc (V : variant) (self : Rec.t) (l : list pyval) :
  Rec.from_json V self (record_doc V l)
  = match l with
    | [] => (self, Ok tt)
    | _ => Rec.from_json_loop V self l
    end.
Proof. destruct V, l; reflexivity. Qed.

(** X14. A record written by [to_dict] reads back: for a record whose
    fields are valid for the service, [from_json] on its document returns
    without raising and appends exactly those fields, in order, to the
    record it is called on; on a new record the result is the record that
    was written. *)
Theorem record_round_trip (V : variant) (self r : Rec.t) :
  Forall (field_valid V) (Rec.fields r) ->
  Rec.from_json V self (Rec.to_dict V r)
  = (Rec.Mk (Rec.fields self ++ Rec.fields r), Ok tt)
  /\ Rec.from_json V Rec.init (Rec.to_dict V r) = (r, Ok tt).
Proof.
  intros H. split; [|now apply from_json_to_dict].
  change (Rec.to_dict V r) with (record_doc V (map field_to_dict (Rec.fields r))).
  rewrite from_json_doc, (from_json_loop_valid self H).
  destruct (Rec.fields r); simpl; [|reflexivity].
  rewrite app_nil_r. now destruct self.
Qed.

Lemma record_round_trip_witness :
  let name := MkField FirstNameField (PStr "Ada") "" "" "" in
  let rate := MkField RateField (PFloat (S754_finite false 7036874417766400 (-47))) "" "" "" in
  Rec.from_json Answer (Rec.Mk [name]) (Rec.to_dict Answer (Rec.Mk [rate]))
  = (Rec.Mk [name; rate], Ok tt).
Proof.
  intros name rate.
  refine (proj1 (@record_round_trip Answer (Rec.Mk [name]) (Rec.Mk [rate]) _)).
  apply Forall_cons; [|apply Forall_nil].
  split; [reflexivity|]. exists (PStr "50"). vm_compute. reflexivity.
Defined.

Lemma from_json_loop_stops (V : variant) (self : Rec.t) (good : list Field)
      (bad : pyval) (rest : list pyval) (e : exn) :
  Forall (field_valid V) good ->
  field_decoder V bad = Raise e ->
  Rec.from_json_loop V self (map field_to_dict good ++ bad :: rest)
  = (Rec.Mk (Rec.fields self ++ good), Raise e).
Proof.
  intros H Hb. revert self. induction H as [|f l Hf _ IH]; intros self; simpl.
  - rewrite Hb, app_nil_r. now destruct self.
  - rewrite (decode_field_to_dict Hf), IH. simpl. now rewrite <- app_assoc.
Qed.

(** X15. [from_json] is not all or nothing: when a field dict does not
    decode, the call raises the decoder's exception, the fields decoded
    before it stay in the record and the dicts after it are not looked at.
    An empty field list adds nothing, and in crm.py neither does [None]. *)
Theorem from_json_keeps_decoded_prefix (V : variant) (self : Rec.t) :
  (forall good bad rest e,
      Forall (field_valid V) good ->
      field_decoder V bad = Raise e ->
      Rec.from_json V self (record_doc V (map field_to_dict good ++ bad :: rest))
      = (Rec.Mk (Rec.fields self ++ good), Raise e))
  /\ Rec.from_json V self (record_doc V []) = (self, Ok tt)
  /\ Rec.from_json Crm self PNone = (self, Ok tt).
Proof.
  split; [|split; [now rewrite from_json_doc|reflexivity]].
  intros good bad rest e Hg Hb. rewrite from_json_doc.
  rewrite (@from_json_loop_stops V self good bad rest e Hg Hb).
  destruct good; reflexivity.
Qed.

Lemma from_json_keeps_decoded_prefix_witness :
  let name := MkField FirstNameField (PStr "Ada") "" "" "" in
  Rec.from_json Crm Rec.init
    (PList [field_to_dict name;
            PDict [("field_name", PStr "Phone"); ("value", PStr "123")];
            field_to_dict name])
  = (Rec.Mk [name], Raise IncorrectInput).
Proof.
  intros name.
  refine (proj1 (from_json_keeps_decoded_prefix Crm Rec.init) [name]
                (PDict [("field_name", PStr "Phone"); ("value", PStr "123")])
                [field_to_dict name] IncorrectInput _ _).
  - apply Forall_cons; [|apply Forall_nil].
    split; [reflexivity|]. exists (PStr "Ada"). reflexivity.
  - vm_compute. reflexivity.
Defined.

(** ** Bulk load *)

(** X16. Bulk load in crm.py keeps the ids: for a book with records (valid
    fields, distinct ids, gaps or not), loading its dump into any book
    returns without raising and gives the same records under the same ids in
    the same order; the next id becomes one past the largest id, whatever it
    was in the book that was dumped. *)
Theorem crm_load_keeps_ids (book other : AddressBook.t) :
  NoDup (AddressBook.keys book) ->
  records_valid Crm (AddressBook.records book) ->
  AddressBook.records book <> [] ->
  exists k ks,
    AddressBook.keys book = k :: ks
    /\ AddressBook.loads Crm other (AddressBook.dumps Crm book)
       = (AddressBook.Mk (AddressBook.records book) (AddressBook.list_max k ks + 1),
          Ok tt).
Proof.
  intros Hnd Hv Hne.
  unfold AddressBook.loads, AddressBook.dumps, json_dumps, json_loads,
    AddressBook.loads_crm, AddressBook.keys in *.
  fold (dump_items Crm (AddressBook.records book)).
  rewrite (loads_loop_crm_valid [] Hv) by exact Hnd.
  cbn [app]. destruct (AddressBook.records book) as [|[k r] recs]; [now elim Hne|].
  exists k, (map fst recs). split; reflexivity.
Qed.

Lemma crm_load_keeps_ids_witness :
  let ada := Rec.Mk [MkField FirstNameField (PStr "Ada") "" "" ""] in
  let book := AddressBook.Mk [(7, ada); (2, Rec.init)] 9 in
  exists k ks,
    AddressBook.keys book = k :: ks
    /\ AddressBook.loads Crm AddressBook.init (AddressBook.dumps Crm book)
       = (AddressBook.Mk [(7, ada); (2, Rec.init)] (AddressBook.list_max k ks + 1),
          Ok tt).
Proof.
  intros ada book.
  apply (@crm_load_keeps_ids book AddressBook.init).
  - repeat constructor; simpl; intuition discriminate.
  - apply Forall_cons; [|apply Forall_cons; [|apply Forall_nil]].
    + apply Forall_cons; [|apply Forall_nil].
      split; [reflexivity|]. exists (PStr "Ada"). reflexivity.
    + apply Forall_nil.
  - discriminate.
Defined.

Lemma loads_loop_answer_renumbers (recs : list (Z * Rec.t)) (acc : AddressBook.t) :
  records_valid Answer recs ->
  renumbered acc ->
  AddressBook.loads_loop_answer (dump_items Answer recs) acc
  = (AddressBook.Mk
       (AddressBook.records acc
        ++ combine (map Z.of_nat (seq (List.length (AddressBook.records acc))
                                      (List.length recs)))
                   (map snd recs))
       (AddressBook.last_record_id acc + Z.of_nat (List.length recs)),
     Ok tt).
Proof.
  intros H. revert acc. induction H as [|[k r] recs Hr _ IH]; intros acc Hacc.
  - simpl. rewrite app_nil_r, Z.add_0_r. now destruct acc.
  - cbn [dump_items map AddressBook.loads_loop_answer]. simpl in Hr.
    rewrite (@from_json_to_dict Answer r Hr). fold (dump_items Answer recs).
    destruct (add_below r (renumbered_below Hacc)) as (_ & _ & Hl' & Hr').
    assert (Hacc' : renumbered (fst (AddressBook.add acc r))).
    { destruct Hacc as [Hkeys Hlast]. unfold renumbered, AddressBook.keys.
      rewrite Hl', Hr', map_app, length_app. simpl.
      rewrite Nat.add_1_r, first_ids_succ.
      unfold AddressBook.keys in Hkeys. rewrite Hkeys, Hlast.
      split; [reflexivity|lia]. }
    rewrite (IH _ Hacc'). destruct Hacc as [_ Hlast].
    rewrite Hl', Hr', length_app, <- app_assoc. cbn [List.length app seq map combine snd].
    rewrite Nat.add_1_r, Hlast. f_equal. f_equal. lia.
Qed.

(** X17. Bulk load in answer.py renumbers: for a book whose fields are valid
    for the service, whatever its ids, loading its dump returns without
    raising and gives the same records in the same order under the ids 0, 1,
    2, ...; the next id is the number of records. *)
Theorem answer_load_renumbers (book other : AddressBook.t) :
  records_valid Answer (AddressBook.records book) ->
  AddressBook.loads Answer other (AddressBook.dumps Answer book)
  = (AddressBook.Mk
       (combine (first_ids (List.length (AddressBook.records book)))
                (map snd (AddressBook.records book)))
       (Z.of_nat (List.length (AddressBook.records book))),
     Ok tt).
Proof.
  intros Hv.
  unfold AddressBook.loads, AddressBook.loads_answer, AddressBook.dumps,
    json_dumps, json_loads.
  fold (dump_items Answer (AddressBook.records book)).
  rewrite (loads_loop_answer_renumbers Hv); [reflexivity|split; reflexivity].
Qed.

Lemma answer_load_renumbers_witness :
  let ada := Rec.Mk [MkField FirstNameField (PStr "Ada") "" "" ""] in
  AddressBook.loads Answer AddressBook.init
    (AddressBook.dumps Answer (AddressBook.Mk [(7, ada); (2, Rec.init)] 9))
  = (AddressBook.Mk [(0, ada); (1, Rec.init)] 2, Ok tt).
Proof.
  intros ada.
  apply (@answer_load_renumbers (AddressBook.Mk [(7, ada); (2, Rec.init)] 9)
                                AddressBook.init).
  apply Forall_cons; [|apply Forall_cons; [|apply Forall_nil]].
  - apply Forall_cons; [|apply Forall_nil].
    split; [reflexivity|]. exists (PStr "Ada"). reflexivity.
  - apply Forall_nil.
Defined.

(** X18. Bulk load replaces, it does not merge, and it does so before it
    knows that the text is good: in both services the records and the
    outcome of a load do not depend on what the book held (so after a load
    that raises, the old records are gone).  In answer.py this holds for the
    next id too; in crm.py a load that raises leaves the next id as it
    was. *)
Theorem load_forgets_previous_records (self other : AddressBook.t) :
  (forall json_records,
      AddressBook.records (fst (AddressBook.loads_crm self json_records))
      = AddressBook.records (fst (AddressBook.loads_crm other json_records))
      /\ snd (AddressBook.loads_crm self json_records)
         = snd (AddressBook.loads_crm other json_records))
  /\ (forall json_records book' e,
         AddressBook.loads_crm self json_records = (book', Raise e) ->
         AddressBook.last_record_id book' = AddressBook.last_record_id self)
  /\ (forall text,
         AddressBook.loads_answer self text = AddressBook.loads_answer other text).
Proof.
  split; [|split].
  - intros d. unfold AddressBook.loads_crm.
    destruct d; try (split; reflexivity).
    destruct (AddressBook.loads_loop_crm d []) as [recs [u|e]];
      [|split; reflexivity].
    destruct (map fst recs); split; reflexivity.
  - intros d book' e. unfold AddressBook.loads_crm.
    destruct d; try (inversion 1; reflexivity).
    destruct (AddressBook.loads_loop_crm d []) as [recs [u|e0]];
      [|inversion 1; reflexivity].
    destruct (map fst recs); [inversion 1; reflexivity|discriminate].
  - reflexivity.
Qed.

Lemma load_forgets_previous_records_witness :
  let book := AddressBook.Mk [(0, Rec.init)] 5 in
  AddressBook.last_record_id (fst (AddressBook.loads_crm book (PList []))) = 5
  /\ AddressBook.records (fst (AddressBook.loads_crm book (PList []))) = [].
Proof.
  intros book. split; [|reflexivity].
  apply (proj1 (proj2 (load_forgets_previous_records book book))
               (PList []) _ AttributeError).
  reflexivity.
Defined.

(** ** Rates *)

Lemma get_rate_constructed (r : Rec.t) :
  Forall constructed (Rec.fields r) ->
  Rec.get_rate r = PNone \/ exists x, Rec.get_rate r = PFloat x.
Proof.
  unfold Rec.get_rate. induction 1 as [|f l [v Hf] _ IH]; simpl; [now left|].
  destruct (field_class f) eqn:Hc; simpl; trivial.
  right. apply construct_rate_value in Hf. destruct Hf as [x ->]. now exists x.
Qed.

Lemma collect_rates_floats (rs : list Rec.t) :
  Forall (fun r => Forall constructed (Rec.fields r)) rs ->
  map PFloat (floats_of (collect_rates rs)) = collect_rates rs.
Proof.
  unfold collect_rates. induction 1 as [|r l Hr _ IH]; simpl; [reflexivity|].
  destruct (@get_rate_constructed r Hr) as [E|[x E]]; rewrite E; simpl; trivial.
  destruct (negb (feqb x fzero)); simpl; [now rewrite IH|exact IH].
Qed.

Lemma fold_choice_in {A : Type} (pick : A -> A -> bool) (l : list A) (x : A) :
  In (fold_left (fun cur y => if pick cur y then y else cur) l x) (x :: l).
Proof.
  revert x. induction l as [|a l IH]; intros x; simpl; [now left|].
  destruct (IH (if pick x a then a else x)) as [H|H]; [|now right; right].
  destruct (pick x a); rewrite <- H; auto.
Qed.

Lemma float_min_in (l : list float) : l <> [] -> In (float_min l) l.
Proof.
  destruct l as [|x l]; [congruence|]. intros _. unfold float_min.
  apply (fold_choice_in (fun cur y => fltb y cur)).
Qed.

Lemma float_max_in (l : list float) : l <> [] -> In (float_max l) l.
Proof.
  destruct l as [|x l]; [congruence|]. intros _. unfold float_max.
  apply (fold_choice_in (fun cur y => fltb cur y)).
Qed.

Lemma collect_rates_length (rs : list Rec.t) :
  List.length (collect_rates rs)
  = List.length (filter (fun r => py_truthy (Rec.get_rate r)) rs).
Proof.
  unfold collect_rates. induction rs as [|r l IH]; simpl; [reflexivity|].
  destruct (py_truthy (Rec.get_rate r)); simpl; now rewrite IH.
Qed.

(** X19. When at least one record counts (its first Rate field holds a
    float other than zero), [get_rate_stat] reports as [item_number] the
    number of records that count, which is positive and at most the number of
    records, and as [min] and as [max] the rate of one of the records: it
    never reports a rate that no record has. *)
Theorem rate_stat_counts (V : variant) (rs : list Rec.t) :
  Forall (fun r => Forall constructed (Rec.fields r)) rs ->
  collect_rates rs <> [] ->
  let n := List.length (filter (fun r => py_truthy (Rec.get_rate r)) rs) in
  dict_get String.eqb "item_number" (get_rate_stat V rs) = Some (PInt (Z.of_nat n))
  /\ (0 < n <= List.length rs)%nat
  /\ exists mn mx,
      dict_get String.eqb "min" (get_rate_stat V rs) = Some (PFloat mn)
      /\ dict_get String.eqb "max" (get_rate_stat V rs) = Some (PFloat mx)
      /\ In (PFloat mn) (map Rec.get_rate rs)
      /\ In (PFloat mx) (map Rec.get_rate rs).
Proof.
  intros Hc Hne n. subst n. rewrite <- collect_rates_length.
  pose proof (collect_rates_floats Hc) as Hf.
  assert (Hfl : floats_of (collect_rates rs) <> []).
  { intros E. rewrite E in Hf. simpl in Hf. congruence. }
  assert (Hin : forall x, In x (floats_of (collect_rates rs)) ->
                          In (PFloat x) (map Rec.get_rate rs)).
  { intros x Hx. apply (in_map PFloat) in Hx. rewrite Hf in Hx.
    unfold collect_rates in Hx. now apply filter_In in Hx. }
  split; [|split].
  - unfold get_rate_stat. destruct (collect_rates rs); [congruence|].
    destruct V; reflexivity.
  - split.
    + destruct (collect_rates rs); [congruence|simpl; lia].
    + rewrite collect_rates_length. apply filter_length_le.
  - exists (float_min (floats_of (collect_rates rs))),
           (float_max (floats_of (collect_rates rs))).
    repeat split.
    + unfold get_rate_stat. destruct (collect_rates rs); [congruence|].
      destruct V; reflexivity.
    + unfold get_rate_stat. destruct (collect_rates rs); [congruence|].
      destruct V; reflexivity.
    + apply Hin, float_min_in, Hfl.
    + apply Hin, float_max_in, Hfl.
Qed.

Lemma rate_stat_counts_witness :
  let r50 := Rec.Mk [MkField RateField (PFloat (S754_finite false 7036874417766400 (-47))) "" "" ""] in
  let r0 := Rec.Mk [MkField RateField (PFloat (S754_zero false)) "" "" ""] in
  dict_get String.eqb "item_number" (get_rate_stat Crm [r0; r50; Rec.init])
  = Some (PInt 1).
Proof.
  intros r50 r0.
  refine (proj1 (@rate_stat_counts Crm [r0; r50; Rec.init] _ _)).
  - apply Forall_cons; [|apply Forall_cons; [|apply Forall_cons; [|apply Forall_nil]]].
    + apply Forall_cons; [|apply Forall_nil]. exists (PStr "0"). vm_compute. reflexivity.
    + apply Forall_cons; [|apply Forall_nil]. exists (PStr "50"). vm_compute. reflexivity.
    + apply Forall_nil.
  - vm_compute. discriminate.
Defined.

Lemma feqb_refl (x : float) : x <> S754_nan -> feqb x x = true.
Proof.
  intros H. unfold feqb, SFeqb, SFcompare.
  destruct x as [[]|[]| |[] m e]; try reflexivity; try congruence;
    rewrite Z.compare_refl, Pos.compare_cont_refl; reflexivity.
Qed.

(** X20. In crm.py a Rate field built from a text is found by that very
    text, unless the text reads as NaN; a Rate field that holds NaN is found
    by no probe at all. *)
Theorem rate_found_by_own_text (s : string) (f : Field) :
  construct RateField (PStr s) = Ok f ->
  (value f <> PFloat S754_nan -> contains Crm f s = Ok true)
  /\ (value f = PFloat S754_nan -> forall item, contains Crm f item = Ok false).
Proof.
  intros H. pose proof H as H'. apply construct_rate_value in H'.
  destruct H' as [x ->]. unfold construct, validate in H. cbn in H.
  destruct (float_of_str s) as [y|e] eqn:Hs; [|destruct e; discriminate].
  inversion H; subst y. unfold contains. cbn [field_class value]. split.
  - intros Hn. rewrite Hs. rewrite feqb_refl; [reflexivity|congruence].
  - intros E item. inversion E; subst x.
    destruct (float_of_str item) as [y|e] eqn:Hi.
    + unfold feqb, SFeqb, SFcompare. now destruct y.
    + now rewrite (float_of_str_errors _ Hi).
Qed.

Lemma rate_found_by_own_text_witness :
  contains Crm (MkField RateField (PFloat (S754_finite false 7036874417766400 (-47))) "" "" "")
           " 5_0.0e0 " = Ok true.
Proof.
  refine (proj1 (@rate_found_by_own_text " 5_0.0e0 " _ _) _).
  - vm_compute. reflexivity.
  - discriminate.
Defined.

(** ** Text fields and probes *)

Lemma prefix_iff (n h : string) :
  prefix n h = true <-> exists b, h = (n ++ b)%string.
Proof.
  revert h. induction n as [|x n IH]; intros h.
  - split; [intros _; now exists h|intros _; now destruct h].
  - destruct h as [|y h]; simpl.
    + split; [discriminate|]. intros [b E]. discriminate.
    + destruct (ascii_dec x y) as [->|Hne].
      * rewrite IH. split; intros [b E]; exists b; [now rewrite E|now inversion E].
      * split; [discriminate|]. intros [b E]. inversion E. congruence.
Qed.

Lemma str_contains_iff (n h : string) :
  str_contains n h = true <-> exists a b, h = (a ++ n ++ b)%string.
Proof.
  induction h as [|y h IH]; cbn [str_contains].
  - rewrite orb_false_r, prefix_iff. split.
    + intros [b E]. now exists "", b.
    + intros (a & b & E). destruct a; [now exists b|discriminate].
  - rewrite orb_true_iff, prefix_iff, IH. split.
    + intros [[b E]|(a & b & E)].
      * now exists "", b.
      * exists (String y a), b. simpl. now rewrite E.
    + intros (a & b & E). destruct a as [|x a].
      * left. now exists b.
      * right. inversion E. now exists a, b.
Qed.

(** X21. For a field that is not a Rate field and holds a string, [contains]
    never raises and answers [True] exactly when the probe occurs in the
    string as a contiguous piece (case as it is); so the empty probe and the
    whole value are always found.  When such a field holds [None], a
    boolean or a number, [contains] raises [TypeError]. *)
Theorem text_contains_is_substring (V : variant) (f : Field) :
  field_class f <> RateField ->
  (forall s item,
      value f = PStr s ->
      (contains V f item = Ok true <-> exists a b, s = (a ++ item ++ b)%string)
      /\ answers (contains V f item)
      /\ contains V f "" = Ok true
      /\ contains V f s = Ok true)
  /\ (value f = PNone \/ (exists b, value f = PBool b)
      \/ (exists z, value f = PInt z) \/ (exists x, value f = PFloat x) ->
      forall item, contains V f item = Raise TypeError).
Proof.
  intros Hc.
  assert (E : contains V f
              = fun item =>
                  match value f with
                  | PStr s => Ok (str_contains item s)
                  | PList l =>
                      Ok (existsb (fun x => match x with
                                            | PStr s => (s =? item)%string
                                            | _ => false
                                            end) l)
                  | PDict d => Ok (dict_mem String.eqb item d)
                  | PNone | PBool _ | PInt _ | PFloat _ => Raise TypeError
                  end).
  { unfold contains. destruct (field_class f), V; try reflexivity; congruence. }
  rewrite E. split.
  - intros s item ->. repeat split.
    + inversion 1 as [H1]. now apply str_contains_iff.
    + intros H. apply str_contains_iff in H. now rewrite H.
    + now eexists.
    + f_equal. apply str_contains_iff. now exists "", s.
    + f_equal. apply str_contains_iff. exists "", "". simpl. now rewrite append_nil_r.
  - intros [->|[[b ->]|[[z ->]|[x ->]]]] item; reflexivity.
Qed.

Lemma text_contains_is_substring_witness :
  contains Answer (MkField CityField (PStr "Kharkiv") "" "" "") "ark" = Ok true.
Proof.
  refine (proj2 (proj1 (proj1 (@text_contains_is_substring Answer
            (MkField CityField (PStr "Kharkiv") "" "" "") _) "Kharkiv" "ark" eq_refl)) _).
  - discriminate.
  - now exists "Kh", "iv".
Defined.

(** ** Display projections (answer.py) *)

Lemma str_join_strings (sep : string) (l : list string) :
  Rec.str_join sep (map PStr l) = Ok (String.concat sep l).
Proof.
  induction l as [|s l IH]; [reflexivity|].
  destruct l as [|s' l]; [reflexivity|].
  change (Rec.str_join sep (map PStr (s :: s' :: l)))
    with (let* t := Rec.str_join sep (map PStr (s' :: l)) in Ok (s ++ sep ++ t)%string).
  now rewrite IH.
Qed.

Lemma join_or_empty_strings (sep : string) (l : list string) :
  Rec.join_or_empty sep (map PStr l) = Ok (String.concat sep l).
Proof. destruct l; [reflexivity|apply (str_join_strings sep (_ :: _))]. Qed.

Lemma blank_between (a b : string) :
  ((a ++ " " ++ b)%string =? " ")%string
  = ((a =? "")%string && (b =? "")%string).
Proof.
  destruct a as [|x a]; simpl.
  - destruct b; reflexivity.
  - destruct (Ascii.eqb x " "); [|reflexivity].
    destruct a; reflexivity.
Qed.

(** X22. [name] of a developer whose Name and Surname values are strings is
    the names joined by blanks, one blank, the surnames joined by blanks
    (so with names only it ends in a blank), except that it is "No name"
    when both joined parts are empty, in particular when the developer has
    neither a Name nor a Surname field. *)
Theorem display_name (self : Rec.t) (names surnames : list string) :
  Rec.values_of "Name" self = map PStr names ->
  Rec.values_of "Surname" self = map PStr surnames ->
  Rec.name self
  = Ok (if (String.concat " " names =? "")%string
           && (String.concat " " surnames =? "")%string
        then "No name"
        else String.concat " " names ++ " " ++ String.concat " " surnames)
  /\ (names = [] -> surnames = [] -> Rec.name self = Ok "No name").
Proof.
  intros Hn Hs.
  assert (E : Rec.name self
              = Ok (if (String.concat " " names =? "")%string
                       && (String.concat " " surnames =? "")%string
                    then "No name"
                    else String.concat " " names ++ " " ++ String.concat " " surnames)).
  { unfold Rec.name. rewrite Hn, Hs, !join_or_empty_strings. cbn [bind].
    now rewrite blank_between. }
  split; [exact E|]. intros -> ->. rewrite E. reflexivity.
Qed.

Lemma display_name_witness :
  Rec.name (Rec.Mk [MkField FirstNameField (PStr "Ada") "" "" "";
                    MkField CityField (PStr "Kyiv") "" "" ""])
  = Ok "Ada ".
Proof.
  exact (proj1 (@display_name
                  (Rec.Mk [MkField FirstNameField (PStr "Ada") "" "" "";
                           MkField CityField (PStr "Kyiv") "" "" ""])
                  ["Ada"] [] eq_refl eq_refl)).
Defined.

Lemma values_of_add (field_name : string) (self : Rec.t) (f : Field) :
  Rec.values_of field_name (fst (Rec.add self f))
  = (Rec.values_of field_name self
     ++ if (field_description (field_class f) =? field_name)%string
        then [value f] else [])%list.
Proof.
  unfold Rec.values_of, Rec.add. cbn [fst Rec.fields].
  rewrite filter_app, map_app. simpl.
  destruct (field_description (field_class f) =? field_name)%string; reflexivity.
Qed.

Lemma str_join_snoc (sep : string) (l : list pyval) (old s : string) :
  l <> [] -> Rec.str_join sep l = Ok old ->
  Rec.str_join sep (l ++ [PStr s]) = Ok (old ++ sep ++ s)%string.
Proof.
  revert old. induction l as [|x l IH]; intros old Hne H; [congruence|].
  destruct x; try discriminate.
  destruct l as [|y l].
  - simpl in H. inversion H; subst. reflexivity.
  - change (Rec.str_join sep (PStr s0 :: y :: l))
      with (let* t := Rec.str_join sep (y :: l) in Ok (s0 ++ sep ++ t)%string) in H.
    destruct (Rec.str_join sep (y :: l)) as [t|e] eqn:Ht; [|discriminate].
    cbn [bind] in H. inversion H; subst.
    change (Rec.str_join sep ((PStr s0 :: y :: l) ++ [PStr s]))
      with (let* t := Rec.str_join sep ((y :: l) ++ [PStr s]) in
            Ok (s0 ++ sep ++ t)%string).
    rewrite (IH t); [|discriminate|reflexivity]. cbn [bind].
    now rewrite !append_assoc.
Qed.

Lemma str_join_snoc_bad (sep : string) (l : list pyval) (v : pyval) :
  (forall s, v <> PStr s) -> Rec.str_join sep (l ++ [v]) = Raise TypeError.
Proof.
  intros Hv. induction l as [|x l IH].
  - simpl. destruct v; try reflexivity. now elim (Hv s).
  - destruct x; try reflexivity.
    destruct (l ++ [v])%list as [|y l'] eqn:El.
    + now destruct l.
    + change (Rec.str_join sep ((PStr s :: l) ++ [v]))
        with (Rec.str_join sep (PStr s :: (l ++ [v]))).
      rewrite El.
      change (Rec.str_join sep (PStr s :: y :: l'))
        with (let* t := Rec.str_join sep (y :: l') in Ok (s ++ sep ++ t)%string).
      now rewrite IH.
Qed.

(** The joined values of one kind, and what adding a field makes of them. *)
Lemma joined_follow_additions (kind : string) (self : Rec.t) (f : Field) :
  (forall l, Rec.values_of kind self = map PStr l ->
             Rec.join_or_empty "; " (Rec.values_of kind self)
             = Ok (String.concat "; " l))
  /\ (forall old s,
         Rec.join_or_empty "; " (Rec.values_of kind self) = Ok old ->
         field_description (field_class f) = kind -> value f = PStr s ->
         Rec.join_or_empty "; " (Rec.values_of kind (fst (Rec.add self f)))
         = Ok (match Rec.values_of kind self with
               | [] => s
               | _ => old ++ "; " ++ s
               end)%string)
  /\ (field_description (field_class f) <> kind ->
      Rec.join_or_empty "; " (Rec.values_of kind (fst (Rec.add self f)))
      = Rec.join_or_empty "; " (Rec.values_of kind self))
  /\ (field_description (field_class f) = kind ->
      (forall s, value f <> PStr s) ->
      Rec.join_or_empty "; " (Rec.values_of kind (fst (Rec.add self f)))
      = Raise TypeError).
Proof.
  rewrite !values_of_add. split; [|split; [|split]].
  - intros l ->. apply join_or_empty_strings.
  - intros old s Ho Hc Hv. apply String.eqb_eq in Hc. rewrite Hc, Hv.
    destruct (Rec.values_of kind self) as [|x l] eqn:E; [reflexivity|].
    assert (Hj : Rec.str_join "; " ((x :: l) ++ [PStr s]) = Ok (old ++ "; " ++ s)%string).
    { apply str_join_snoc; [discriminate|exact Ho]. }
    exact Hj.
  - intros Hne. apply String.eqb_neq in Hne. rewrite Hne. now rewrite app_nil_r.
  - intros Hc Hv. apply String.eqb_eq in Hc. rewrite Hc.
    pose proof (str_join_snoc_bad "; " (Rec.values_of kind self) Hv) as H.
    unfold Rec.join_or_empty.
    destruct (Rec.values_of kind self ++ [value f])%list eqn:El; [|exact H].
    now destruct (Rec.values_of kind self).
Qed.

(** X23. [get_skills] and [get_phone] list the values of their kind in the
    order of the fields, joined by "; ": for a developer whose Skill values
    are the strings [l], [get_skills] is [l] joined by "; " (the empty string
    when there is none), and likewise [get_phone] for the Phone values.
    Adding a Skill field with a string value to a developer whose skills read
    [old] makes them read the value alone when there was no skill, and
    [old; value] otherwise, and likewise for a Phone field and [get_phone];
    adding a field of any other kind leaves the projection as it was.  A
    value of the kind that is not a string makes the projection raise
    [TypeError]. *)
Theorem skills_follow_additions (self : Rec.t) (f : Field) :
  (forall l, Rec.values_of "Skill" self = map PStr l ->
             Rec.get_skills self = Ok (String.concat "; " l))
  /\ (forall l, Rec.values_of "Phone" self = map PStr l ->
                Rec.get_phone self = Ok (String.concat "; " l))
  /\ (forall old s,
         Rec.get_skills self = Ok old ->
         field_class f = SkillField -> value f = PStr s ->
         Rec.get_skills (fst (Rec.add self f))
         = Ok (match Rec.values_of "Skill" self with
               | [] => s
               | _ => old ++ "; " ++ s
               end)%string)
  /\ (forall old s,
         Rec.get_phone self = Ok old ->
         field_class f = PhoneField -> value f = PStr s ->
         Rec.get_phone (fst (Rec.add self f))
         = Ok (match Rec.values_of "Phone" self with
               | [] => s
               | _ => old ++ "; " ++ s
               end)%string)
  /\ (field_description (field_class f) <> "Skill" ->
      Rec.get_skills (fst (Rec.add self f)) = Rec.get_skills self)
  /\ (field_description (field_class f) <> "Phone" ->
      Rec.get_phone (fst (Rec.add self f)) = Rec.get_phone self)
  /\ (field_class f = SkillField ->
      (forall s, value f <> PStr s) ->
      Rec.get_skills (fst (Rec.add self f)) = Raise TypeError)
  /\ (field_class f = PhoneField ->
      (forall s, value f <> PStr s) ->
      Rec.get_phone (fst (Rec.add self f)) = Raise TypeError).
Proof.
  unfold Rec.get_skills, Rec.get_phone.
  destruct (joined_follow_additions "Skill" self f) as (S1 & S2 & S3 & S4).
  destruct (joined_follow_additions "Phone" self f) as (P1 & P2 & P3 & P4).
  split; [exact S1|]. split; [exact P1|].
  split; [intros old s Ho Hc Hv; apply S2; trivial; now rewrite Hc|].
  split; [intros old s Ho Hc Hv; apply P2; trivial; now rewrite Hc|].
  split; [exact S3|]. split; [exact P3|].
  split; intros Hc Hv; [apply S4|apply P4]; trivial; now rewrite Hc.
Qed.

Lemma skills_follow_additions_witness :
  let python := MkField SkillField (PStr "python") "" "" "" in
  let rust := MkField SkillField (PStr "rust") "" "" "" in
  let home := MkField PhoneField (PStr "+380501234567") "38" "050" "1234567" in
  let work := MkField PhoneField (PStr "+380677654321") "38" "067" "7654321" in
  Rec.get_skills (fst (Rec.add (Rec.Mk [python]) rust)) = Ok "python; rust"
  /\ Rec.get_phone (Rec.Mk [home; python; work]) = Ok "+380501234567; +380677654321"
  /\ Rec.get_phone (fst (Rec.add (Rec.Mk [home; python]) work))
     = Ok "+380501234567; +380677654321".
Proof.
  intros python rust home work. split; [|split].
  - exact (proj1 (proj2 (proj2 (skills_follow_additions (Rec.Mk [python]) rust)))
                 "python" "rust" eq_refl eq_refl eq_refl).
  - exact (proj1 (proj2 (skills_follow_additions (Rec.Mk [home; python; work]) rust))
                 ["+380501234567"; "+380677654321"] eq_refl).
  - exact (proj1 (proj2 (proj2 (proj2
             (skills_follow_additions (Rec.Mk [home; python]) work))))
                 "+380501234567" "+380677654321" eq_refl eq_refl eq_refl).
Defined.

Lemma get_rate_fields_app (l : list Field) (f : Field) :
  Rec.get_rate_fields (l ++ [f])
  = if existsb (fun g => (field_description (field_class g) =? "Rate")%string) l
    then Rec.get_rate_fields l
    else if (field_description (field_class f) =? "Rate")%string
         then value f else PNone.
Proof.
  induction l as [|g l IH]; simpl; [reflexivity|].
  destruct (field_description (field_class g) =? "Rate")%string; [reflexivity|exact IH].
Qed.

Lemma get_city_fields_app (l : list Field) (f : Field) :
  Rec.get_city_fields (l ++ [f])
  = if existsb (fun g => (field_description (field_class g) =? "City")%string) l
    then Rec.get_city_fields l
    else if (field_description (field_class f) =? "City")%string
         then value f else PStr "".
Proof.
  induction l as [|g l IH]; simpl; [reflexivity|].
  destruct (field_description (field_class g) =? "City")%string; [reflexivity|exact IH].
Qed.

Lemma existsb_class (c : FieldClass) (l : list Field) :
  existsb (fun g => (field_description (field_class g) =? field_description c)%string) l
  = true <-> Exists (fun g => field_class g = c) l.
Proof.
  rewrite existsb_exists, Exists_exists.
  split; intros (g & Hin & Hg); exists g; split; trivial.
  - apply String.eqb_eq in Hg. destruct (field_class g), c; trivial; discriminate.
  - rewrite Hg. apply String.eqb_refl.
Qed.

(** X24. The single-valued projections read the first field of their kind:
    once a record has a Rate field, adding any field, another Rate field
    included, leaves [get_rate] (and so the record's part in the statistics)
    as it was, and likewise [get_city] once there is a City field.  On a
    record without a field of the kind, [get_rate] is [None] and [get_city]
    is the empty string, and adding a field of the kind makes the projection
    the value of that field. *)
Theorem first_field_wins (self : Rec.t) (f : Field) :
  (Exists (fun g => field_class g = RateField) (Rec.fields self) ->
   Rec.get_rate (fst (Rec.add self f)) = Rec.get_rate self)
  /\ (Exists (fun g => field_class g = CityField) (Rec.fields self) ->
      Rec.get_city (fst (Rec.add self f)) = Rec.get_city self)
  /\ (Forall (fun g => field_class g <> RateField) (Rec.fields self) ->
      Rec.get_rate self = PNone
      /\ (field_class f = RateField ->
          Rec.get_rate (fst (Rec.add self f)) = value f))
  /\ (Forall (fun g => field_class g <> CityField) (Rec.fields self) ->
      Rec.get_city self = PStr ""
      /\ (field_class f = CityField ->
          Rec.get_city (fst (Rec.add self f)) = value f)).
Proof.
  unfold Rec.get_rate, Rec.get_city, Rec.add. cbn [fst Rec.fields].
  rewrite get_rate_fields_app, get_city_fields_app.
  assert (Hno : forall c, Forall (fun g => field_class g <> c) (Rec.fields self) ->
                existsb (fun g => (field_description (field_class g)
                                   =? field_description c)%string)
                        (Rec.fields self) = false).
  { intros c H. apply not_true_is_false. intros E. apply existsb_class in E.
    apply Exists_exists in E. destruct E as (g & Hin & Hg).
    rewrite Forall_forall in H. now apply (H g Hin). }
  split; [|split; [|split]].
  - intros H. apply (existsb_class RateField) in H. cbn [field_description] in H.
    now rewrite H.
  - intros H. apply (existsb_class CityField) in H. cbn [field_description] in H.
    now rewrite H.
  - intros H. split; [now apply lacks_rate_get_rate|].
    intros Hc. specialize (Hno RateField H). cbn [field_description] in Hno.
    rewrite Hno, Hc. reflexivity.
  - intros H. split.
    + clear - H. induction H as [|g l Hg _ IH]; simpl; [reflexivity|].
      destruct (field_class g); simpl; try exact IH. now elim Hg.
    + intros Hc. specialize (Hno CityField H). cbn [field_description] in Hno.
      rewrite Hno, Hc. reflexivity.
Qed.

Lemma first_field_wins_witness :
  let r50 := MkField RateField (PFloat (S754_finite false 7036874417766400 (-47))) "" "" "" in
  let r0 := MkField RateField (PFloat (S754_zero false)) "" "" "" in
  Rec.get_rate (fst (Rec.add (Rec.Mk [r0]) r50)) = PFloat (S754_zero false).
Proof.
  intros r50 r0.
  apply (proj1 (first_field_wins (Rec.Mk [r0]) r50)).
  apply Exists_cons_hd. reflexivity.
Defined.
